(** * The extension manager's list model (packages/extensionmanager/src/model.ts)

    A shallow embedding of [ListModel]: the entry records, the two
    translation channels, the reconciliation pass [update], the four server
    actions, the companion-package gate, the build check and the
    pending-action tracker, followed by the properties the specification
    states about them.

    Conventions of the embedding.
    - A promise is represented by the way it settles ([settled]); an
      [async] method is a computation in the monad [M], which threads the
      model's fields, the log of observable effects (requests sent,
      [stateChanged] emissions, dialogs) and the promise allocator.  An
      [await] reads the settlement from the collaborators' record [Env].
    - A synchronous [throw] is a [Thrown] completion, so that it cannot be
      confused with a rejected promise.
    - An object literal used as a dictionary ([{ [key: string]: IEntry }]) is
      an ordinary object: its own properties in the order of their creation,
      and its prototype.  [Object.keys] lists the keys that are array indices
      first, in ascending numeric order, and then the other keys in the order
      of their creation; a property access that finds no own property goes on
      to the prototype chain, so that [o["constructor"]] is a function; and an
      assignment to ["__proto__"] creates no property but replaces the
      prototype.  What such an access gives is a [value], of which an entry
      is one case.
    - [Array.prototype.sort] is stable (ECMAScript 2019); with a comparator
      that is a weak order, as [Private.comparator] is, every stable sort
      returns the same array.  An exception thrown by the comparator leaves
      [sort].
    - The two fetches of a reconciliation pass write disjoint fields, so the
      order in which they settle does not show in the outcome of the pass;
      [update] lets the search settle first. *)

From Stdlib Require Import String Ascii List ZArith Bool Lia.
From Stdlib Require Import DecimalString Permutation.
Import ListNotations.
Open Scope string_scope.
Open Scope Z_scope.
Open Scope list_scope.

Set Implicit Arguments.

(** ** JavaScript values used by the model *)

(** How a promise settles.  A rejection carries [reason.toString()]. *)
Inductive settled (A : Type) : Type :=
| Fulfilled (value : A)
| Rejected (reason : string).
Arguments Fulfilled {A} value.
Arguments Rejected {A} reason.

(** How a synchronous call completes. *)
Inductive completion (A : Type) : Type :=
| Returned (value : A)
| Thrown (reason : string).
Arguments Returned {A} value.
Arguments Thrown {A} reason.

(** [new Error(message).toString()]. *)
Definition Error (message : string) : string := ("Error: " ++ message)%string.

(** Template-literal rendering of an integral number. *)
Definition number_toString (n : Z) : string := NilZero.string_of_int (Z.to_int n).

(** Truthiness of a string: [!s] holds for the empty string only. *)
Definition truthy (s : string) : bool := negb (String.eqb s "").

(** [Array.prototype.indexOf]: position of the first occurrence, or -1. *)
Fixpoint indexOf {A : Type} (eqb : A -> A -> bool) (x : A) (l : list A) : Z :=
  match l with
  | [] => -1
  | y :: l' =>
      if eqb y x then 0
      else let i := indexOf eqb x l' in if i <? 0 then -1 else i + 1
  end.

(** [Array.prototype.splice(start, 1)]: a negative [start] counts from the
    end of the array, so that [splice(-1, 1)] drops the last element. *)
Definition splice1 {A : Type} (start : Z) (l : list A) : list A :=
  let len := Z.of_nat (length l) in
  let from := if start <? 0 then Z.max (len + start) 0 else Z.min start len in
  firstn (Z.to_nat from) l ++ skipn (S (Z.to_nat from)) l.

(** [Array.prototype.sort(compare)]: stable; an element moves behind its
    predecessor only when the comparator puts it strictly after. *)
Section Sort.
Variable A : Type.
Variable compare : A -> A -> Z.

Fixpoint sort_insert (x : A) (sorted : list A) : list A :=
  match sorted with
  | [] => [x]
  | y :: rest =>
      if 0 <? compare x y then y :: sort_insert x rest else x :: sorted
  end.

Definition sort (l : list A) : list A := fold_right sort_insert [] l.
End Sort.

(** The same procedure with a comparator that can throw: the exception
    leaves [sort], and the array is not returned.  An array of fewer than two
    elements is returned without a call of the comparator. *)
Section SortCompletion.
Variable A : Type.
Variable compare : A -> A -> completion Z.

Fixpoint sort_insert_completion (x : A) (sorted : list A) : completion (list A) :=
  match sorted with
  | [] => Returned [x]
  | y :: rest =>
      match compare x y with
      | Thrown reason => Thrown reason
      | Returned c =>
          if 0 <? c then
            match sort_insert_completion x rest with
            | Thrown reason => Thrown reason
            | Returned rest' => Returned (y :: rest')
            end
          else Returned (x :: sorted)
      end
  end.

Definition sort_completion (l : list A) : completion (list A) :=
  fold_right
    (fun x sorted =>
       match sorted with
       | Thrown reason => Thrown reason
       | Returned sorted => sort_insert_completion x sorted
       end)
    (Returned []) l.
End SortCompletion.

(** ** Data model *)

Inductive Status : Type := ok | warning | error | deprecated.

(** Information about an extension. *)
Module IEntry.
Record t : Type := mk {
  name : string;
  description : string;
  url : string;
  installed : bool;
  enabled : bool;
  status : option Status;
  latest_version : string;
  installed_version : string
}.
End IEntry.

Definition Status_toString (s : Status) : string :=
  match s with
  | ok => "ok"
  | warning => "warning"
  | error => "error"
  | deprecated => "deprecated"
  end.

(** ** Objects used as dictionaries *)

(** What a property access on a dictionary of entries can give at run
    time: an entry, or, through the prototype chain, a field of an entry or a
    member of [Object.prototype]. *)
Inductive value : Type :=
| js_undefined
| js_null
| js_boolean (b : bool)
| js_string (s : string)
| js_function (name : string)
| js_Object_prototype
| js_entry (e : IEntry.t).

(** [value === undefined]. *)
Definition is_undefined (v : value) : bool :=
  match v with
  | js_undefined => true
  | _ => false
  end.

(** A key is an array index when it is the canonical numeral (decimal, no
    sign, no leading zero) of an integer below 2^32 - 1. *)
Definition is_digit (c : ascii) : bool :=
  ((48 <=? N_of_ascii c) && (N_of_ascii c <=? 57))%N.

Fixpoint numeral (s : string) (acc : N) : option N :=
  match s with
  | EmptyString => Some acc
  | String c s' =>
      if is_digit c then numeral s' (10 * acc + (N_of_ascii c - 48))%N else None
  end.

Definition array_index (key : string) : option N :=
  match key with
  | EmptyString => None
  | String c rest =>
      if Ascii.eqb c "0"%char && negb (String.eqb rest "") then None
      else
        match numeral key 0%N with
        | Some n => if (n <? 4294967295)%N then Some n else None
        | None => None
        end
  end.

Definition is_array_index (key : string) : bool :=
  match array_index key with
  | Some _ => true
  | None => false
  end.

(** The own properties of an object, in the order of their creation. *)
Definition properties : Type := list (string * IEntry.t).

(** The own property under [key], if there is one. *)
Fixpoint own_property (key : string) (own : properties) : option IEntry.t :=
  match own with
  | [] => None
  | (k, v) :: own' => if String.eqb k key then Some v else own_property key own'
  end.

(** Assignment to an own property: an existing key keeps its place, a new
    key is created last. *)
Fixpoint assign (key : string) (v : IEntry.t) (own : properties) : properties :=
  match own with
  | [] => [(key, v)]
  | (k, w) :: own' =>
      if String.eqb k key then (k, v) :: own' else (k, w) :: assign key v own'
  end.

(** The properties whose keys are array indices, by ascending index. *)
Fixpoint insert_index (n : N) (p : string * IEntry.t)
    (l : list (N * (string * IEntry.t))) : list (N * (string * IEntry.t)) :=
  match l with
  | [] => [(n, p)]
  | (m, q) :: l' =>
      if (n <? m)%N then (n, p) :: l else (m, q) :: insert_index n p l'
  end.

Definition index_properties (own : properties) : list (N * (string * IEntry.t)) :=
  fold_right
    (fun p sorted =>
       match array_index (fst p) with
       | Some n => insert_index n p sorted
       | None => sorted
       end)
    [] own.

(** The order of enumeration of the own properties: the array indices by
    ascending index, then the other keys by creation. *)
Definition enumerate (own : properties) : properties :=
  map snd (index_properties own)
  ++ filter (fun p => negb (is_array_index (fst p))) own.

(** An object created by the literal [{}] and filled by assignments of
    entries: its own properties, and the entry that an assignment to
    ["__proto__"] has put in the place of [Object.prototype], if any. *)
Record dictionary : Type := mk_dictionary {
  own : properties;
  prototype : option IEntry.t
}.

(** The literal [{}]. *)
Definition empty_object : dictionary := {| own := []; prototype := None |}.

(** [o[key] = v].  The key ["__proto__"] names the accessor of
    [Object.prototype], whose setter replaces the prototype of [o] by the
    object [v] and creates no property. *)
Definition set (key : string) (v : IEntry.t) (o : dictionary) : dictionary :=
  if String.eqb key "__proto__" then
    {| own := own o; prototype := Some v |}
  else
    {| own := assign key v (own o); prototype := prototype o |}.

(** The own properties of an entry, which an object literal creates. *)
Definition entry_property (key : string) (e : IEntry.t) : option value :=
  if String.eqb key "name" then Some (js_string (IEntry.name e))
  else if String.eqb key "description" then Some (js_string (IEntry.description e))
  else if String.eqb key "url" then Some (js_string (IEntry.url e))
  else if String.eqb key "installed" then Some (js_boolean (IEntry.installed e))
  else if String.eqb key "enabled" then Some (js_boolean (IEntry.enabled e))
  else if String.eqb key "status" then
    Some match IEntry.status e with
         | Some s => js_string (Status_toString s)
         | None => js_null
         end
  else if String.eqb key "latest_version" then
    Some (js_string (IEntry.latest_version e))
  else if String.eqb key "installed_version" then
    Some (js_string (IEntry.installed_version e))
  else None.

(** The functions of [Object.prototype] whose [name] is their key. *)
Definition Object_prototype_functions : list string :=
  ["__defineGetter__"; "__defineSetter__"; "hasOwnProperty"; "__lookupGetter__";
   "__lookupSetter__"; "isPrototypeOf"; "propertyIsEnumerable"; "toString";
   "valueOf"; "toLocaleString"].

(** A property access that has reached [Object.prototype]: the getter of
    ["__proto__"] gives the prototype of the object the access started from,
    ["constructor"] is the function [Object], and no other key is defined. *)
Definition Object_prototype (key : string) (prototype_of_receiver : value) : value :=
  if String.eqb key "__proto__" then prototype_of_receiver
  else if String.eqb key "constructor" then js_function "Object"
  else if existsb (String.eqb key) Object_prototype_functions then js_function key
  else js_undefined.

(** What the prototype chain gives under [key]: the entry put in the place
    of [Object.prototype], if any, is searched before [Object.prototype]. *)
Definition inherited (key : string) (prototype : option IEntry.t) : value :=
  match prototype with
  | Some p =>
      match entry_property key p with
      | Some v => v
      | None => Object_prototype key (js_entry p)
      end
  | None => Object_prototype key js_Object_prototype
  end.

(** [o[key]]: the own property, or else what the prototype chain gives. *)
Definition get (key : string) (o : dictionary) : value :=
  match own_property key (own o) with
  | Some e => js_entry e
  | None => inherited key (prototype o)
  end.

(** [Object.keys(o)]. *)
Definition keys (o : dictionary) : list string := map fst (enumerate (own o)).

(** [Object.keys(o).map(key => o[key])]: own keys give own properties. *)
Definition values (o : dictionary) : list IEntry.t := map snd (enumerate (own o)).

(** Wire format for installed extensions; [installed] is optional. *)
Module IInstalledEntry.
Record t : Type := mk {
  name : string;
  description : string;
  url : string;
  installed : option bool;
  enabled : bool;
  latest_version : string;
  installed_version : string;
  status : option Status
}.
End IInstalledEntry.

(** A server reply to performing an action. *)
Module IActionReply.
Record t : Type := mk {
  status : option Status;
  message : option string
}.
End IActionReply.

(** Extension actions that the server API accepts. *)
Inductive Action : Type := install_cmd | uninstall_cmd | enable_cmd | disable_cmd.

Definition Action_toString (a : Action) : string :=
  match a with
  | install_cmd => "install"
  | uninstall_cmd => "uninstall"
  | enable_cmd => "enable"
  | disable_cmd => "disable"
  end.

(** Modelled from the spec: the registry's search reply, declared in
    [./query] ([ISearchResult]): [{objects: [{package: {name, description,
    version, keywords[], links: {homepage?, repository?, npm}}}], total}]. *)
Module ISearchResult.
Record links_t : Type := mk_links {
  homepage : option string;
  repository : option string;
  npm : string
}.
Record package_t : Type := mk_package {
  name : string;
  description : string;
  version : string;
  keywords : list string;
  links : links_t
}.
Record object_t : Type := mk_object { package : package_t }.
Record t : Type := mk { objects : list object_t; total : Z }.
End ISearchResult.

(** Modelled from the spec: a kernel specification of [@jupyterlab/services]
    ([Kernel.ISpecModel]), of which the matcher reads the language and the
    display name. *)
Module ISpecModel.
Record t : Type := mk {
  name : string;
  language : string;
  display_name : string
}.
End ISpecModel.

(** Modelled from the spec: the companion metadata declared in
    [./companions] and [./query]:
    [{jupyterlab: {discovery: {kernel?: [{kernel_spec: {language?,
    display_name?}}], server?: ...}}}].  The install instructions themselves
    ([base], [managers], [overrides]) are only handed on to the dialog and
    are kept as one label. *)
Module Companions.
Record IInstallInfo : Type := mk_info { instructions : string }.
Record kernel_spec_t : Type := mk_kernel_spec {
  language : option string;
  display_name : option string
}.
Record IKernelInstallInfo : Type := mk_kernel_info {
  info : IInstallInfo;
  kernel_spec : kernel_spec_t
}.
Record KernelCompanion : Type := mk_companion {
  kernelInfo : IKernelInstallInfo;
  kernels : list ISpecModel.t
}.
Record discovery_t : Type := mk_discovery {
  server : option IInstallInfo;
  kernel : option (list IKernelInstallInfo)
}.
Record jupyterlab_t : Type := mk_jupyterlab { discovery : option discovery_t }.
Record IPackageData : Type := mk_data { jupyterlab : option jupyterlab_t }.
End Companions.

(** The [Response] of a [fetch]; [json] is how [response.json()] settles. *)
Module Response.
Record t (T : Type) : Type := mk {
  ok : bool;
  status : Z;
  statusText : string;
  json : settled T
}.
Arguments mk {T} ok status statusText json.
Arguments ok {T} t.
Arguments status {T} t.
Arguments statusText {T} t.
Arguments json {T} t.
End Response.

(** A pending promise is known by its identity only. *)
Definition Promise : Type := nat.

(** ** Observable effects *)

Inductive event : Type :=
| stateChanged_emit
| searchExtensions_call (query : string) (page pagination : Z)
| fetchPackageData_call (name version : string)
| makeRequest_GET (refresh : bool)
| makeRequest_POST (cmd : string) (extension_name : string)
| getStatus_call
| doBuild_call
| presentCompanions_call (kernelCompanions : list Companions.KernelCompanion)
                         (serverCompanion : option Companions.IInstallInfo)
| reportInstallError_call (name : string) (message : option string).

(** Calls to the package registry. *)
Definition is_registry_call (e : event) : bool :=
  match e with
  | searchExtensions_call _ _ _ | fetchPackageData_call _ _ => true
  | _ => false
  end.

(** ** The model's fields *)

(** [_searchResult] is declared as [IEntry[]]; at run time it holds what
    [update] pushes, which a property access decides. *)

Record ListModel : Type := mkListModel {
  _installed : list IEntry.t;
  _searchResult : list value;
  _query : option string;
  _page : Z;
  _pagination : Z;
  _totalEntries : Z;
  installedError : option string;
  searchError : option string;
  serverConnectionError : option string;
  initialized : bool;
  promptBuild : bool;
  _pendingActions : list Promise
}.

(** The state a [new ListModel(serviceManager)] starts in. *)
Definition constructor : ListModel :=
  {| _installed := []; _searchResult := [];
     _query := None; _page := 0; _pagination := 250; _totalEntries := 0;
     installedError := None; searchError := None; serverConnectionError := None;
     initialized := false; promptBuild := false; _pendingActions := [] |}.

Record World : Type := mkWorld {
  this : ListModel;
  log : list event;
  allocated : nat
}.

Definition new_World (m : ListModel) : World :=
  {| this := m; log := []; allocated := 0 |}.

(** ** The monad of model methods *)

Definition M (A : Type) : Type := World -> A * World.

Definition ret {A : Type} (a : A) : M A := fun w => (a, w).

Definition bind {A B : Type} (c : M A) (k : A -> M B) : M B :=
  fun w => let (a, w') := c w in k a w'.

Notation "x <- c ;; k" := (bind c (fun x => k))
  (at level 61, c at next level, right associativity).
Notation "c ;;; k" := (bind c (fun _ => k))
  (at level 61, right associativity).

Definition read {A : Type} (field : ListModel -> A) : M A :=
  fun w => (field (this w), w).

Definition modify (f : ListModel -> ListModel) : M unit :=
  fun w => (tt, {| this := f (this w); log := log w; allocated := allocated w |}).

Definition emit (e : event) : M unit :=
  fun w => (tt, {| this := this w; log := log w ++ [e]; allocated := allocated w |}).

(** Allocation of a promise object. *)
Definition new_Promise : M Promise :=
  fun w => (allocated w,
            {| this := this w; log := log w; allocated := S (allocated w) |}).

(** [promise.then(onFulfilled)]: the callback is skipped on rejection. *)
Definition then_ {A : Type} (p : settled A) (onFulfilled : A -> M unit) : M unit :=
  match p with
  | Fulfilled a => onFulfilled a
  | Rejected _ => ret tt
  end.

(** Field assignments. *)
Definition set__installed (v : list IEntry.t) (m : ListModel) : ListModel :=
  mkListModel v (_searchResult m) (_query m) (_page m) (_pagination m)
    (_totalEntries m) (installedError m) (searchError m)
    (serverConnectionError m) (initialized m) (promptBuild m) (_pendingActions m).
Definition set__searchResult (v : list value) (m : ListModel) : ListModel :=
  mkListModel (_installed m) v (_query m) (_page m) (_pagination m)
    (_totalEntries m) (installedError m) (searchError m)
    (serverConnectionError m) (initialized m) (promptBuild m) (_pendingActions m).
Definition set__query (v : option string) (m : ListModel) : ListModel :=
  mkListModel (_installed m) (_searchResult m) v (_page m) (_pagination m)
    (_totalEntries m) (installedError m) (searchError m)
    (serverConnectionError m) (initialized m) (promptBuild m) (_pendingActions m).
Definition set__page (v : Z) (m : ListModel) : ListModel :=
  mkListModel (_installed m) (_searchResult m) (_query m) v (_pagination m)
    (_totalEntries m) (installedError m) (searchError m)
    (serverConnectionError m) (initialized m) (promptBuild m) (_pendingActions m).
Definition set__pagination (v : Z) (m : ListModel) : ListModel :=
  mkListModel (_installed m) (_searchResult m) (_query m) (_page m) v
    (_totalEntries m) (installedError m) (searchError m)
    (serverConnectionError m) (initialized m) (promptBuild m) (_pendingActions m).
Definition set__totalEntries (v : Z) (m : ListModel) : ListModel :=
  mkListModel (_installed m) (_searchResult m) (_query m) (_page m) (_pagination m)
    v (installedError m) (searchError m)
    (serverConnectionError m) (initialized m) (promptBuild m) (_pendingActions m).
Definition set_installedError (v : option string) (m : ListModel) : ListModel :=
  mkListModel (_installed m) (_searchResult m) (_query m) (_page m) (_pagination m)
    (_totalEntries m) v (searchError m)
    (serverConnectionError m) (initialized m) (promptBuild m) (_pendingActions m).
Definition set_searchError (v : option string) (m : ListModel) : ListModel :=
  mkListModel (_installed m) (_searchResult m) (_query m) (_page m) (_pagination m)
    (_totalEntries m) (installedError m) v
    (serverConnectionError m) (initialized m) (promptBuild m) (_pendingActions m).
Definition set_serverConnectionError (v : option string) (m : ListModel) : ListModel :=
  mkListModel (_installed m) (_searchResult m) (_query m) (_page m) (_pagination m)
    (_totalEntries m) (installedError m) (searchError m)
    v (initialized m) (promptBuild m) (_pendingActions m).
Definition set_promptBuild (v : bool) (m : ListModel) : ListModel :=
  mkListModel (_installed m) (_searchResult m) (_query m) (_page m) (_pagination m)
    (_totalEntries m) (installedError m) (searchError m)
    (serverConnectionError m) (initialized m) v (_pendingActions m).
Definition set__pendingActions (v : list Promise) (m : ListModel) : ListModel :=
  mkListModel (_installed m) (_searchResult m) (_query m) (_page m) (_pagination m)
    (_totalEntries m) (installedError m) (searchError m)
    (serverConnectionError m) (initialized m) (promptBuild m) v.

(** ** Collaborators *)

(** Modelled from the spec: the dictionary [specs.kernelspecs] of
    [@jupyterlab/services] ([Kernel.ISpecModels]), given by its own
    properties in the order in which [Object.keys] lists them. *)
Definition kernelspecs_t : Type := list (string * ISpecModel.t).

(** What the collaborators answer while one method runs: the registry
    ([Searcher]), the local server behind [ServerConnection.makeRequest],
    the companion dialog, the kernel specifications of the service manager
    ([None] for [null]), and the builder.  [isJupyterOrg_undefined] is how
    [isJupyterOrg] of [./query] completes when it is handed [undefined],
    which its declaration ([name: string]) does not cover and the comparator
    does for an array element without a [name]. *)
Record Env : Type := mkEnv {
  searcher_searchExtensions : string -> Z -> Z -> settled ISearchResult.t;
  searcher_fetchPackageData :
    string -> string -> settled (option Companions.IPackageData);
  presentCompanions :
    list Companions.KernelCompanion -> option Companions.IInstallInfo ->
    settled bool;
  makeRequest_extensions : bool -> settled (Response.t (list IInstalledEntry.t));
  makeRequest_action : string -> string -> settled (Response.t IActionReply.t);
  serviceManager_specs : option kernelspecs_t;
  builder_isAvailable : bool;
  builder_getStatus : settled string;
  doBuild : settled unit;
  isJupyterOrg_undefined : completion bool
}.

(** ** Private statics *)

Module Private.
Section Private.
(** [isJupyterOrg] of [./query]: membership of the trusted namespace. *)
Variable isJupyterOrg : string -> bool.
(** [isJupyterOrg(undefined)]. *)
Variable isJupyterOrg_undefined : completion bool.
(** [new RegExp(pattern)]: the [test] method of the expression, or the
    [SyntaxError] thrown for a pattern that does not compile. *)
Variable new_RegExp : string -> completion (string -> bool).

(** A comparator function that sorts whitelisted orgs to the top; the
    arguments are entries, as declared. *)
Definition comparator (a b : IEntry.t) : Z :=
  if String.eqb (IEntry.name a) (IEntry.name b) then 0
  else
    let testA := isJupyterOrg (IEntry.name a) in
    let testB := isJupyterOrg (IEntry.name b) in
    if Bool.eqb testA testB then 0
    else if testA && negb testB then -1
    else 1.

(** [v.name]: [undefined] ([None]) where the value has no such property, a
    [TypeError] on [null] and [undefined] (its message is the engine's). *)
Definition property_name (v : value) : completion (option string) :=
  match v with
  | js_undefined => Thrown "TypeError"
  | js_null => Thrown "TypeError"
  | js_boolean _ | js_string _ | js_Object_prototype => Returned None
  | js_function name => Returned (Some name)
  | js_entry e => Returned (Some (IEntry.name e))
  end.

(** [a === b] on what [property_name] returns. *)
Definition name_eqb (a b : option string) : bool :=
  match a, b with
  | Some a, Some b => String.eqb a b
  | None, None => true
  | _, _ => false
  end.

(** [isJupyterOrg(name)] for a name that may be [undefined]. *)
Definition isJupyterOrg_call (name : option string) : completion bool :=
  match name with
  | Some name => Returned (isJupyterOrg name)
  | None => isJupyterOrg_undefined
  end.

(** The comparator applied to whatever the array holds at run time; on two
    entries it is [comparator]. *)
Definition comparator_value (a b : value) : completion Z :=
  match property_name a with
  | Thrown reason => Thrown reason
  | Returned nameA =>
      match property_name b with
      | Thrown reason => Thrown reason
      | Returned nameB =>
          if name_eqb nameA nameB then Returned 0
          else
            match isJupyterOrg_call nameA with
            | Thrown reason => Thrown reason
            | Returned testA =>
                match isJupyterOrg_call nameB with
                | Thrown reason => Thrown reason
                | Returned testB =>
                    Returned (if Bool.eqb testA testB then 0
                              else if testA && negb testB then -1
                              else 1)
                end
            end
      end
  end.

(** The [RegExp] built for a pattern of a kernel rule: none ([null]) when
    the pattern is missing or empty. *)
Definition compile (pattern : option string) : completion (option (string -> bool)) :=
  match pattern with
  | Some p =>
      if truthy p then
        match new_RegExp p with
        | Returned re => Returned (Some re)
        | Thrown reason => Thrown reason
        end
      else Returned None
  | None => Returned None
  end.

(** Match kernel specs against kernel spec regexps.  Without specs nothing
    is compiled; otherwise the language pattern is compiled first. *)
Definition matchSpecs (kernelInfo : Companions.IKernelInstallInfo)
    (specs : option kernelspecs_t) : completion (list ISpecModel.t) :=
  match specs with
  | None => Returned []
  | Some kernelspecs =>
      let spec_ := Companions.kernel_spec kernelInfo in
      match compile (Companions.language spec_) with
      | Thrown reason => Thrown reason
      | Returned reLang =>
          match compile (Companions.display_name spec_) with
          | Thrown reason => Thrown reason
          | Returned reName =>
              Returned
                (filter
                   (fun spec =>
                      let match1 :=
                        match reLang with
                        | Some re => re (ISpecModel.language spec)
                        | None => false
                        end in
                      match reName with
                      | Some re =>
                          if negb match1 then re (ISpecModel.display_name spec)
                          else match1
                      | None => match1
                      end)
                   (map snd kernelspecs))
          end
      end
  end.

(** Convert a response to an exception on error. *)
Definition handleError {T : Type} (response : Response.t T)
  : completion (Response.t T) :=
  if negb (Response.ok response) then
    Thrown (Error (number_toString (Response.status response) ++ " ("
                   ++ Response.statusText response ++ ")")%string)
  else Returned response.
End Private.
End Private.

(** ** ListModel *)

Section ListModel.
Variable isJupyterOrg : string -> bool.
Variable new_RegExp : string -> completion (string -> bool).
Variable env : Env.

(** Whether there are currently any actions pending. *)
Definition hasPendingActions (m : ListModel) : bool :=
  0 <? Z.of_nat (length (_pendingActions m)).

(** The callback [remove] of [_addPendingAction]. *)
Definition remove (pending : Promise) : M unit :=
  actions <- read _pendingActions ;;
  let i := indexOf Nat.eqb pending actions in
  modify (set__pendingActions (splice1 i actions)) ;;;
  emit stateChanged_emit.

(** Add a pending action: the promise is pushed and the change signalled;
    [remove] is registered for both ways of settling. *)
Definition _addPendingAction (pending : Promise) : M unit :=
  actions <- read _pendingActions ;;
  modify (set__pendingActions (actions ++ [pending])) ;;;
  emit stateChanged_emit.

(** [pending.then(remove, remove)], run when [pending] settles. *)
Definition _addPendingAction_settled {A : Type} (pending : Promise)
    (outcome : settled A) : M unit :=
  match outcome with
  | Fulfilled _ => remove pending
  | Rejected _ => remove pending
  end.

(** The entry built from one package of the registry's reply. *)
Definition search_entry (pkg : ISearchResult.package_t) : IEntry.t :=
  {| IEntry.name := ISearchResult.name pkg;
     IEntry.description := ISearchResult.description pkg;
     IEntry.url :=
       match ISearchResult.homepage (ISearchResult.links pkg) with
       | Some homepage => homepage
       | None =>
           match ISearchResult.repository (ISearchResult.links pkg) with
           | Some repository => repository
           | None => ISearchResult.npm (ISearchResult.links pkg)
           end
       end;
     IEntry.installed := false;
     IEntry.enabled := false;
     IEntry.status := None;
     IEntry.latest_version := ISearchResult.version pkg;
     IEntry.installed_version := "" |}.

(** Translate search results from an npm repository query into entries
    and remove entries with 'deprecated' in the keyword list. *)
Definition translateSearchResult (res : settled ISearchResult.t)
  : settled dictionary :=
  match res with
  | Rejected reason => Rejected reason
  | Fulfilled res =>
      Fulfilled
        (fold_left
           (fun entries obj =>
              let pkg := ISearchResult.package obj in
              if 0 <=? indexOf String.eqb "deprecated" (ISearchResult.keywords pkg)
              then entries
              else set (ISearchResult.name pkg) (search_entry pkg) entries)
           (ISearchResult.objects res) empty_object)
  end.

(** The entry built from one wire record. *)
Definition installed_entry (pkg : IInstalledEntry.t) : IEntry.t :=
  {| IEntry.name := IInstalledEntry.name pkg;
     IEntry.description := IInstalledEntry.description pkg;
     IEntry.url := IInstalledEntry.url pkg;
     IEntry.installed :=
       match IInstalledEntry.installed pkg with
       | Some false => false
       | _ => true
       end;
     IEntry.enabled := IInstalledEntry.enabled pkg;
     IEntry.status := IInstalledEntry.status pkg;
     IEntry.latest_version := IInstalledEntry.latest_version pkg;
     IEntry.installed_version := IInstalledEntry.installed_version pkg |}.

(** Translate installed extensions information from the server into
    entries. *)
Definition translateInstalled (res : settled (list IInstalledEntry.t))
  : settled dictionary :=
  match res with
  | Rejected reason => Rejected reason
  | Fulfilled pkgs =>
      Fulfilled
        (fold_left
           (fun entries pkg => set (IInstalledEntry.name pkg) (installed_entry pkg) entries)
           pkgs empty_object)
  end.

(** Make a request to the server for info about its installed extensions. *)
Definition fetchInstalled (refreshInstalled : bool)
  : M (settled (list IInstalledEntry.t)) :=
  emit (makeRequest_GET refreshInstalled) ;;;
  let request :=
    match makeRequest_extensions env refreshInstalled with
    | Rejected reason => Rejected reason
    | Fulfilled response =>
        match Private.handleError response with
        | Thrown reason => Rejected reason
        | Returned response => Response.json response
        end
    end in
  match request with
  | Fulfilled _ => modify (set_serverConnectionError None)
  | Rejected reason => modify (set_serverConnectionError (Some reason))
  end ;;;
  ret request.

(** Search with current query.  Sets searchError and totalEntries as
    appropriate. *)
Definition performSearch : M dictionary :=
  query <- read _query ;;
  match query with
  | None =>
      modify (set__searchResult []) ;;;
      modify (set__totalEntries 0) ;;;
      modify (set_searchError None) ;;;
      ret empty_object
  | Some query =>
      page <- read _page ;;
      pagination <- read _pagination ;;
      emit (searchExtensions_call query page pagination) ;;;
      let search := searcher_searchExtensions env query page pagination in
      let searchMapPromise := translateSearchResult search in
      searchMap <-
        match searchMapPromise with
        | Fulfilled searchMap => modify (set_searchError None) ;;; ret searchMap
        | Rejected reason =>
            modify (set_searchError (Some reason)) ;;; ret empty_object
        end ;;
      match search with
      | Fulfilled res => modify (set__totalEntries (ISearchResult.total res))
      | Rejected _ => modify (set__totalEntries 0)
      end ;;;
      ret searchMap
  end.

(** Query the installed extensions.  Sets installedError as appropriate. *)
Definition queryInstalled (refreshInstalled : bool) : M dictionary :=
  request <- fetchInstalled refreshInstalled ;;
  match translateInstalled request with
  | Fulfilled installedMap =>
      modify (set_installedError None) ;;; ret installedMap
  | Rejected reason =>
      modify (set_installedError (Some reason)) ;;; ret empty_object
  end.

(** The element pushed for one property of the search map:
    [installedMap[key]] unless it is [undefined], and the own property
    [searchMap[key]] if it is. *)
Definition pushed (installedMap : dictionary) (kv : string * IEntry.t) : value :=
  if is_undefined (get (fst kv) installedMap) then js_entry (snd kv)
  else get (fst kv) installedMap.

(** The sequence pushed for the search view, in the order of
    [Object.keys(searchMap)]. *)
Definition merge (searchMap installedMap : dictionary) : list value :=
  map (pushed installedMap) (enumerate (own searchMap)).

(** Update the current model: one reconciliation pass.  An exception of the
    comparator while the search view is sorted rejects the promise of
    [update] after the installed view has been assigned: the search view is
    not assigned and the change is not signalled.  No caller treats the two
    settlements of [update] differently. *)
Definition update (refreshInstalled : bool) : M unit :=
  searchMap <- performSearch ;;
  installedMap <- queryInstalled refreshInstalled ;;
  modify (set__installed
            (sort (Private.comparator isJupyterOrg) (values installedMap))) ;;;
  match sort_completion
          (Private.comparator_value isJupyterOrg (isJupyterOrg_undefined env))
          (merge searchMap installedMap)
  with
  | Returned searchResult =>
      modify (set__searchResult searchResult) ;;;
      emit stateChanged_emit
  | Thrown _ => ret tt
  end.

(** The setters of [query], [page] and [pagination]: setting a value
    triggers a new search. *)
Definition set_query (value : option string) : M unit :=
  modify (set__query value) ;;;
  update false.

Definition set_page (value : Z) : M unit :=
  modify (set__page value) ;;;
  update false.

Definition set_pagination (value : Z) : M unit :=
  modify (set__pagination value) ;;;
  update false.

(** Trigger a build check to incorporate actions taken: the status is
    requested and the resulting task tracked. *)
Definition triggerBuildCheck : M (option Promise) :=
  prompt <- read promptBuild ;;
  if builder_isAvailable env && negb prompt then
    emit getStatus_call ;;;
    completed <- new_Promise ;;
    _addPendingAction completed ;;;
    ret (Some completed)
  else ret None.

(** The reaction of [triggerBuildCheck] once the status has arrived. *)
Definition triggerBuildCheck_settled (completed : Promise) : M unit :=
  outcome <-
    match builder_getStatus env with
    | Rejected reason => ret (Rejected reason)
    | Fulfilled status =>
        if String.eqb status "building" then
          emit doBuild_call ;;; ret (doBuild env)
        else if negb (String.eqb status "needed") then ret (Fulfilled tt)
        else
          prompt <- read promptBuild ;;
          (if negb prompt then
             modify (set_promptBuild true) ;;; emit stateChanged_emit
           else ret tt) ;;;
          ret (Fulfilled tt)
    end ;;
  _addPendingAction_settled completed outcome.

(** Send a request to the server to perform an action on an extension.
    The value is how the promise [completed] settles.  The reactions run in
    the order of their registration: the server-connection slot, then
    [remove], then whatever the caller chains.  A build check started on a
    2xx response is still in flight when they run; its own reaction is
    [triggerBuildCheck_settled]. *)
Definition _performAction (action : string) (entry : IEntry.t)
  : M (settled IActionReply.t) :=
  emit (makeRequest_POST action (IEntry.name entry)) ;;;
  completed <- new_Promise ;;
  _addPendingAction completed ;;;
  reply <-
    match makeRequest_action env action (IEntry.name entry) with
    | Rejected reason => ret (Rejected reason)
    | Fulfilled response =>
        match Private.handleError response with
        | Thrown reason => ret (Rejected reason)
        | Returned response =>
            triggerBuildCheck ;;; ret (Response.json response)
        end
    end ;;
  match reply with
  | Fulfilled _ => modify (set_serverConnectionError None)
  | Rejected reason => modify (set_serverConnectionError (Some reason))
  end ;;;
  _addPendingAction_settled completed reply ;;;
  ret reply.

(** The loop of [checkCompanionPackages] over a declared [discovery.kernel]:
    one companion per rule, with the specs it matches; an exception of
    [matchSpecs] leaves the loop. *)
Fixpoint match_kernels (kernel : list Companions.IKernelInstallInfo)
  : completion (list Companions.KernelCompanion) :=
  match kernel with
  | [] => Returned []
  | kernelInfo :: kernel' =>
      match Private.matchSpecs new_RegExp kernelInfo (serviceManager_specs env) with
      | Thrown reason => Thrown reason
      | Returned matches =>
          match match_kernels kernel' with
          | Thrown reason => Thrown reason
          | Returned kernelCompanions =>
              Returned ({| Companions.kernelInfo := kernelInfo;
                           Companions.kernels := matches |} :: kernelCompanions)
          end
      end
  end.

(** The kernel companions computed for a discovery. *)
Definition kernelCompanions_of (discovery : Companions.discovery_t)
  : completion (list Companions.KernelCompanion) :=
  match Companions.kernel discovery with
  | Some kernel => match_kernels kernel
  | None => Returned []
  end.

(** Check for companion packages in kernels or server.  An exception in the
    [then] callback rejects the promise returned. *)
Definition checkCompanionPackages (entry : IEntry.t) : M (settled bool) :=
  emit (fetchPackageData_call (IEntry.name entry) (IEntry.latest_version entry)) ;;;
  match searcher_fetchPackageData env (IEntry.name entry) (IEntry.latest_version entry) with
  | Rejected reason => ret (Rejected reason)
  | Fulfilled data =>
      match
        match data with
        | Some data =>
            match Companions.jupyterlab data with
            | Some jupyterlab => Companions.discovery jupyterlab
            | None => None
            end
        | None => None
        end
      with
      | None => ret (Fulfilled true)
      | Some discovery =>
          match kernelCompanions_of discovery with
          | Thrown reason => ret (Rejected reason)
          | Returned kernelCompanions =>
              if (Z.of_nat (length kernelCompanions) <? 1)
                 && match Companions.server discovery with
                    | None => true
                    | Some _ => false
                    end
              then ret (Fulfilled true)
              else
                emit (presentCompanions_call kernelCompanions
                        (Companions.server discovery)) ;;;
                ret (presentCompanions env kernelCompanions
                       (Companions.server discovery))
          end
      end
  end.

(** The callback both branches of [install] chain on the action. *)
Definition install_then (entry : IEntry.t) (data : IActionReply.t) : M unit :=
  (match IActionReply.status data with
   | Some ok => ret tt
   | _ => emit (reportInstallError_call (IEntry.name entry)
                  (IActionReply.message data))
   end) ;;;
  update false.

(** Install an extension. *)
Definition install (entry : IEntry.t) : M (completion unit) :=
  if IEntry.installed entry then
    data <- _performAction "install" entry ;;
    then_ data (install_then entry) ;;;
    ret (Returned tt)
  else
    shouldInstall <- checkCompanionPackages entry ;;
    then_ shouldInstall
      (fun shouldInstall =>
         if shouldInstall : bool then
           data <- _performAction "install" entry ;;
           then_ data (install_then entry)
         else ret tt) ;;;
    ret (Returned tt).

(** Uninstall an extension. *)
Definition uninstall (entry : IEntry.t) : M (completion unit) :=
  if negb (IEntry.installed entry) then
    ret (Thrown (Error ("Not installed, cannot uninstall: " ++ IEntry.name entry)%string))
  else
    data <- _performAction "uninstall" entry ;;
    then_ data (fun _ => update false) ;;;
    ret (Returned tt).

(** Enable an extension. *)
Definition enable (entry : IEntry.t) : M (completion unit) :=
  if IEntry.enabled entry then
    ret (Thrown (Error ("Already enabled: " ++ IEntry.name entry)%string))
  else
    data <- _performAction "enable" entry ;;
    then_ data (fun _ => update false) ;;;
    ret (Returned tt).

(** Disable an extension. *)
Definition disable (entry : IEntry.t) : M (completion unit) :=
  if negb (IEntry.enabled entry) then
    ret (Thrown (Error ("Already disabled: " ++ IEntry.name entry)%string))
  else
    data <- _performAction "disable" entry ;;
    then_ data (fun _ => update false) ;;;
    ret (Returned tt).

(** The action methods by command. *)
Definition perform (a : Action) (entry : IEntry.t) : M (completion unit) :=
  match a with
  | install_cmd => install entry
  | uninstall_cmd => uninstall entry
  | enable_cmd => enable entry
  | disable_cmd => disable entry
  end.
End ListModel.

(** ListModel statics. *)
Module ListModelStatics.
Section Statics.
(** [semver.lt]; [None] when one of the versions is invalid and the
    library throws. *)
Variable semver_lt : string -> string -> option bool.

(** Utility function to check whether an entry can be updated. *)
Definition entryHasUpdate (entry : IEntry.t) : completion bool :=
  if negb (IEntry.installed entry) || negb (truthy (IEntry.latest_version entry))
  then Returned false
  else
    match semver_lt (IEntry.installed_version entry) (IEntry.latest_version entry) with
    | Some b => Returned b
    | None => Thrown "TypeError: Invalid Version"
    end.
End Statics.
End ListModelStatics.


(** ** Vocabulary of the properties *)

(** The events a computation adds to the log when run from [w]. *)
Definition emitted_by {A : Type} (c : M A) (w : World) : list event :=
  skipn (length (log w)) (log (snd (c w))).


(** Membership of the trusted namespace, read off an entry. *)
Definition trusted (isJupyterOrg : string -> bool) (e : IEntry.t) : bool :=
  isJupyterOrg (IEntry.name e).

(** The class of an array element under the comparator, when the
    comparator returns: that of its name, and for an element without a name
    what [isJupyterOrg(undefined)] returns. *)
Definition trusted_value (isJupyterOrg : string -> bool) (env : Env) (v : value)
  : bool :=
  match Private.property_name v with
  | Returned (Some name) => isJupyterOrg name
  | Returned None =>
      match isJupyterOrg_undefined env with
      | Returned b => b
      | Thrown _ => false
      end
  | Thrown _ => false
  end.

(** The own properties of a dictionary are keyed by the entries' names,
    each once, and none is keyed by ["__proto__"]. *)
Definition keyed_by_name (o : dictionary) : Prop :=
  NoDup (map fst (own o))
  /\ (forall k e, In (k, e) (own o) -> IEntry.name e = k)
  /\ ~ In "__proto__"%string (map fst (own o)).

(** An array element that has a [name]. *)
Definition named (v : value) : Prop :=
  exists name, Private.property_name v = Returned (Some name).

(** The entries among the elements of a view. *)
Definition entries_of (view : list value) : list IEntry.t :=
  flat_map (fun v => match v with js_entry e => [e] | _ => [] end) view.


(** The packages of a reply that survive the deprecation filter. *)
Definition maintained (res : ISearchResult.t) : list ISearchResult.package_t :=
  filter (fun pkg =>
            negb (0 <=? indexOf String.eqb "deprecated" (ISearchResult.keywords pkg)))
         (map ISearchResult.package (ISearchResult.objects res)).

(** How the installed request settles: the reply's records, or the reason
    of the failure. *)
Definition installed_request (env : Env) (refreshInstalled : bool)
  : settled (list IInstalledEntry.t) :=
  match makeRequest_extensions env refreshInstalled with
  | Rejected reason => Rejected reason
  | Fulfilled response =>
      match Private.handleError response with
      | Thrown reason => Rejected reason
      | Returned response => Response.json response
      end
  end.

(** The dictionaries a pass started in [w] obtains from its channels. *)
Definition pass_searchMap (env : Env) (w : World) : dictionary :=
  fst (performSearch env w).
Definition pass_installedMap (env : Env) (refreshInstalled : bool) (w : World)
  : dictionary :=
  fst (queryInstalled env refreshInstalled (snd (performSearch env w))).

(** The search view such a pass computes: the sorted array, or the
    exception that keeps it from being published. *)
Definition pass_searchResult (isJupyterOrg : string -> bool) (env : Env)
    (refreshInstalled : bool) (w : World) : completion (list value) :=
  sort_completion
    (Private.comparator_value isJupyterOrg (isJupyterOrg_undefined env))
    (merge (pass_searchMap env w) (pass_installedMap env refreshInstalled w)).

(** The invariant the data model asks of an entry. *)
Definition entry_invariant (e : IEntry.t) : Prop :=
  IEntry.installed e = false ->
  IEntry.installed_version e = "" /\ IEntry.enabled e = false.

(** The same, read on a record of the server's reply. *)
Definition wire_invariant (pkg : IInstalledEntry.t) : Prop :=
  IInstalledEntry.installed pkg = Some false ->
  IInstalledEntry.installed_version pkg = "" /\ IInstalledEntry.enabled pkg = false.

(** The log shows the action request followed by a reconciliation pass:
    every pass, and nothing else, queries the installed extensions. *)
Definition reconciled_after (cmd name : string) (events : list event) : Prop :=
  exists before after refresh,
    events = before ++ makeRequest_POST cmd name :: after
    /\ In (makeRequest_GET refresh) after.

Definition is_presentCompanions_call (e : event) : bool :=
  match e with
  | presentCompanions_call _ _ => true
  | _ => false
  end.

Definition is_makeRequest_GET (e : event) : bool :=
  match e with
  | makeRequest_GET _ => true
  | _ => false
  end.

Definition is_makeRequest_POST (e : event) : bool :=
  match e with
  | makeRequest_POST _ _ => true
  | _ => false
  end.

(** How the promise returned by [_performAction] settles: rejected when the
    request fails, when the response is not 2xx, or when its body does not
    parse; fulfilled with the server's reply otherwise. *)
Definition action_reply (env : Env) (cmd name : string) : settled IActionReply.t :=
  match makeRequest_action env cmd name with
  | Rejected reason => Rejected reason
  | Fulfilled response =>
      match Private.handleError response with
      | Thrown reason => Rejected reason
      | Returned response => Response.json response
      end
  end.



(** An action followed by the callback chained on it with [then]. *)
Definition chained (env : Env) (cmd : string) (entry : IEntry.t)
    (callback : IActionReply.t -> M unit) : M unit :=
  data <- _performAction env cmd entry ;;
  then_ data callback.

(** A callback that, whatever it reports first, ends in a reconciliation
    pass. *)
Definition ends_in_update (isJupyterOrg : string -> bool) (env : Env)
    (callback : IActionReply.t -> M unit) : Prop :=
  forall data w,
  exists w' reported,
    log w' = log w ++ reported
    /\ existsb is_makeRequest_GET reported = false
    /\ callback data w = update isJupyterOrg env false w'.

(** ** Histories of the pending-action tracker *)

(** What happens to the tracker: a task is added, or an added task settles
    and the reaction registered for it runs. *)
Inductive tracker_op : Type :=
| add_op (pending : Promise)
| settle_op (pending : Promise) (outcome : settled unit).

Definition tracker_step (op : tracker_op) : M unit :=
  match op with
  | add_op pending => _addPendingAction pending
  | settle_op pending outcome => _addPendingAction_settled pending outcome
  end.

Fixpoint tracker_run (ops : list tracker_op) : M unit :=
  match ops with
  | [] => ret tt
  | op :: ops' => tracker_step op ;;; tracker_run ops'
  end.

Definition count_adds (p : Promise) (ops : list tracker_op) : nat :=
  length (filter (fun op => match op with
                            | add_op q => Nat.eqb q p
                            | settle_op _ _ => false
                            end) ops).

Definition count_settles (p : Promise) (ops : list tracker_op) : nat :=
  length (filter (fun op => match op with
                            | add_op _ => false
                            | settle_op q _ => Nat.eqb q p
                            end) ops).

(** How many times [p] has been added and not yet settled. *)
Definition outstanding (p : Promise) (ops : list tracker_op) : nat :=
  count_adds p ops - count_settles p ops.

(** A promise settles once: each reaction answers an addition that no
    earlier reaction has answered. *)
Fixpoint well_formed_from (past ops : list tracker_op) : bool :=
  match ops with
  | [] => true
  | op :: ops' =>
      match op with
      | add_op _ => true
      | settle_op p _ => (count_settles p past <? count_adds p past)%nat
      end
      && well_formed_from (past ++ [op]) ops'
  end.

Definition well_formed (ops : list tracker_op) : bool := well_formed_from [] ops.

(** ** Sample collaborators, used by the examples *)

Module Sample.
(** The organisations [@jupyterlab] and [@jupyter-widgets]. *)
Definition isJupyterOrg (name : string) : bool :=
  String.prefix "@jupyterlab/" name || String.prefix "@jupyter-widgets/" name.

(** Whether [pattern] occurs in [subject]. *)
Definition occurs (pattern subject : string) : bool :=
  match String.index 0 pattern subject with
  | Some _ => true
  | None => false
  end.

(** The regular expressions of the examples, which are made of letters,
    digits, spaces and the quantifier [+]: plain text matches where it
    occurs, and a quantifier that follows a quantifier, as in [/c++/], is a
    syntax error. *)
Definition new_RegExp (pattern : string) : completion (string -> bool) :=
  if occurs "++" pattern then
    Thrown ("SyntaxError: Invalid regular expression: /" ++ pattern
            ++ "/: Nothing to repeat")%string
  else Returned (occurs pattern).

(** Versions of the form MAJOR.MINOR.PATCH. *)
Fixpoint digits (s : string) (acc : N) : option N :=
  match s with
  | EmptyString => Some acc
  | String c s' =>
      let d := (Ascii.N_of_ascii c - 48)%N in
      if ((48 <=? Ascii.N_of_ascii c) && (Ascii.N_of_ascii c <=? 57))%N
      then digits s' (10 * acc + d)%N
      else None
  end.

Fixpoint fields (s : string) (current : string) : list string :=
  match s with
  | EmptyString => [current]
  | String c s' =>
      if Ascii.eqb c "."%char then current :: fields s' EmptyString
      else fields s' (current ++ String c EmptyString)%string
  end.

Definition parse (version : string) : option (N * N * N) :=
  match fields version EmptyString with
  | [a; b; c] =>
      if truthy a && truthy b && truthy c then
        match digits a 0%N, digits b 0%N, digits c 0%N with
        | Some x, Some y, Some z => Some (x, y, z)
        | _, _, _ => None
        end
      else None
  | _ => None
  end.

Definition semver_lt (a b : string) : option bool :=
  match parse a, parse b with
  | Some (x1, y1, z1), Some (x2, y2, z2) =>
      Some ((x1 <? x2) || (x1 =? x2) && ((y1 <? y2) || (y1 =? y2) && (z1 <? z2)))%N
  | _, _ => None
  end.

Definition wire (name : string) (installed : option bool) (enabled : bool)
    (installed_version : string) : IInstalledEntry.t :=
  {| IInstalledEntry.name := name;
     IInstalledEntry.description := "";
     IInstalledEntry.url := "";
     IInstalledEntry.installed := installed;
     IInstalledEntry.enabled := enabled;
     IInstalledEntry.latest_version := "2.0.0";
     IInstalledEntry.installed_version := installed_version;
     IInstalledEntry.status := Some ok |}.

Definition found (name : string) (keywords : list string) : ISearchResult.object_t :=
  {| ISearchResult.package :=
       {| ISearchResult.name := name;
          ISearchResult.description := "";
          ISearchResult.version := "2.0.0";
          ISearchResult.keywords := keywords;
          ISearchResult.links :=
            {| ISearchResult.homepage := None;
               ISearchResult.repository := None;
               ISearchResult.npm := "https://www.npmjs.com" |} |} |}.

Definition python3 : ISpecModel.t :=
  {| ISpecModel.name := "python3";
     ISpecModel.language := "python";
     ISpecModel.display_name := "Python 3" |}.

Definition widgets : Companions.IPackageData :=
  {| Companions.jupyterlab :=
       Some {| Companions.discovery :=
         Some {| Companions.server := None;
                 Companions.kernel :=
                   Some [ {| Companions.info :=
                               {| Companions.instructions := "ipywidgets" |};
                             Companions.kernel_spec :=
                               {| Companions.language := Some "python";
                                  Companions.display_name := None |} |} ] |} |} |}.

Definition http_ok {T : Type} (body : T) : settled (Response.t T) :=
  Fulfilled (Response.mk true 200 "OK" (Fulfilled body)).

Definition http_500 {T : Type} : settled (Response.t T) :=
  Fulfilled (Response.mk false 500 "Internal Server Error"
               (Rejected "SyntaxError: Unexpected token")).

(** Collaborators whose every request succeeds: the registry answers with
    [objects], the server with the records [installed], the metadata of
    every package is [data], and the user declines the companions. *)
Definition answering (objects : list ISearchResult.object_t)
    (installed : list IInstalledEntry.t) (data : Companions.IPackageData) : Env :=
  {| searcher_searchExtensions := fun _ _ _ =>
       Fulfilled
         {| ISearchResult.objects := objects;
            ISearchResult.total := Z.of_nat (length objects) |};
     searcher_fetchPackageData := fun _ _ => Fulfilled (Some data);
     presentCompanions := fun _ _ => Fulfilled false;
     makeRequest_extensions := fun _ => http_ok installed;
     makeRequest_action := fun _ _ =>
       http_ok {| IActionReply.status := Some error;
                  IActionReply.message := Some "build failed" |};
     serviceManager_specs := Some [("python3", python3)];
     builder_isAvailable := true;
     builder_getStatus := Fulfilled "needed";
     doBuild := Fulfilled tt;
     isJupyterOrg_undefined := Thrown "TypeError" |}.

(** A registry with four packages, one of them deprecated, and a server
    with two installed extensions. *)
Definition env : Env :=
  answering
    [found "b" []; found "@jupyterlab/x" []; found "a" [];
     found "old" ["deprecated"]]
    [wire "a" None true "1.0.0"; wire "@jupyterlab/y" (Some false) true "1.0.0"]
    widgets.

(** The same, with a server that answers every request with HTTP 500. *)
Definition env_server_down : Env :=
  {| searcher_searchExtensions := searcher_searchExtensions env;
     searcher_fetchPackageData := fun _ _ => Fulfilled None;
     presentCompanions := presentCompanions env;
     makeRequest_extensions := fun _ => http_500;
     makeRequest_action := fun _ _ => http_500;
     serviceManager_specs := serviceManager_specs env;
     builder_isAvailable := true;
     builder_getStatus := builder_getStatus env;
     doBuild := doBuild env;
     isJupyterOrg_undefined := isJupyterOrg_undefined env |}.

(** The same, with a registry that cannot be reached. *)
Definition env_registry_down : Env :=
  {| searcher_searchExtensions := fun _ _ _ => Rejected "TypeError: Failed to fetch";
     searcher_fetchPackageData := fun _ _ => Rejected "TypeError: Failed to fetch";
     presentCompanions := presentCompanions env;
     makeRequest_extensions := makeRequest_extensions env;
     makeRequest_action := makeRequest_action env;
     serviceManager_specs := serviceManager_specs env;
     builder_isAvailable := true;
     builder_getStatus := builder_getStatus env;
     doBuild := doBuild env;
     isJupyterOrg_undefined := isJupyterOrg_undefined env |}.

(** A registry that lists a package named like a member of
    [Object.prototype], which is not installed. *)
Definition env_constructor : Env :=
  answering [found "constructor" []; found "a" []]
    [wire "a" None true "1.0.0"] widgets.





(** A server that reports an extension named ["__proto__"], without
    status, and a registry that lists packages named ["status"] and ["b"]. *)
Definition env_proto : Env :=
  answering [found "status" []; found "b" []]
    [{| IInstalledEntry.name := "__proto__";
        IInstalledEntry.description := "";
        IInstalledEntry.url := "";
        IInstalledEntry.installed := None;
        IInstalledEntry.enabled := true;
        IInstalledEntry.latest_version := "2.0.0";
        IInstalledEntry.installed_version := "1.0.0";
        IInstalledEntry.status := None |}]
    widgets.

(** An installed, enabled extension as the model lists it. *)
Definition a : IEntry.t := installed_entry (wire "a" None true "1.0.0").

(** An extension known from the registry only. *)
Definition b : IEntry.t := search_entry (ISearchResult.package (found "b" [])).

(** A model whose query is set. *)
Definition searching : World := new_World (set__query (Some "lab") constructor).

(** A freshly constructed model: no query. *)
Definition idle : World := new_World constructor.
End Sample.

(** ** Build prompt, initialisation and refresh *)

Definition set_initialized (v : bool) (m : ListModel) : ListModel :=
  mkListModel (_installed m) (_searchResult m) (_query m) (_page m) (_pagination m)
    (_totalEntries m) (installedError m) (searchError m)
    (serverConnectionError m) v (promptBuild m) (_pendingActions m).

Section Lifecycle.
Variable isJupyterOrg : string -> bool.
Variable env : Env.

(** Initialize the model.  The callbacks of [then] and of [catch] do the
    same, so it does not matter how the promise of [update] settles. *)
Definition initialize : M unit :=
  update isJupyterOrg env false ;;;
  modify (set_initialized true) ;;;
  emit stateChanged_emit.

(** Perform a build on the server; the value is the tracked promise. *)
Definition performBuild : M Promise :=
  prompt <- read promptBuild ;;
  (if prompt then
     modify (set_promptBuild false) ;;; emit stateChanged_emit
   else ret tt) ;;;
  emit doBuild_call ;;;
  completed <- new_Promise ;;
  _addPendingAction completed ;;;
  ret completed.

(** The reaction of [performBuild] once the build has settled. *)
Definition performBuild_settled (completed : Promise) : M unit :=
  _addPendingAction_settled completed (doBuild env).

(** Ignore a build recommendation. *)
Definition ignoreBuildRecommendation : M unit :=
  prompt <- read promptBuild ;;
  if prompt then
    modify (set_promptBuild false) ;;; emit stateChanged_emit
  else ret tt.

(** The part of [update] that runs before anything is answered: a null
    query assigns the empty search state at once, any other query is sent to
    the registry, and the installed extensions are requested.  The value is
    the search in flight, if any. *)
Definition update_started (refreshInstalled : bool)
  : M (option (settled ISearchResult.t)) :=
  query <- read _query ;;
  search <-
    match query with
    | None =>
        modify (set__searchResult []) ;;;
        modify (set__totalEntries 0) ;;;
        modify (set_searchError None) ;;;
        ret None
    | Some query =>
        page <- read _page ;;
        pagination <- read _pagination ;;
        emit (searchExtensions_call query page pagination) ;;;
        ret (Some (searcher_searchExtensions env query page pagination))
    end ;;
  emit (makeRequest_GET refreshInstalled) ;;;
  ret search.

(** The rest of [update], run once both requests are answered: the
    continuations of [performSearch], [fetchInstalled] and [queryInstalled],
    then the publication of the views.  The value is how the promise of
    [update] settles. *)
Definition update_settled (refreshInstalled : bool)
    (search : option (settled ISearchResult.t)) : M (settled unit) :=
  searchMap <-
    match search with
    | None => ret empty_object
    | Some search =>
        searchMap <-
          match translateSearchResult search with
          | Fulfilled searchMap => modify (set_searchError None) ;;; ret searchMap
          | Rejected reason =>
              modify (set_searchError (Some reason)) ;;; ret empty_object
          end ;;
        match search with
        | Fulfilled res => modify (set__totalEntries (ISearchResult.total res))
        | Rejected _ => modify (set__totalEntries 0)
        end ;;;
        ret searchMap
    end ;;
  let request :=
    match makeRequest_extensions env refreshInstalled with
    | Rejected reason => Rejected reason
    | Fulfilled response =>
        match Private.handleError response with
        | Thrown reason => Rejected reason
        | Returned response => Response.json response
        end
    end in
  match request with
  | Fulfilled _ => modify (set_serverConnectionError None)
  | Rejected reason => modify (set_serverConnectionError (Some reason))
  end ;;;
  installedMap <-
    match translateInstalled request with
    | Fulfilled installedMap =>
        modify (set_installedError None) ;;; ret installedMap
    | Rejected reason =>
        modify (set_installedError (Some reason)) ;;; ret empty_object
    end ;;
  modify (set__installed
            (sort (Private.comparator isJupyterOrg) (values installedMap))) ;;;
  match sort_completion
          (Private.comparator_value isJupyterOrg (isJupyterOrg_undefined env))
          (merge searchMap installedMap)
  with
  | Returned searchResult =>
      modify (set__searchResult searchResult) ;;;
      emit stateChanged_emit ;;;
      ret (Fulfilled tt)
  | Thrown reason => ret (Rejected reason)
  end.

(** Refresh the installed extensions: a pass that bypasses the server's
    cache, tracked as a pending action from its start to its end.  The value
    is the tracked promise. *)
Definition refreshInstalled_started : M (Promise * option (settled ISearchResult.t)) :=
  search <- update_started true ;;
  refresh <- new_Promise ;;
  _addPendingAction refresh ;;;
  ret (refresh, search).

Definition refreshInstalled : M unit :=
  started <- refreshInstalled_started ;;
  outcome <- update_settled true (snd started) ;;
  _addPendingAction_settled (fst started) outcome.
End Lifecycle.

(** ** Further vocabulary *)

Definition is_reportInstallError_call (e : event) : bool :=
  match e with
  | reportInstallError_call _ _ => true
  | _ => false
  end.

Definition is_fetchPackageData_call (e : event) : bool :=
  match e with
  | fetchPackageData_call _ _ => true
  | _ => false
  end.

Definition is_getStatus_call (e : event) : bool :=
  match e with
  | getStatus_call => true
  | _ => false
  end.

(** A package of the registry marked as deprecated. *)
Definition is_deprecated (pkg : ISearchResult.package_t) : bool :=
  0 <=? indexOf String.eqb "deprecated" (ISearchResult.keywords pkg).

(** The promises handed out so far are the only ones that can be pending. *)
Definition handles_allocated (w : World) : Prop :=
  Forall (fun p => (p < allocated w)%nat) (_pendingActions (this w)).


(** The action request was answered with a 2xx response. *)
Definition response_ok (env : Env) (cmd name : string) : bool :=
  match makeRequest_action env cmd name with
  | Fulfilled response => Response.ok response
  | Rejected _ => false
  end.

(** The effects expected of an action request made while the build prompt
    is [prompt]: the request, the signal of the tracker, a build check on a
    2xx response when the builder is available and no prompt is up, and the
    signal that ends the tracking. *)
Definition action_events (env : Env) (cmd name : string) (prompt : bool)
  : list event :=
  makeRequest_POST cmd name :: stateChanged_emit
  :: (if response_ok env cmd name && (builder_isAvailable env && negb prompt)
      then [getStatus_call; stateChanged_emit]
      else [])
  ++ [stateChanged_emit].

(** The dictionaries a pass over the model [m] obtains, read off the
    collaborators' answers. *)
Definition searchMap_of (env : Env) (m : ListModel) : dictionary :=
  match _query m with
  | Some query =>
      match translateSearchResult
              (searcher_searchExtensions env query (_page m) (_pagination m)) with
      | Fulfilled searchMap => searchMap
      | Rejected _ => empty_object
      end
  | None => empty_object
  end.

Definition installedMap_of (env : Env) (refreshInstalled : bool) : dictionary :=
  match translateInstalled (installed_request env refreshInstalled) with
  | Fulfilled installedMap => installedMap
  | Rejected _ => empty_object
  end.

(** The search view such a pass computes. *)
Definition searchResult_of (isJupyterOrg : string -> bool) (env : Env)
    (refreshInstalled : bool) (m : ListModel) : completion (list value) :=
  sort_completion
    (Private.comparator_value isJupyterOrg (isJupyterOrg_undefined env))
    (merge (searchMap_of env m) (installedMap_of env refreshInstalled)).

(** Whether the pass gets to publish its search view: the sort returns. *)
Definition publishes (isJupyterOrg : string -> bool) (env : Env)
    (refreshInstalled : bool) (m : ListModel) : bool :=
  match searchResult_of isJupyterOrg env refreshInstalled m with
  | Returned _ => true
  | Thrown _ => false
  end.

(** The effects expected of a pass over the model [m]: the search when the
    query is not null, the installed query, and the change signal when the
    views are published. *)
Definition pass_events (isJupyterOrg : string -> bool) (env : Env)
    (refreshInstalled : bool) (m : ListModel) : list event :=
  match _query m with
  | Some query => [searchExtensions_call query (_page m) (_pagination m)]
  | None => []
  end
  ++ [makeRequest_GET refreshInstalled]
  ++ (if publishes isJupyterOrg env refreshInstalled m then [stateChanged_emit]
      else []).

(** The report expected of [install] for the reply [data]. *)
Definition report_events (entry : IEntry.t) (data : IActionReply.t) : list event :=
  match IActionReply.status data with
  | Some ok => []
  | _ => [reportInstallError_call (IEntry.name entry) (IActionReply.message data)]
  end.

(** The calls of the companion gate. *)
Definition is_gate_call (e : event) : bool :=
  is_fetchPackageData_call e || is_presentCompanions_call e.

(** The effects expected after the request of action [a] on [entry] has
    been answered: for [install] the report of a reply that is not ok, and
    for every action the pass. *)
Definition reply_events (isJupyterOrg : string -> bool) (env : Env)
    (a : Action) (entry : IEntry.t) (m : ListModel)
    (reply : settled IActionReply.t) : list event :=
  match reply with
  | Fulfilled data =>
      match a with
      | install_cmd => report_events entry data
      | _ => []
      end
      ++ pass_events isJupyterOrg env false m
  | Rejected _ => []
  end.

(** A build check run to its end: the status is requested when the check is
    due, and the reaction runs on the answer. *)
Definition buildCheck (env : Env) : M unit :=
  completed <- triggerBuildCheck env ;;
  match completed with
  | Some completed => triggerBuildCheck_settled env completed
  | None => ret tt
  end.

(** The status the builder answers, if it answers. *)
Definition build_status (env : Env) (status : string) : bool :=
  match builder_getStatus env with
  | Fulfilled s => String.eqb s status
  | Rejected _ => false
  end.

(** The model a pass over [m] is expected to leave. *)
Definition published (isJupyterOrg : string -> bool) (env : Env)
    (refreshInstalled : bool) (m : ListModel) : ListModel :=
  let search :=
    match _query m with
    | Some query =>
        Some (searcher_searchExtensions env query (_page m) (_pagination m))
    | None => None
    end in
  let request := installed_request env refreshInstalled in
  let failure (request : settled (list IInstalledEntry.t)) :=
    match request with
    | Fulfilled _ => None
    | Rejected reason => Some reason
    end in
  {| _installed :=
       sort (Private.comparator isJupyterOrg)
         (values (installedMap_of env refreshInstalled));
     _searchResult :=
       match searchResult_of isJupyterOrg env refreshInstalled m with
       | Returned searchResult => searchResult
       | Thrown _ =>
           match _query m with
           | Some _ => _searchResult m
           | None => []
           end
       end;
     _query := _query m;
     _page := _page m;
     _pagination := _pagination m;
     _totalEntries :=
       match search with
       | Some (Fulfilled res) => ISearchResult.total res
       | _ => 0
       end;
     installedError := failure request;
     searchError :=
       match search with
       | Some (Rejected reason) => Some reason
       | _ => None
       end;
     serverConnectionError := failure request;
     initialized := initialized m;
     promptBuild := promptBuild m;
     _pendingActions := _pendingActions m |}.
(** * Properties *)

Unset Implicit Arguments.

(** ** Lists: order and stable partition *)

Lemma skipn_length_app {A : Type} (l l' : list A) :
  skipn (length l) (l ++ l') = l'.
Proof.
  induction l as [|x l IH]; simpl; auto.
Qed.








Lemma partition_Permutation {X : Type} (f : X -> bool) (l : list X) :
  Permutation (filter f l ++ filter (fun x => negb (f x)) l) l.
Proof.
  induction l as [|x l IH]; simpl; [constructor|].
  destruct (f x); simpl.
  - constructor. exact IH.
  - apply Permutation_sym. apply Permutation_cons_app.
    apply Permutation_sym. exact IH.
Qed.



Section StablePartition.
Variable isJupyterOrg : string -> bool.

Local Abbreviation cmp := (Private.comparator isJupyterOrg).
Local Abbreviation T := (trusted isJupyterOrg).

Lemma comparator_class (a b : IEntry.t) :
  cmp a b =
    if Bool.eqb (T a) (T b) then 0 else if T a then -1 else 1.
Proof.
  unfold cmp, Private.comparator, T, trusted.
  destruct (String.eqb_spec (IEntry.name a) (IEntry.name b)) as [E|E].
  - rewrite E. rewrite Bool.eqb_reflx. reflexivity.
  - destruct (isJupyterOrg (IEntry.name a)), (isJupyterOrg (IEntry.name b));
      reflexivity.
Qed.

Lemma sort_insert_trusted (x : IEntry.t) (l : list IEntry.t) :
  T x = true -> sort_insert cmp x l = x :: l.
Proof.
  intros Hx. destruct l as [|y l]; simpl; auto.
  rewrite comparator_class, Hx.
  destruct (T y); reflexivity.
Qed.

Lemma sort_insert_untrusted (x : IEntry.t) (l r : list IEntry.t) :
  T x = false ->
  Forall (fun y => T y = true) l ->
  Forall (fun y => T y = false) r ->
  sort_insert cmp x (l ++ r) = l ++ x :: r.
Proof.
  intros Hx Hl Hr. induction Hl as [|y l Hy Hl IH]; simpl.
  - destruct r as [|z r]; simpl; auto.
    inversion Hr as [|? ? Hz _]; subst.
    rewrite comparator_class, Hx, Hz. reflexivity.
  - rewrite comparator_class, Hx, Hy. simpl. rewrite IH. reflexivity.
Qed.

Lemma Forall_filter_true {X : Type} (f : X -> bool) (l : list X) :
  Forall (fun y => f y = true) (filter f l).
Proof.
  apply Forall_forall. intros y Hy. apply filter_In in Hy. tauto.
Qed.

Lemma Forall_filter_false {X : Type} (f : X -> bool) (l : list X) :
  Forall (fun y => f y = false) (filter (fun e => negb (f e)) l).
Proof.
  apply Forall_forall. intros y Hy. apply filter_In in Hy.
  destruct Hy as [_ Hy]. now apply negb_true_iff in Hy.
Qed.

(** Sorting with the comparator is the stable partition: the trusted
    entries in their order, then the others in theirs. *)
Lemma sort_comparator (l : list IEntry.t) :
  sort cmp l = filter T l ++ filter (fun e => negb (T e)) l.
Proof.
  induction l as [|x l IH]; simpl; auto.
  fold (sort cmp l). rewrite IH.
  destruct (T x) eqn:Hx; simpl.
  - apply sort_insert_trusted; assumption.
  - apply sort_insert_untrusted;
      auto using Forall_filter_true, Forall_filter_false.
Qed.

Lemma sort_comparator_In (e : IEntry.t) (l : list IEntry.t) :
  In e (sort cmp l) <-> In e l.
Proof.
  rewrite sort_comparator, in_app_iff, !filter_In.
  destruct (T e); simpl; intuition congruence.
Qed.

Lemma sort_comparator_Permutation (l : list IEntry.t) :
  Permutation (sort cmp l) l.
Proof.
  rewrite sort_comparator. apply partition_Permutation.
Qed.
End StablePartition.

(** The same for the comparator applied to run-time values: whenever the
    sort returns, it returns the stable partition. *)
Section ValuePartition.
Variable isJupyterOrg : string -> bool.
Variable env : Env.

Local Abbreviation cmpv :=
  (Private.comparator_value isJupyterOrg (isJupyterOrg_undefined env)).
Local Abbreviation TV := (trusted_value isJupyterOrg env).

Lemma class_order (testA testB : bool) :
  (if Bool.eqb testA testB then 0 else if testA && negb testB then -1 else 1)
  = (if Bool.eqb testA testB then 0 else if testA then -1 else 1).
Proof.
  destruct testA, testB; reflexivity.
Qed.

Lemma comparator_value_class (a b : value) (c : Z) :
  cmpv a b = Returned c ->
  c = if Bool.eqb (TV a) (TV b) then 0 else if TV a then -1 else 1.
Proof.
  unfold Private.comparator_value, trusted_value, Private.isJupyterOrg_call,
    Private.name_eqb.
  destruct (Private.property_name a) as [[na|]|ra]; [| |discriminate];
    (destruct (Private.property_name b) as [[nb|]|rb]; [| |discriminate]).
  - destruct (String.eqb_spec na nb) as [E|E].
    + intros H. inversion H. subst. rewrite Bool.eqb_reflx. reflexivity.
    + intros H. inversion H. apply class_order.
  - destruct (isJupyterOrg_undefined env) as [u|r]; [|discriminate].
    intros H. inversion H. apply class_order.
  - destruct (isJupyterOrg_undefined env) as [u|r]; [|discriminate].
    intros H. inversion H. apply class_order.
  - intros H. inversion H.
    destruct (isJupyterOrg_undefined env) as [u|r];
      rewrite Bool.eqb_reflx; reflexivity.
Qed.

Lemma comparator_value_named (a b : value) :
  named a -> named b ->
  cmpv a b = Returned (if Bool.eqb (TV a) (TV b) then 0 else if TV a then -1 else 1).
Proof.
  intros [na Ha] [nb Hb].
  unfold Private.comparator_value, trusted_value, Private.isJupyterOrg_call,
    Private.name_eqb.
  rewrite Ha, Hb.
  destruct (String.eqb_spec na nb) as [E|E].
  - subst. rewrite Bool.eqb_reflx. reflexivity.
  - rewrite class_order. reflexivity.
Qed.

Lemma sort_insert_completion_partition (x : value) (l r sorted : list value) :
  Forall (fun y => TV y = true) l ->
  Forall (fun y => TV y = false) r ->
  sort_insert_completion cmpv x (l ++ r) = Returned sorted ->
  sorted = if TV x then x :: l ++ r else l ++ x :: r.
Proof.
  intros Hl Hr. revert sorted.
  induction Hl as [|y l Hy Hl IH]; simpl; intros sorted.
  - destruct r as [|z r]; simpl.
    + intros H. inversion H. destruct (TV x); reflexivity.
    + inversion Hr as [|? ? Hz _]; subst.
      destruct (cmpv x z) as [c|reason] eqn:Hc; [|discriminate].
      apply comparator_value_class in Hc. rewrite Hz in Hc.
      destruct (TV x); simpl in Hc; subst c; simpl;
        intros H; inversion H; reflexivity.
  - destruct (cmpv x y) as [c|reason] eqn:Hc; [|discriminate].
    apply comparator_value_class in Hc. rewrite Hy in Hc.
    destruct (TV x) eqn:Hx; simpl in Hc; subst c; simpl.
    + intros H. inversion H. reflexivity.
    + destruct (sort_insert_completion cmpv x (l ++ r)) as [rest|reason];
        [|discriminate].
      intros H. inversion H. rewrite (IH rest eq_refl). reflexivity.
Qed.

Lemma sort_completion_partition (l sorted : list value) :
  sort_completion cmpv l = Returned sorted ->
  sorted = filter TV l ++ filter (fun v => negb (TV v)) l.
Proof.
  revert sorted. induction l as [|x l IH]; simpl; intros sorted.
  - intros H. inversion H. reflexivity.
  - fold (sort_completion cmpv l).
    destruct (sort_completion cmpv l) as [sorted0|reason]; [|discriminate].
    rewrite (IH sorted0 eq_refl). intros H.
    apply sort_insert_completion_partition in H;
      auto using Forall_filter_true, Forall_filter_false.
    rewrite H. destruct (TV x); reflexivity.
Qed.

Lemma sort_insert_completion_named (x : value) (l r : list value) :
  named x -> Forall named l -> Forall named r ->
  Forall (fun y => TV y = true) l ->
  Forall (fun y => TV y = false) r ->
  sort_insert_completion cmpv x (l ++ r)
  = Returned (if TV x then x :: l ++ r else l ++ x :: r).
Proof.
  intros Nx Nl Nr Hl Hr.
  induction l as [|y l IH]; simpl.
  - destruct r as [|z r]; simpl.
    + destruct (TV x); reflexivity.
    + inversion Hr as [|? ? Hz _]; inversion Nr as [|? ? Nz _]; subst.
      rewrite (comparator_value_named x z Nx Nz), Hz.
      destruct (TV x); reflexivity.
  - inversion Hl as [|? ? Hy Hl']; inversion Nl as [|? ? Ny Nl']; subst.
    rewrite (comparator_value_named x y Nx Ny), Hy.
    destruct (TV x) eqn:Hx; simpl; [reflexivity|].
    rewrite (IH Nl' Hl'). rewrite ?Hx. reflexivity.
Qed.

(** An array whose elements all have a name is sorted without exception. *)
Lemma sort_completion_named (l : list value) :
  Forall named l ->
  sort_completion cmpv l
  = Returned (filter TV l ++ filter (fun v => negb (TV v)) l).
Proof.
  induction l as [|x l IH]; simpl; intros H; [reflexivity|].
  inversion H as [|? ? Nx Nl]; subst.
  fold (sort_completion cmpv l). rewrite (IH Nl).
  rewrite sort_insert_completion_named; auto.
  - destruct (TV x); reflexivity.
  - apply Forall_forall. intros y Hy. apply filter_In in Hy.
    rewrite Forall_forall in Nl. apply Nl. tauto.
  - apply Forall_forall. intros y Hy. apply filter_In in Hy.
    rewrite Forall_forall in Nl. apply Nl. tauto.
  - apply Forall_filter_true.
  - apply (Forall_filter_false TV).
Qed.
End ValuePartition.

(** ** Own properties *)

Section OwnProperties.
Implicit Types (own : properties) (k key : string) (v : IEntry.t).

Lemma assign_fresh key v own :
  ~ In key (map fst own) -> assign key v own = own ++ [(key, v)].
Proof.
  induction own as [|[k w] own IH]; simpl; intros H; auto.
  destruct (String.eqb_spec k key) as [E|E].
  - exfalso. apply H. left. exact E.
  - rewrite IH; auto.
Qed.


Lemma keys_assign_In key v own k :
  In k (map fst (assign key v own)) <-> k = key \/ In k (map fst own).
Proof.
  induction own as [|[k' w] own IH]; simpl.
  - intuition congruence.
  - destruct (String.eqb_spec k' key) as [E|E]; simpl.
    + subst. intuition congruence.
    + rewrite IH. intuition congruence.
Qed.

Lemma assign_NoDup key v own :
  NoDup (map fst own) -> NoDup (map fst (assign key v own)).
Proof.
  induction own as [|[k w] own IH]; simpl; intros H.
  - constructor; [intros [] | constructor].
  - inversion H as [|? ? Hk Ho]; subst.
    destruct (String.eqb_spec k key) as [E|E]; simpl.
    + constructor; assumption.
    + constructor; auto.
      rewrite keys_assign_In. intros [E'|E']; [congruence | contradiction].
Qed.

Lemma In_assign key v own k w :
  In (k, w) (assign key v own) -> (k = key /\ w = v) \/ In (k, w) own.
Proof.
  induction own as [|[k' w'] own IH]; simpl.
  - intros [E|[]]. inversion E. auto.
  - destruct (String.eqb_spec k' key) as [E|E]; simpl.
    + intros [E'|H]; [inversion E'; subst; auto | auto].
    + intros [E'|H]; [auto | apply IH in H; tauto].
Qed.

Lemma own_property_In key v own : own_property key own = Some v -> In (key, v) own.
Proof.
  induction own as [|[k w] own IH]; simpl; [discriminate|].
  destruct (String.eqb_spec k key) as [E|E].
  - intros H. inversion H. subst. auto.
  - auto.
Qed.

Lemma In_own_property key v own :
  NoDup (map fst own) -> In (key, v) own -> own_property key own = Some v.
Proof.
  induction own as [|[k w] own IH]; simpl; [tauto|].
  intros H Hin. inversion H as [|? ? Hk Ho]; subst.
  destruct Hin as [E|Hin].
  - inversion E. subst. rewrite String.eqb_refl. reflexivity.
  - destruct (String.eqb_spec k key) as [E|E]; auto.
    subst. exfalso. apply Hk. change key with (fst (key, v)).
    apply in_map. exact Hin.
Qed.

Lemma own_property_None key own :
  own_property key own = None <-> ~ In key (map fst own).
Proof.
  induction own as [|[k w] own IH]; simpl; [tauto|].
  destruct (String.eqb_spec k key) as [E|E].
  - split; [discriminate | intros H; exfalso; auto].
  - rewrite IH. tauto.
Qed.

Lemma own_property_assign key k v own :
  own_property key (assign k v own)
  = if String.eqb k key then Some v else own_property key own.
Proof.
  induction own as [|[k' w] own IH]; simpl.
  - reflexivity.
  - destruct (String.eqb_spec k' k) as [E|E]; simpl.
    + subst. destruct (String.eqb k key); reflexivity.
    + rewrite IH. destruct (String.eqb_spec k' key) as [E'|E'].
      * subst. destruct (String.eqb_spec k key); [congruence | reflexivity].
      * reflexivity.
Qed.



Lemma insert_index_Permutation (n : N) (p : string * IEntry.t)
    (l : list (N * (string * IEntry.t))) :
  Permutation (insert_index n p l) ((n, p) :: l).
Proof.
  induction l as [|[m q] l IH]; simpl; [reflexivity|].
  destruct (n <? m)%N; [reflexivity|].
  rewrite IH. apply perm_swap.
Qed.

Lemma index_properties_Permutation own :
  Permutation (map snd (index_properties own))
              (filter (fun p => is_array_index (fst p)) own).
Proof.
  induction own as [|p own IH]; simpl; [constructor|].
  unfold is_array_index at 1.
  destruct (array_index (fst p)) as [n|]; simpl; [|exact IH].
  rewrite (Permutation_map snd (insert_index_Permutation n p _)). simpl.
  constructor. exact IH.
Qed.

(** The enumeration lists every own property once. *)
Lemma enumerate_Permutation own : Permutation (enumerate own) own.
Proof.
  unfold enumerate. rewrite index_properties_Permutation.
  apply partition_Permutation.
Qed.

Lemma In_enumerate (p : string * IEntry.t) own :
  In p (enumerate own) <-> In p own.
Proof.
  split; apply Permutation_in;
    [|apply Permutation_sym]; apply enumerate_Permutation.
Qed.

Lemma length_enumerate own : length (enumerate own) = length own.
Proof.
  apply Permutation_length, enumerate_Permutation.
Qed.

Lemma enumerate_NoDup own :
  NoDup (map fst own) -> NoDup (map fst (enumerate own)).
Proof.
  apply Permutation_NoDup, Permutation_map, Permutation_sym,
    enumerate_Permutation.
Qed.


(** Without array indices among the keys the enumeration is the order of
    creation. *)
Lemma enumerate_plain own :
  (forall k, In k (map fst own) -> is_array_index k = false) ->
  enumerate own = own.
Proof.
  intros H. unfold enumerate.
  assert (I : index_properties own = []).
  { induction own as [|p own IH]; simpl; [reflexivity|].
    assert (Hp : is_array_index (fst p) = false) by (apply H; left; reflexivity).
    unfold is_array_index in Hp.
    destruct (array_index (fst p)); [discriminate|].
    apply IH. intros k Hk. apply H. right. exact Hk. }
  rewrite I. simpl.
  induction own as [|p own IH]; simpl; [reflexivity|].
  rewrite (H (fst p)) by (left; reflexivity). simpl. f_equal.
  apply IH.
  - intros k Hk. apply H. right. exact Hk.
  - simpl in I. destruct (array_index (fst p)) eqn:E.
    + exfalso. assert (Hp := H (fst p) (or_introl eq_refl)).
      unfold is_array_index in Hp. rewrite E in Hp. discriminate.
    + exact I.
Qed.
End OwnProperties.

(** ** Dictionaries *)

Lemma keyed_by_name_empty : keyed_by_name empty_object.
Proof.
  split; [constructor | split; [intros k e [] | intros []]].
Qed.

Lemma keyed_by_name_set (e : IEntry.t) (o : dictionary) :
  keyed_by_name o -> keyed_by_name (set (IEntry.name e) e o).
Proof.
  intros (Hnd & Hk & Hp). unfold set.
  destruct (String.eqb_spec (IEntry.name e) "__proto__") as [E|E]; simpl.
  - split; [exact Hnd | split; [exact Hk | exact Hp]].
  - split; [|split].
    + apply assign_NoDup. exact Hnd.
    + intros k e' Hin. apply In_assign in Hin.
      destruct Hin as [[-> ->]|Hin]; auto.
    + simpl. rewrite keys_assign_In.
      intros [E'|E']; [congruence | contradiction].
Qed.

Lemma In_values (e : IEntry.t) (o : dictionary) :
  In e (values o) <-> exists k, In (k, e) (own o).
Proof.
  unfold values. rewrite in_map_iff. split.
  - intros ([k e'] & <- & Hin). exists k. apply In_enumerate. exact Hin.
  - intros (k & Hin). exists (k, e). split; [reflexivity|].
    apply In_enumerate. exact Hin.
Qed.

Lemma In_keys (k : string) (o : dictionary) :
  In k (keys o) <-> In k (map fst (own o)).
Proof.
  unfold keys. split; apply Permutation_in;
    [|apply Permutation_sym]; apply Permutation_map, enumerate_Permutation.
Qed.

Lemma keys_NoDup (o : dictionary) : keyed_by_name o -> NoDup (keys o).
Proof.
  intros (Hnd & _). apply enumerate_NoDup. exact Hnd.
Qed.

Lemma values_names (o : dictionary) :
  keyed_by_name o -> map IEntry.name (values o) = keys o.
Proof.
  intros (_ & H & _). unfold values, keys. rewrite map_map.
  apply map_ext_in. intros [k e] Hin. simpl. apply H.
  apply In_enumerate. exact Hin.
Qed.

Lemma values_Permutation (o : dictionary) :
  Permutation (values o) (map snd (own o)).
Proof.
  unfold values. apply Permutation_map, enumerate_Permutation.
Qed.

(** A dictionary filled by a run of assignments. *)
Section FoldSet.
Variable X : Type.
Variable kf : X -> string.
Variable vf : X -> IEntry.t.

Local Abbreviation filled :=
  (fold_left (fun (entries : dictionary) (x : X) => set (kf x) (vf x) entries)).

Lemma fold_set_keyed (xs : list X) (acc : dictionary) :
  (forall x, IEntry.name (vf x) = kf x) ->
  keyed_by_name acc -> keyed_by_name (filled xs acc).
Proof.
  intros Hname. revert acc. induction xs as [|x xs IH]; simpl; intros acc H; auto.
  apply IH. rewrite <- Hname. apply keyed_by_name_set. exact H.
Qed.

Lemma fold_set_values (xs : list X) (acc : dictionary) (e : IEntry.t) :
  In e (values (filled xs acc)) ->
  In e (values acc) \/ exists x, In x xs /\ e = vf x.
Proof.
  revert acc. induction xs as [|x xs IH]; simpl; intros acc H; auto.
  apply IH in H. destruct H as [H|(y & Hy & ->)].
  - apply In_values in H. destruct H as (k & H). unfold set in H.
    destruct (String.eqb (kf x) "__proto__"); simpl in H.
    + left. apply In_values. exists k. exact H.
    + apply In_assign in H. destruct H as [[_ ->]|H].
      * right. exists x. auto.
      * left. apply In_values. exists k. exact H.
  - right. exists y. auto.
Qed.

Lemma find_snoc (f : X -> bool) (l : list X) (x : X) :
  find f (l ++ [x])
  = match find f l with
    | Some y => Some y
    | None => if f x then Some x else None
    end.
Proof.
  induction l as [|y l IH]; simpl.
  - reflexivity.
  - destruct (f y); [reflexivity | exact IH].
Qed.

(** The own property under a key is that of the last assignment to it;
    no assignment creates a property under ["__proto__"]. *)
Lemma fold_set_own_property (xs : list X) (acc : dictionary) (key : string) :
  own_property key (own (filled xs acc))
  = if String.eqb key "__proto__" then own_property key (own acc)
    else match find (fun x => String.eqb (kf x) key) (rev xs) with
         | Some x => Some (vf x)
         | None => own_property key (own acc)
         end.
Proof.
  revert acc. induction xs as [|x xs IH]; simpl; intros acc.
  - destruct (String.eqb key "__proto__"); reflexivity.
  - rewrite IH, find_snoc. unfold set.
    destruct (String.eqb_spec key "__proto__") as [E|E].
    + subst key.
      destruct (String.eqb_spec (kf x) "__proto__") as [P|P]; simpl;
        [reflexivity|].
      rewrite own_property_assign.
      destruct (String.eqb_spec (kf x) "__proto__"); [contradiction|].
      reflexivity.
    + destruct (find _ (rev xs)); [reflexivity|].
      destruct (String.eqb_spec (kf x) "__proto__") as [P|P]; simpl.
      * destruct (String.eqb_spec (kf x) key) as [E'|E']; [congruence|].
        reflexivity.
      * rewrite own_property_assign.
        destruct (String.eqb (kf x) key); reflexivity.
Qed.

(** The prototype is the value of the last assignment to ["__proto__"]. *)
Lemma fold_set_prototype (xs : list X) (acc : dictionary) :
  prototype (filled xs acc)
  = match find (fun x => String.eqb (kf x) "__proto__") (rev xs) with
    | Some x => Some (vf x)
    | None => prototype acc
    end.
Proof.
  revert acc. induction xs as [|x xs IH]; simpl; intros acc; [reflexivity|].
  rewrite IH, find_snoc. unfold set.
  destruct (find _ (rev xs)); [reflexivity|].
  destruct (String.eqb (kf x) "__proto__"); reflexivity.
Qed.


Lemma fold_set_length (xs : list X) (acc : dictionary) :
  (length (own (filled xs acc)) <= length (own acc) + length xs)%nat.
Proof.
  revert acc. induction xs as [|x xs IH]; simpl; intros acc; [lia|].
  specialize (IH (set (kf x) (vf x) acc)).
  assert (H : (length (own (set (kf x) (vf x) acc)) <= S (length (own acc)))%nat).
  { clear IH. unfold set. destruct (String.eqb (kf x) "__proto__"); simpl; [lia|].
    induction (own acc) as [|[k w] o IHa]; simpl; [lia|].
    destruct (String.eqb k (kf x)); simpl; lia. }
  lia.
Qed.

(** When the names are pairwise distinct and none is ["__proto__"], each
    assignment creates a property. *)
Lemma fold_set_distinct (xs : list X) (acc : dictionary) :
  NoDup (map fst (own acc) ++ map kf xs) ->
  ~ In "__proto__" (map kf xs) ->
  own (filled xs acc) = own acc ++ map (fun x => (kf x, vf x)) xs.
Proof.
  revert acc. induction xs as [|x xs IH]; simpl; intros acc H P.
  - rewrite app_nil_r. reflexivity.
  - assert (Hx : ~ In (kf x) (map fst (own acc))).
    { apply NoDup_remove_2 in H. intros Hin. apply H.
      apply in_or_app. left. exact Hin. }
    assert (Px : String.eqb (kf x) "__proto__" = false).
    { apply String.eqb_neq. intros E. apply P. left. exact E. }
    rewrite IH.
    + unfold set. rewrite Px. simpl. rewrite assign_fresh by exact Hx.
      rewrite <- app_assoc. reflexivity.
    + unfold set. rewrite Px. simpl. rewrite assign_fresh by exact Hx.
      rewrite map_app. simpl. rewrite <- app_assoc. simpl. exact H.
    + intros Hin. apply P. right. exact Hin.
Qed.
End FoldSet.

(** ** The translation channels *)

(** The search translation is the run of assignments over the packages
    that are not deprecated. *)
Lemma translateSearchResult_maintained (res : ISearchResult.t) :
  translateSearchResult (Fulfilled res)
  = Fulfilled
      (fold_left
         (fun entries pkg => set (ISearchResult.name pkg) (search_entry pkg) entries)
         (maintained res) empty_object).
Proof.
  unfold translateSearchResult, maintained. f_equal.
  generalize empty_object.
  induction (ISearchResult.objects res) as [|obj objs IH]; simpl; intros acc; auto.
  destruct (0 <=? indexOf String.eqb "deprecated" _); simpl; apply IH.
Qed.

Lemma maintained_In (res : ISearchResult.t) (pkg : ISearchResult.package_t) :
  In pkg (maintained res) <->
  (exists obj, In obj (ISearchResult.objects res) /\ ISearchResult.package obj = pkg)
  /\ (0 <=? indexOf String.eqb "deprecated" (ISearchResult.keywords pkg)) = false.
Proof.
  unfold maintained. rewrite filter_In, in_map_iff, negb_true_iff.
  split.
  - intros [(obj & E & Hin) H]. split; [exists obj; auto | exact H].
  - intros [(obj & Hin & E) H]. split; [exists obj; auto | exact H].
Qed.

Lemma translateSearchResult_keyed res searchMap :
  translateSearchResult res = Fulfilled searchMap -> keyed_by_name searchMap.
Proof.
  destruct res as [res|reason]; [|discriminate].
  rewrite translateSearchResult_maintained.
  intros H. inversion H as [E]. clear H E.
  apply (fold_set_keyed _ ISearchResult.name search_entry).
  - reflexivity.
  - apply keyed_by_name_empty.
Qed.

Lemma translateInstalled_keyed res installedMap :
  translateInstalled res = Fulfilled installedMap -> keyed_by_name installedMap.
Proof.
  destruct res as [pkgs|reason]; simpl; [|discriminate].
  intros H. inversion H as [E]. clear H E.
  apply (fold_set_keyed _ IInstalledEntry.name installed_entry).
  - reflexivity.
  - apply keyed_by_name_empty.
Qed.

(** The values of a translated dictionary come from the reply. *)
Lemma translateInstalled_values pkgs installedMap e :
  translateInstalled (Fulfilled pkgs) = Fulfilled installedMap ->
  In e (values installedMap) ->
  exists pkg, In pkg pkgs /\ e = installed_entry pkg.
Proof.
  simpl. intros H. inversion H as [E]. clear H E. intros He.
  apply (fold_set_values _ IInstalledEntry.name installed_entry) in He.
  destruct He as [He|He]; [|exact He].
  apply In_values in He. destruct He as (k & []).
Qed.

Lemma translateSearchResult_values res searchMap e :
  translateSearchResult (Fulfilled res) = Fulfilled searchMap ->
  In e (values searchMap) ->
  exists obj, In obj (ISearchResult.objects res)
              /\ e = search_entry (ISearchResult.package obj).
Proof.
  rewrite translateSearchResult_maintained.
  intros H. inversion H as [E]. clear H E. intros He.
  apply (fold_set_values _ ISearchResult.name search_entry) in He.
  destruct He as [He|(pkg & Hpkg & ->)].
  - apply In_values in He. destruct He as (k & []).
  - apply maintained_In in Hpkg. destruct Hpkg as [(obj & Hobj & <-) _].
    exists obj. auto.
Qed.



(** ** The reconciliation pass *)

Ltac run_M :=
  unfold bind, ret, read, modify, emit, new_Promise, then_ in *; simpl in *.

Ltac settle_channels env refreshInstalled :=
  repeat match goal with
  | |- context [searcher_searchExtensions env ?q ?p ?n] =>
      destruct (searcher_searchExtensions env q p n); simpl
  | |- context [makeRequest_extensions env refreshInstalled] =>
      destruct (makeRequest_extensions env refreshInstalled) as [?response|?reason];
      simpl
  | |- context [Private.handleError ?r] =>
      destruct (Private.handleError r) as [?response|?reason]; simpl
  | |- context [Response.json ?r] =>
      destruct (Response.json r); simpl
  end.

Section Pass.
Variable isJupyterOrg : string -> bool.
Variable env : Env.

Local Abbreviation cmp := (Private.comparator isJupyterOrg).

Lemma update_run (refreshInstalled : bool) (w : World) :
  let w2 := snd (queryInstalled env refreshInstalled (snd (performSearch env w))) in
  let installed :=
    sort cmp (values (pass_installedMap env refreshInstalled w)) in
  update isJupyterOrg env refreshInstalled w
  = (tt,
     match pass_searchResult isJupyterOrg env refreshInstalled w with
     | Returned searchResult =>
         {| this := set__searchResult searchResult
                      (set__installed installed (this w2));
            log := log w2 ++ [stateChanged_emit];
            allocated := allocated w2 |}
     | Thrown _ =>
         {| this := set__installed installed (this w2);
            log := log w2;
            allocated := allocated w2 |}
     end).
Proof.
  unfold update, pass_searchResult, pass_searchMap, pass_installedMap, bind.
  destruct (performSearch env w) as [searchMap w1]. simpl.
  destruct (queryInstalled env refreshInstalled w1) as [installedMap w2]. simpl.
  destruct (sort_completion _ (merge searchMap installedMap)); reflexivity.
Qed.

Lemma update_installed (refreshInstalled : bool) (w : World) :
  _installed (this (snd (update isJupyterOrg env refreshInstalled w)))
  = sort cmp (values (pass_installedMap env refreshInstalled w)).
Proof.
  rewrite update_run. cbv zeta.
  destruct (pass_searchResult isJupyterOrg env refreshInstalled w); reflexivity.
Qed.

(** The search view is assigned when the sort returns. *)
Lemma update_searchResult (refreshInstalled : bool) (w : World)
    (view : list value) :
  pass_searchResult isJupyterOrg env refreshInstalled w = Returned view ->
  _searchResult (this (snd (update isJupyterOrg env refreshInstalled w))) = view.
Proof.
  intros H. rewrite update_run. cbv zeta. rewrite H. reflexivity.
Qed.

Lemma pass_searchMap_keyed (w : World) : keyed_by_name (pass_searchMap env w).
Proof.
  unfold pass_searchMap, performSearch. run_M.
  destruct (_query (this w)) as [query|]; simpl.
  - destruct (translateSearchResult _) as [searchMap|reason] eqn:E; simpl.
    + destruct (searcher_searchExtensions env _ _ _); simpl;
        eapply translateSearchResult_keyed; exact E.
    + destruct (searcher_searchExtensions env _ _ _); simpl;
        apply keyed_by_name_empty.
  - apply keyed_by_name_empty.
Qed.

Lemma pass_installedMap_keyed (refreshInstalled : bool) (w : World) :
  keyed_by_name (pass_installedMap env refreshInstalled w).
Proof.
  unfold pass_installedMap, queryInstalled. unfold bind.
  destruct (fetchInstalled env refreshInstalled _) as [request w1].
  destruct (translateInstalled request) as [installedMap|reason] eqn:E; simpl.
  - eapply translateInstalled_keyed; exact E.
  - apply keyed_by_name_empty.
Qed.

(** The dictionaries of a pass are read off the collaborators' answers. *)
Lemma fetchInstalled_request (refreshInstalled : bool) (w : World) :
  fst (fetchInstalled env refreshInstalled w)
  = installed_request env refreshInstalled.
Proof.
  unfold fetchInstalled, installed_request. run_M.
  destruct (makeRequest_extensions env refreshInstalled) as [response|reason];
    simpl; [|reflexivity].
  destruct (Private.handleError response) as [response'|reason]; simpl;
    [|reflexivity].
  destruct (Response.json response'); reflexivity.
Qed.

Lemma pass_installedMap_request (refreshInstalled : bool) (w : World) :
  pass_installedMap env refreshInstalled w = installedMap_of env refreshInstalled.
Proof.
  unfold pass_installedMap, installedMap_of, queryInstalled, bind.
  rewrite <- (fetchInstalled_request refreshInstalled (snd (performSearch env w))).
  destruct (fetchInstalled env refreshInstalled _) as [request w1]. simpl.
  destruct (translateInstalled request); reflexivity.
Qed.

Lemma pass_searchMap_query (w : World) :
  pass_searchMap env w = searchMap_of env (this w).
Proof.
  unfold pass_searchMap, searchMap_of, performSearch. run_M.
  destruct (_query (this w)) as [query|]; simpl; [|reflexivity].
  destruct (searcher_searchExtensions env query _ _) as [res|reason]; simpl.
  - destruct (fold_left _ _ _); reflexivity.
  - reflexivity.
Qed.

Lemma pass_searchResult_model (refreshInstalled : bool) (w : World) :
  pass_searchResult isJupyterOrg env refreshInstalled w
  = searchResult_of isJupyterOrg env refreshInstalled (this w).
Proof.
  unfold pass_searchResult, searchResult_of.
  rewrite pass_installedMap_request, pass_searchMap_query. reflexivity.
Qed.

Lemma pass_searchMap_fulfilled (w : World) (query : string)
    (res : ISearchResult.t) :
  _query (this w) = Some query ->
  searcher_searchExtensions env query (_page (this w)) (_pagination (this w))
  = Fulfilled res ->
  translateSearchResult (Fulfilled res) = Fulfilled (pass_searchMap env w).
Proof.
  intros Hq Hs. unfold pass_searchMap, performSearch. run_M.
  rewrite Hq. simpl. rewrite Hs. reflexivity.
Qed.

Lemma pass_searchMap_unavailable (w : World) :
  _query (this w) = None
  \/ (exists query reason,
        _query (this w) = Some query
        /\ searcher_searchExtensions env query (_page (this w)) (_pagination (this w))
           = Rejected reason) ->
  pass_searchMap env w = empty_object.
Proof.
  unfold pass_searchMap, performSearch. run_M.
  intros [Hq|(query & reason & Hq & Hs)]; rewrite Hq; simpl; [reflexivity|].
  rewrite Hs. reflexivity.
Qed.

End Pass.

(** ** What is pushed for the search view *)

Lemma entry_property_not_entry (key : string) (p e : IEntry.t) :
  entry_property key p <> Some (js_entry e).
Proof.
  unfold entry_property.
  repeat match goal with
         | |- context [String.eqb key ?s] => destruct (String.eqb key s)
         end;
    try discriminate.
  destruct (IEntry.status p); discriminate.
Qed.

Lemma Object_prototype_named (key : string) (receiver : value) :
  key <> "__proto__" ->
  Object_prototype key receiver = js_undefined
  \/ exists name, Object_prototype key receiver = js_function name.
Proof.
  intros H. unfold Object_prototype.
  destruct (String.eqb_spec key "__proto__"); [contradiction|].
  destruct (String.eqb key "constructor"); [right; eexists; reflexivity|].
  destruct (existsb _ _); [right; eexists; reflexivity | left; reflexivity].
Qed.

(** An entry pushed under a key of the search map carries the key as its
    name: it is the own property of the installed map, or the search entry
    where the installed map gives [undefined]. *)
Lemma pushed_entry (installedMap : dictionary) (key : string) (s e : IEntry.t) :
  keyed_by_name installedMap -> key <> "__proto__" -> IEntry.name s = key ->
  pushed installedMap (key, s) = js_entry e ->
  IEntry.name e = key
  /\ (own_property key (own installedMap) = Some e
      \/ (get key installedMap = js_undefined /\ e = s)).
Proof.
  intros (_ & Hk & _) Hp Hs. unfold pushed, get. simpl.
  destruct (own_property key (own installedMap)) as [i|] eqn:Hi; simpl.
  - intros H. inversion H as [E]. split; [|left; reflexivity].
    rewrite <- E. apply Hk. apply own_property_In. exact Hi.
  - assert (Search : js_entry s = js_entry e ->
                     IEntry.name e = key
                     /\ (None = Some e \/ js_undefined = js_undefined /\ e = s)).
    { intros H. inversion H as [E]. rewrite <- E. auto. }
    unfold inherited.
    destruct (prototype installedMap) as [p|].
    + destruct (entry_property key p) as [v|] eqn:Hv.
      * destruct v; simpl; intros H; try discriminate H.
        -- exact (Search H).
        -- exfalso. exact (entry_property_not_entry key p _ Hv).
      * destruct (Object_prototype_named key (js_entry p) Hp) as [E|[n E]];
          rewrite E; simpl; intros H; [|discriminate H].
        exact (Search H).
    + destruct (Object_prototype_named key js_Object_prototype Hp) as [E|[n E]];
        rewrite E; simpl; intros H; [|discriminate H].
      exact (Search H).
Qed.

(** With [Object.prototype] in its place, everything pushed has a name. *)
Lemma pushed_named (installedMap : dictionary) (kv : string * IEntry.t) :
  prototype installedMap = None -> fst kv <> "__proto__" ->
  named (pushed installedMap kv).
Proof.
  intros Hproto Hp. unfold pushed, get, inherited. rewrite Hproto.
  destruct (own_property (fst kv) (own installedMap)) as [i|]; simpl.
  - eexists. reflexivity.
  - destruct (Object_prototype_named (fst kv) js_Object_prototype Hp) as [E|[n E]];
      rewrite E; simpl; eexists; reflexivity.
Qed.

Lemma In_own_keys (searchMap : dictionary) (kv : string * IEntry.t) :
  keyed_by_name searchMap -> In kv (enumerate (own searchMap)) ->
  fst kv <> "__proto__" /\ IEntry.name (snd kv) = fst kv.
Proof.
  intros (_ & Hk & Hp) Hin. apply (proj1 (In_enumerate _ _)) in Hin. split.
  - intros E. apply Hp. rewrite <- E. apply in_map. exact Hin.
  - destruct kv as [k e]. apply Hk. exact Hin.
Qed.

Lemma merge_named (searchMap installedMap : dictionary) :
  keyed_by_name searchMap -> prototype installedMap = None ->
  Forall named (merge searchMap installedMap).
Proof.
  intros Ks Hproto. apply Forall_forall. intros v Hv.
  unfold merge in Hv. apply in_map_iff in Hv. destruct Hv as (kv & <- & Hin).
  apply pushed_named; [exact Hproto|].
  apply (In_own_keys searchMap kv Ks Hin).
Qed.

Lemma merge_length (searchMap installedMap : dictionary) :
  length (merge searchMap installedMap) = length (own searchMap).
Proof.
  unfold merge. rewrite length_map. apply length_enumerate.
Qed.

Lemma In_entries_of (e : IEntry.t) (view : list value) :
  In e (entries_of view) <-> In (js_entry e) view.
Proof.
  unfold entries_of. rewrite in_flat_map. split.
  - intros (v & Hv & He). destruct v; try destruct He.
    + subst. exact Hv.
    + destruct H.
  - intros H. exists (js_entry e). split; [exact H | left; reflexivity].
Qed.

Lemma entries_of_Permutation (view view' : list value) :
  Permutation view view' -> Permutation (entries_of view) (entries_of view').
Proof.
  intros H. unfold entries_of.
  induction H as [|v l l' H IH|v v' l|l l' l'' H1 IH1 H2 IH2]; simpl.
  - constructor.
  - apply Permutation_app_head. exact IH.
  - rewrite !app_assoc. apply Permutation_app_tail. apply Permutation_app_comm.
  - etransitivity; eassumption.
Qed.

(** The entries pushed carry pairwise distinct names. *)
Lemma merge_entries_NoDup (searchMap installedMap : dictionary) :
  keyed_by_name searchMap -> keyed_by_name installedMap ->
  NoDup (map IEntry.name (entries_of (merge searchMap installedMap))).
Proof.
  intros Ks Ki. unfold merge.
  assert (Hnd := enumerate_NoDup (own searchMap) (proj1 Ks)).
  assert (Hin := fun kv => In_own_keys searchMap kv Ks).
  induction (enumerate (own searchMap)) as [|[k s] l IH]; simpl; [constructor|].
  inversion Hnd as [|? ? Hk Hl]; subst.
  assert (Rest : forall n,
            In n (map IEntry.name (entries_of (map (pushed installedMap) l))) ->
            In n (map fst l)).
  { intros n Hn. apply in_map_iff in Hn. destruct Hn as (e & <- & He).
    apply In_entries_of in He. apply in_map_iff in He.
    destruct He as ([k' s'] & Hpush & Hkv).
    destruct (Hin (k', s') (or_intror Hkv)) as [Hp Hs]. simpl in Hp, Hs.
    destruct (pushed_entry installedMap k' s' e Ki Hp Hs Hpush) as [E _].
    rewrite E. change k' with (fst (k', s')).
    apply in_map. exact Hkv. }
  assert (IH' := IH Hl (fun kv H => Hin kv (or_intror H))).
  destruct (pushed installedMap (k, s)) as [| | | | | |e] eqn:Hpush; simpl;
    try exact IH'.
  destruct (Hin (k, s) (or_introl eq_refl)) as [Hp Hs]. simpl in Hp, Hs.
  destruct (pushed_entry installedMap k s e Ki Hp Hs Hpush) as [E _].
  rewrite E. constructor; [|exact IH'].
  intros H. apply Hk. apply Rest. exact H.
Qed.


(** ** The published views *)

(** C2, at the failing input.  The registry lists a package named
    "constructor" that is not installed.  The installed map has no own
    property under that name, yet [installedMap["constructor"]] is not
    [undefined]: it is the function [Object], inherited from
    [Object.prototype].  The pass takes the name for an installed one and
    publishes that function in the place of the search-derived entry. *)
Theorem update_searchResult_inherited_member :
  let env := Sample.env_constructor in
  let w := Sample.searching in
  let searchMap := pass_searchMap env w in
  let installedMap := pass_installedMap env false w in
  let searchResult :=
    _searchResult (this (snd (update Sample.isJupyterOrg env false w))) in
  let entry := search_entry (ISearchResult.package (Sample.found "constructor" [])) in
  own_property "constructor" (own searchMap) = Some entry
  /\ own_property "constructor" (own installedMap) = None
  /\ get "constructor" installedMap = js_function "Object"
  /\ searchResult = [js_function "Object"; js_entry Sample.a]
  /\ ~ In (js_entry entry) searchResult.
Proof.
  cbv zeta.
  assert (View : _searchResult
                   (this (snd (update Sample.isJupyterOrg Sample.env_constructor
                                 false Sample.searching)))
                 = [js_function "Object"; js_entry Sample.a]) by reflexivity.
  split; [reflexivity|]. split; [reflexivity|]. split; [reflexivity|].
  split; [exact View|].
  rewrite View. intros [H|[H|[]]]; discriminate H.
Qed.







Lemma update_query_null_run
    (isJupyterOrg : string -> bool) (env : Env) (refreshInstalled : bool) (w : World) :
  _query (this w) = None ->
  let w' := snd (update isJupyterOrg env refreshInstalled w) in
  log w' = log w ++ [makeRequest_GET refreshInstalled; stateChanged_emit]
  /\ _searchResult (this w') = []
  /\ _totalEntries (this w') = 0
  /\ searchError (this w') = None.
Proof.
  intros Hq. unfold update, performSearch, queryInstalled, fetchInstalled.
  run_M. rewrite Hq. simpl.
  destruct (makeRequest_extensions env refreshInstalled) as [response|reason];
    simpl.
  - destruct (Private.handleError response) as [response'|reason]; simpl.
    + destruct (Response.json response') as [pkgs|reason]; simpl;
        rewrite <- app_assoc; auto.
    + rewrite <- app_assoc; auto.
  - rewrite <- app_assoc; auto.
Qed.

(** C7.  When the query is null, a reconciliation pass calls the registry
    not at all (the installed query and the change signal are its only
    effects), and leaves the search view empty, the total at 0 and the
    search error cleared. *)
Theorem update_query_null
    (isJupyterOrg : string -> bool) (env : Env) (refreshInstalled : bool) (w : World) :
  _query (this w) = None ->
  let pass := update isJupyterOrg env refreshInstalled in
  emitted_by pass w = [makeRequest_GET refreshInstalled; stateChanged_emit]
  /\ existsb is_registry_call (emitted_by pass w) = false
  /\ _searchResult (this (snd (pass w))) = []
  /\ _totalEntries (this (snd (pass w))) = 0
  /\ searchError (this (snd (pass w))) = None.
Proof.
  intros Hq pass.
  destruct (update_query_null_run isJupyterOrg env refreshInstalled w Hq)
    as (Hlog & Hview & Htotal & Herr).
  assert (E : emitted_by pass w
              = [makeRequest_GET refreshInstalled; stateChanged_emit]).
  { unfold emitted_by, pass. rewrite Hlog. apply skipn_length_app. }
  rewrite E. auto.
Qed.

(** Setting the query to null starts such a pass. *)
Lemma set_query_null
    (isJupyterOrg : string -> bool) (env : Env) (w : World) :
  let w' := snd (set_query isJupyterOrg env None w) in
  log w' = log w ++ [makeRequest_GET false; stateChanged_emit]
  /\ _searchResult (this w') = []
  /\ _totalEntries (this w') = 0.
Proof.
  unfold set_query, bind, modify. simpl.
  match goal with |- context [update isJupyterOrg env false ?w0] =>
    destruct (update_query_null_run isJupyterOrg env false w0 eq_refl)
      as (Hlog & Hview & Htotal & _)
  end.
  simpl in Hlog. auto.
Qed.

Lemma update_query_null_witness :
  _searchResult
    (this (snd (update Sample.isJupyterOrg Sample.env false Sample.idle))) = []
  /\ _installed
       (this (snd (update Sample.isJupyterOrg Sample.env false Sample.idle)))
     = [installed_entry (Sample.wire "@jupyterlab/y" (Some false) true "1.0.0");
        Sample.a].
Proof.
  split.
  - apply (update_query_null Sample.isJupyterOrg Sample.env false Sample.idle eq_refl).
  - reflexivity.
Defined.

(** ** The entry invariant *)

(** C4, counterexample.  The installed-list translation hands on
    [enabled] and [installed_version] as the server sent them: a record sent
    with [installed: false] next to [enabled: true] and a version yields an
    entry outside the invariant. *)
Lemma translateInstalled_outside_invariant :
  let pkg := Sample.wire "@jupyterlab/y" (Some false) true "1.0.0" in
  translateInstalled (Fulfilled [pkg])
  = Fulfilled {| own := [("@jupyterlab/y"%string, installed_entry pkg)];
                 prototype := None |}
  /\ IEntry.installed (installed_entry pkg) = false
  /\ IEntry.installed_version (installed_entry pkg) = "1.0.0"%string
  /\ IEntry.enabled (installed_entry pkg) = true
  /\ ~ entry_invariant (installed_entry pkg).
Proof.
  cbv zeta. split; [reflexivity|]. split; [reflexivity|].
  split; [reflexivity|]. split; [reflexivity|].
  intros Hinv. destruct (Hinv eq_refl) as [Hversion _]. discriminate Hversion.
Qed.

(** C4 (amended).  Every entry of the search-result translation is not
    installed, not enabled and without installed version, hence within the
    invariant.  Every entry of the installed-list translation is the copy of
    a record of the reply, not installed exactly when the record says
    [installed: false], and within the invariant exactly when that record
    is. *)
Theorem translation_entry_invariant :
  (forall res searchMap e,
      translateSearchResult (Fulfilled res) = Fulfilled searchMap ->
      In e (values searchMap) ->
      IEntry.installed e = false /\ IEntry.enabled e = false
      /\ IEntry.installed_version e = ""%string /\ entry_invariant e)
  /\
  (forall pkgs installedMap e,
      translateInstalled (Fulfilled pkgs) = Fulfilled installedMap ->
      In e (values installedMap) ->
      exists pkg,
        In pkg pkgs /\ e = installed_entry pkg
        /\ (IEntry.installed e = false <-> IInstalledEntry.installed pkg = Some false)
        /\ IEntry.enabled e = IInstalledEntry.enabled pkg
        /\ IEntry.installed_version e = IInstalledEntry.installed_version pkg
        /\ (entry_invariant e <-> wire_invariant pkg)).
Proof.
  split.
  - intros res searchMap e Hres He.
    destruct (translateSearchResult_values res searchMap e Hres He)
      as (obj & _ & ->).
    unfold entry_invariant. simpl. auto.
  - intros pkgs installedMap e Hres He.
    destruct (translateInstalled_values pkgs installedMap e Hres He)
      as (pkg & Hin & ->).
    exists pkg.
    assert (Hinst : IEntry.installed (installed_entry pkg) = false
                    <-> IInstalledEntry.installed pkg = Some false).
    { simpl. destruct (IInstalledEntry.installed pkg) as [[|]|];
        split; congruence. }
    split; [exact Hin|]. split; [reflexivity|]. split; [exact Hinst|].
    split; [reflexivity|]. split; [reflexivity|].
    unfold entry_invariant, wire_invariant. rewrite Hinst. simpl. tauto.
Qed.

Lemma translation_entry_invariant_witness :
  entry_invariant Sample.b /\ entry_invariant Sample.a.
Proof.
  split.
  - apply (proj1 translation_entry_invariant
             {| ISearchResult.objects := [Sample.found "b" []];
                ISearchResult.total := 1 |}
             {| own := [("b"%string, Sample.b)]; prototype := None |}
             Sample.b eq_refl).
    left. reflexivity.
  - destruct (proj2 translation_entry_invariant
                [Sample.wire "a" None true "1.0.0"]
                {| own := [("a"%string, Sample.a)]; prototype := None |}
                Sample.a eq_refl (or_introl eq_refl))
      as (pkg & Hin & E & _ & _ & _ & Hinv).
    apply Hinv. destruct Hin as [<-|[]]. intros H. discriminate H.
Defined.

(** ** Update availability *)

(** C10.  [entryHasUpdate] returns false whenever the entry is not
    installed or has no latest version; otherwise it returns true exactly
    when [semver.lt] holds of the installed and the latest version (and false
    exactly when [semver.lt] denies it). *)
Theorem entryHasUpdate_spec
    (semver_lt : string -> string -> option bool) (entry : IEntry.t) :
  (IEntry.installed entry = false \/ IEntry.latest_version entry = ""%string ->
   ListModelStatics.entryHasUpdate semver_lt entry = Returned false)
  /\
  (IEntry.installed entry = true -> IEntry.latest_version entry <> ""%string ->
   forall b,
     ListModelStatics.entryHasUpdate semver_lt entry = Returned b
     <-> semver_lt (IEntry.installed_version entry) (IEntry.latest_version entry)
         = Some b).
Proof.
  unfold ListModelStatics.entryHasUpdate, truthy. split.
  - intros [H|H]; rewrite H; simpl; auto.
    rewrite orb_true_r. reflexivity.
  - intros Hi Hl b. rewrite Hi. simpl.
    destruct (String.eqb_spec (IEntry.latest_version entry) "") as [E|E];
      [contradiction|]. simpl.
    destruct (semver_lt _ _) as [b'|]; split; congruence.
Qed.

Lemma entryHasUpdate_spec_witness :
  ListModelStatics.entryHasUpdate Sample.semver_lt Sample.a = Returned true
  /\ ListModelStatics.entryHasUpdate Sample.semver_lt Sample.b = Returned false.
Proof.
  split.
  - apply (proj2 (entryHasUpdate_spec Sample.semver_lt Sample.a) eq_refl).
    + discriminate.
    + reflexivity.
  - apply (proj1 (entryHasUpdate_spec Sample.semver_lt Sample.b)).
    left. reflexivity.
Defined.

(** ** Precondition errors *)

Lemma emitted_by_unchanged {A : Type} (c : M A) (w : World) (a : A) :
  c w = (a, w) -> emitted_by c w = [].
Proof.
  unfold emitted_by. intros ->. simpl.
  rewrite <- (app_nil_r (log w)) at 2. apply skipn_length_app.
Qed.

(** C6.  [uninstall] of an entry that is not installed, [enable] of an
    enabled entry and [disable] of a disabled entry throw at once: the model
    and the log are as before, so no request has been made.  No other call
    of an action method throws. *)
Theorem precondition_errors
    (isJupyterOrg : string -> bool) (new_RegExp : string -> completion (string -> bool))
    (env : Env) (entry : IEntry.t) (w : World) :
  (IEntry.installed entry = false ->
   uninstall isJupyterOrg env entry w
   = (Thrown (Error ("Not installed, cannot uninstall: " ++ IEntry.name entry)%string), w)
   /\ emitted_by (uninstall isJupyterOrg env entry) w = [])
  /\
  (IEntry.enabled entry = true ->
   enable isJupyterOrg env entry w
   = (Thrown (Error ("Already enabled: " ++ IEntry.name entry)%string), w)
   /\ emitted_by (enable isJupyterOrg env entry) w = [])
  /\
  (IEntry.enabled entry = false ->
   disable isJupyterOrg env entry w
   = (Thrown (Error ("Already disabled: " ++ IEntry.name entry)%string), w)
   /\ emitted_by (disable isJupyterOrg env entry) w = [])
  /\
  (forall a reason,
      fst (perform isJupyterOrg new_RegExp env a entry w) = Thrown reason ->
      (a = uninstall_cmd /\ IEntry.installed entry = false)
      \/ (a = enable_cmd /\ IEntry.enabled entry = true)
      \/ (a = disable_cmd /\ IEntry.enabled entry = false)).
Proof.
  assert (U : IEntry.installed entry = false ->
              uninstall isJupyterOrg env entry w
              = (Thrown (Error ("Not installed, cannot uninstall: "
                                ++ IEntry.name entry)%string), w)).
  { intros H. unfold uninstall. rewrite H. reflexivity. }
  assert (E : IEntry.enabled entry = true ->
              enable isJupyterOrg env entry w
              = (Thrown (Error ("Already enabled: " ++ IEntry.name entry)%string), w)).
  { intros H. unfold enable. rewrite H. reflexivity. }
  assert (D : IEntry.enabled entry = false ->
              disable isJupyterOrg env entry w
              = (Thrown (Error ("Already disabled: " ++ IEntry.name entry)%string), w)).
  { intros H. unfold disable. rewrite H. reflexivity. }
  split; [|split; [|split]].
  - intros H. split; [auto | eapply emitted_by_unchanged; apply U; exact H].
  - intros H. split; [auto | eapply emitted_by_unchanged; apply E; exact H].
  - intros H. split; [auto | eapply emitted_by_unchanged; apply D; exact H].
  - intros a reason. destruct a; simpl.
    + unfold install, bind.
      destruct (IEntry.installed entry).
      * destruct (_performAction env "install" entry w) as [data w1].
        destruct (then_ data _ w1). simpl. discriminate.
      * destruct (checkCompanionPackages new_RegExp env entry w) as [should w1].
        destruct (then_ should _ w1). simpl. discriminate.
    + unfold uninstall, bind.
      destruct (IEntry.installed entry); simpl.
      * destruct (_performAction env "uninstall" entry w) as [data w1].
        destruct (then_ data _ w1). simpl. discriminate.
      * auto.
    + unfold enable, bind.
      destruct (IEntry.enabled entry); simpl.
      * auto.
      * destruct (_performAction env "enable" entry w) as [data w1].
        destruct (then_ data _ w1). simpl. discriminate.
    + unfold disable, bind.
      destruct (IEntry.enabled entry); simpl.
      * destruct (_performAction env "disable" entry w) as [data w1].
        destruct (then_ data _ w1). simpl. discriminate.
      * auto.
Qed.

Lemma precondition_errors_witness :
  uninstall Sample.isJupyterOrg Sample.env Sample.b Sample.searching
  = (Thrown "Error: Not installed, cannot uninstall: b"%string, Sample.searching)
  /\ enable Sample.isJupyterOrg Sample.env Sample.a Sample.searching
     = (Thrown "Error: Already enabled: a"%string, Sample.searching)
  /\ disable Sample.isJupyterOrg Sample.env Sample.b Sample.searching
     = (Thrown "Error: Already disabled: b"%string, Sample.searching).
Proof.
  split; [|split].
  - apply (proj1 (precondition_errors Sample.isJupyterOrg Sample.new_RegExp
                    Sample.env Sample.b Sample.searching) eq_refl).
  - apply (proj1 (proj2 (precondition_errors Sample.isJupyterOrg Sample.new_RegExp
                           Sample.env Sample.a Sample.searching)) eq_refl).
  - apply (proj1 (proj2 (proj2 (precondition_errors Sample.isJupyterOrg
                                  Sample.new_RegExp Sample.env Sample.b
                                  Sample.searching))) eq_refl).
Defined.

(** ** Error slots *)

(** C8, counterexample.  A failing installed query writes the
    server-connection slot as well as the installed slot: [fetchInstalled]
    registers the reaction that records the reason in
    [serverConnectionError]. *)
Lemma queryInstalled_failure_sets_serverConnectionError :
  let w' := snd (queryInstalled Sample.env_server_down false Sample.idle) in
  installedError (this w') = Some "Error: 500 (Internal Server Error)"%string
  /\ searchError (this w') = searchError (this Sample.idle)
  /\ serverConnectionError (this Sample.idle) = None
  /\ serverConnectionError (this w') = Some "Error: 500 (Internal Server Error)"%string
  /\ serverConnectionError (this w') <> serverConnectionError (this Sample.idle).
Proof.
  cbv zeta. split; [reflexivity|]. split; [reflexivity|].
  split; [reflexivity|]. split; [reflexivity|].
  discriminate.
Qed.

(** C8 (amended).  A failure of the search sets the search slot and leaves
    the installed and the server-connection slot as they were; a success
    clears the search slot and leaves the other two.  A failure of the
    installed query sets the installed slot and the server-connection slot
    and leaves the search slot as it was; a success clears those two and
    leaves the search slot. *)
Theorem error_slots_isolated (env : Env) (w : World) :
  (forall query,
      _query (this w) = Some query ->
      let search :=
        searcher_searchExtensions env query (_page (this w)) (_pagination (this w)) in
      let w' := snd (performSearch env w) in
      searchError (this w')
      = match search with Fulfilled _ => None | Rejected reason => Some reason end
      /\ installedError (this w') = installedError (this w)
      /\ serverConnectionError (this w') = serverConnectionError (this w))
  /\
  (forall refreshInstalled,
      let request := fst (fetchInstalled env refreshInstalled w) in
      let w' := snd (queryInstalled env refreshInstalled w) in
      installedError (this w')
      = match request with Fulfilled _ => None | Rejected reason => Some reason end
      /\ serverConnectionError (this w')
         = match request with Fulfilled _ => None | Rejected reason => Some reason end
      /\ searchError (this w') = searchError (this w)).
Proof.
  split.
  - intros query Hq search w'. unfold w', search, performSearch.
    run_M. rewrite Hq. simpl.
    destruct (searcher_searchExtensions env query _ _) as [res|reason]; simpl; auto.
  - intros refreshInstalled request w'.
    unfold w', request, queryInstalled, fetchInstalled. run_M.
    destruct (makeRequest_extensions env refreshInstalled) as [response|reason];
      simpl; auto.
    destruct (Private.handleError response) as [response'|reason]; simpl; auto.
    destruct (Response.json response') as [pkgs|reason]; simpl; auto.
Qed.

Lemma error_slots_isolated_witness :
  searchError (this (snd (performSearch Sample.env_registry_down Sample.searching)))
  = Some "TypeError: Failed to fetch"%string
  /\ installedError
       (this (snd (performSearch Sample.env_registry_down Sample.searching))) = None.
Proof.
  destruct (proj1 (error_slots_isolated Sample.env_registry_down Sample.searching)
              "lab"%string eq_refl) as (Hs & Hi & _).
  split; [exact Hs | exact Hi].
Defined.

(** ** The companion gate *)

Section Gate.
Variable new_RegExp : string -> completion (string -> bool).
Variable env : Env.


Lemma matchSpecs_thrown (kernelInfo : Companions.IKernelInstallInfo)
    (reason : string) :
  Private.matchSpecs new_RegExp kernelInfo (serviceManager_specs env)
  = Thrown reason ->
  serviceManager_specs env <> None
  /\ (Private.compile new_RegExp
        (Companions.language (Companions.kernel_spec kernelInfo)) = Thrown reason
      \/ Private.compile new_RegExp
           (Companions.display_name (Companions.kernel_spec kernelInfo))
         = Thrown reason).
Proof.
  unfold Private.matchSpecs.
  destruct (serviceManager_specs env) as [kernelspecs|]; [|discriminate].
  intros H. split; [discriminate|].
  destruct (Private.compile new_RegExp (Companions.language _)) as [l|r].
  - destruct (Private.compile new_RegExp (Companions.display_name _)) as [d|r].
    + discriminate H.
    + right. inversion H. reflexivity.
  - left. inversion H. reflexivity.
Qed.

Lemma match_kernels_rules (kernel : list Companions.IKernelInstallInfo)
    (kernelCompanions : list Companions.KernelCompanion) :
  match_kernels new_RegExp env kernel = Returned kernelCompanions ->
  map Companions.kernelInfo kernelCompanions = kernel.
Proof.
  revert kernelCompanions.
  induction kernel as [|kernelInfo kernel IH]; simpl; intros kernelCompanions.
  - intros H. inversion H. reflexivity.
  - destruct (Private.matchSpecs new_RegExp kernelInfo _); [|discriminate].
    destruct (match_kernels new_RegExp env kernel) as [rest|]; [|discriminate].
    intros H. inversion H. simpl. rewrite (IH rest eq_refl). reflexivity.
Qed.


Lemma match_kernels_thrown (kernel : list Companions.IKernelInstallInfo)
    (reason : string) :
  match_kernels new_RegExp env kernel = Thrown reason ->
  serviceManager_specs env <> None
  /\ exists kernelInfo,
       In kernelInfo kernel
       /\ (Private.compile new_RegExp
             (Companions.language (Companions.kernel_spec kernelInfo))
           = Thrown reason
           \/ Private.compile new_RegExp
                (Companions.display_name (Companions.kernel_spec kernelInfo))
              = Thrown reason).
Proof.
  induction kernel as [|kernelInfo kernel IH]; simpl; [discriminate|].
  destruct (Private.matchSpecs new_RegExp kernelInfo _) as [matches|r] eqn:Hm.
  - destruct (match_kernels new_RegExp env kernel) as [rest|r]; [discriminate|].
    intros H. destruct (IH H) as [Hs (rule & Hin & Hrule)].
    split; [exact Hs|]. exists rule. auto.
  - intros H. inversion H. subst r.
    destruct (matchSpecs_thrown kernelInfo reason Hm) as [Hs Hrule].
    split; [exact Hs|]. exists kernelInfo. auto.
Qed.

Lemma match_kernels_no_specs (kernel : list Companions.IKernelInstallInfo) :
  serviceManager_specs env = None ->
  match_kernels new_RegExp env kernel
  = Returned (map (fun kernelInfo =>
                     {| Companions.kernelInfo := kernelInfo;
                        Companions.kernels := [] |})
                  kernel).
Proof.
  intros H. induction kernel as [|kernelInfo kernel IH]; simpl; [reflexivity|].
  rewrite IH. unfold Private.matchSpecs. rewrite H. reflexivity.
Qed.

(** The gate sends no request to the server and leaves the model alone:
    its effects are the fetch of the metadata and, at most, the
    presentation. *)
Lemma checkCompanionPackages_effects (entry : IEntry.t) (w : World) :
  let w' := snd (checkCompanionPackages new_RegExp env entry w) in
  this w' = this w
  /\ exists events,
       log w' = log w ++ events
       /\ forallb (fun e => is_fetchPackageData_call e || is_presentCompanions_call e)
            events = true.
Proof.
  unfold checkCompanionPackages. run_M.
  destruct (searcher_fetchPackageData env _ _) as [data|reason]; simpl.
  - destruct (match data with Some _ => _ | None => _ end) as [discovery|]; simpl.
    + destruct (kernelCompanions_of new_RegExp env discovery)
        as [kernelCompanions|reason]; simpl.
      * destruct ((Z.of_nat (length kernelCompanions) <? 1) && _); simpl;
          (split; [reflexivity|]);
          eexists; (split; [repeat (rewrite <- app_assoc; simpl); reflexivity|]);
          reflexivity.
      * split; [reflexivity|]. eexists. split; reflexivity.
    + split; [reflexivity|]. eexists. split; reflexivity.
  - split; [reflexivity|]. eexists. split; reflexivity.
Qed.
End Gate.



(** When the metadata cannot be fetched the gate is rejected for the same
    reason, and presents nothing. *)
Lemma checkCompanionPackages_fetch_rejected
    (new_RegExp : string -> completion (string -> bool)) (env : Env)
    (entry : IEntry.t) (w : World) (reason : string) :
  searcher_fetchPackageData env (IEntry.name entry) (IEntry.latest_version entry)
  = Rejected reason ->
  fst (checkCompanionPackages new_RegExp env entry w) = Rejected reason
  /\ emitted_by (checkCompanionPackages new_RegExp env entry) w
     = [fetchPackageData_call (IEntry.name entry) (IEntry.latest_version entry)].
Proof.
  intros H. unfold emitted_by, checkCompanionPackages. run_M. rewrite H. simpl.
  rewrite skipn_length_app. auto.
Qed.

(** ** The pending-action tracker *)

Lemma indexOf_first (p : Promise) (l1 l2 : list Promise) :
  ~ In p l1 -> indexOf Nat.eqb p (l1 ++ p :: l2) = Z.of_nat (length l1).
Proof.
  induction l1 as [|y l1 IH]; simpl; intros H.
  - rewrite Nat.eqb_refl. reflexivity.
  - destruct (Nat.eqb_spec y p) as [E|E]; [exfalso; auto|].
    rewrite IH by auto.
    destruct (Z.ltb_spec (Z.of_nat (length l1)) 0); lia.
Qed.

Lemma firstn_length_app {A : Type} (l1 l2 : list A) :
  firstn (length l1) (l1 ++ l2) = l1.
Proof.
  induction l1 as [|y l1 IH]; simpl; [destruct l2; reflexivity|].
  f_equal. exact IH.
Qed.

Lemma skipn_past {A : Type} (l1 l2 : list A) (x : A) :
  skipn (S (length l1)) (l1 ++ x :: l2) = l2.
Proof.
  induction l1 as [|y l1 IH]; simpl; auto.
Qed.

Lemma splice1_at {A : Type} (l1 l2 : list A) (x : A) :
  splice1 (Z.of_nat (length l1)) (l1 ++ x :: l2) = l1 ++ l2.
Proof.
  unfold splice1.
  destruct (Z.ltb_spec (Z.of_nat (length l1)) 0) as [H|_]; [lia|].
  rewrite length_app. simpl length.
  rewrite Z.min_l by lia. rewrite Nat2Z.id.
  rewrite firstn_length_app, skipn_past. reflexivity.
Qed.

Lemma first_occurrence (p : Promise) (l : list Promise) :
  In p l -> exists l1 l2, l = l1 ++ p :: l2 /\ ~ In p l1.
Proof.
  induction l as [|y l IH]; simpl; [tauto|].
  intros H. destruct (Nat.eq_dec y p) as [E|E].
  - exists [], l. subst. auto.
  - destruct H as [H|H]; [contradiction|].
    destruct (IH H) as (l1 & l2 & -> & Hn).
    exists (y :: l1), l2. split; [reflexivity|].
    intros [H'|H']; auto.
Qed.

Lemma remove_count (p q : Promise) (l : list Promise) :
  In p l ->
  count_occ Nat.eq_dec (splice1 (indexOf Nat.eqb p l) l) q
  = (count_occ Nat.eq_dec l q - if Nat.eqb q p then 1 else 0)%nat.
Proof.
  intros H. destruct (first_occurrence p l H) as (l1 & l2 & -> & Hn).
  rewrite indexOf_first by exact Hn. rewrite splice1_at.
  rewrite !count_occ_app. simpl.
  destruct (Nat.eq_dec p q) as [E|E].
  - subst. rewrite Nat.eqb_refl. lia.
  - destruct (Nat.eqb_spec q p); [congruence | lia].
Qed.

Lemma hasPendingActions_count (m : ListModel) :
  hasPendingActions m = true
  <-> exists p, (0 < count_occ Nat.eq_dec (_pendingActions m) p)%nat.
Proof.
  unfold hasPendingActions.
  destruct (_pendingActions m) as [|p l]; simpl.
  - split; [discriminate | intros [p H]; lia].
  - split; [|intros _; apply Z.ltb_lt; lia].
    intros _. exists p. destruct (Nat.eq_dec p p); [lia | congruence].
Qed.

Lemma count_adds_app (p : Promise) (h1 h2 : list tracker_op) :
  count_adds p (h1 ++ h2) = (count_adds p h1 + count_adds p h2)%nat.
Proof.
  unfold count_adds. rewrite filter_app, length_app. reflexivity.
Qed.

Lemma count_settles_app (p : Promise) (h1 h2 : list tracker_op) :
  count_settles p (h1 ++ h2) = (count_settles p h1 + count_settles p h2)%nat.
Proof.
  unfold count_settles. rewrite filter_app, length_app. reflexivity.
Qed.

Lemma count_adds_one (p : Promise) (op : tracker_op) :
  count_adds p [op]
  = match op with
    | add_op q => if Nat.eqb q p then 1%nat else 0%nat
    | settle_op _ _ => 0%nat
    end.
Proof.
  unfold count_adds. simpl. destruct op as [q|q o]; [destruct (Nat.eqb q p)|];
    reflexivity.
Qed.

Lemma count_settles_one (p : Promise) (op : tracker_op) :
  count_settles p [op]
  = match op with
    | add_op _ => 0%nat
    | settle_op q _ => if Nat.eqb q p then 1%nat else 0%nat
    end.
Proof.
  unfold count_settles. simpl. destruct op as [q|q o]; [|destruct (Nat.eqb q p)];
    reflexivity.
Qed.

Lemma count_settles_absent (p : Promise) (h : list tracker_op) :
  (forall outcome, ~ In (settle_op p outcome) h) -> count_settles p h = 0%nat.
Proof.
  induction h as [|op h IH]; simpl; intros H; auto.
  unfold count_settles in *. simpl.
  destruct op as [q|q outcome].
  - apply IH. intros o Ho. apply (H o). right. exact Ho.
  - destruct (Nat.eqb_spec q p) as [E|E].
    + subst. exfalso. apply (H outcome). left. reflexivity.
    + apply IH. intros o Ho. apply (H o). right. exact Ho.
Qed.

Lemma well_formed_from_app (past h1 h2 : list tracker_op) :
  well_formed_from past (h1 ++ h2) = true ->
  well_formed_from past h1 = true /\ well_formed_from (past ++ h1) h2 = true.
Proof.
  revert past. induction h1 as [|op h1 IH]; simpl; intros past H.
  - rewrite app_nil_r. auto.
  - apply andb_true_iff in H. destruct H as [Hop H].
    apply IH in H. destruct H as [H1 H2].
    rewrite Hop, H1. rewrite <- app_assoc in H2. auto.
Qed.

(** The tracker holds each promise as often as it is outstanding, and has
    signalled once per step. *)
Lemma tracker_run_accounts (ops past : list tracker_op) (w : World) :
  (forall p, count_occ Nat.eq_dec (_pendingActions (this w)) p = outstanding p past) ->
  (forall p, (count_settles p past <= count_adds p past)%nat) ->
  well_formed_from past ops = true ->
  let w' := snd (tracker_run ops w) in
  (forall p, count_occ Nat.eq_dec (_pendingActions (this w')) p
             = outstanding p (past ++ ops))
  /\ (forall p, (count_settles p (past ++ ops) <= count_adds p (past ++ ops))%nat)
  /\ log w' = log w ++ repeat stateChanged_emit (length ops).
Proof.
  revert past w. induction ops as [|op ops IH]; intros past w Hc Hle Hwf.
  - simpl. rewrite !app_nil_r. auto.
  - simpl in Hwf. apply andb_true_iff in Hwf. destruct Hwf as [Hop Hwf].
    cbv zeta. simpl. unfold bind.
    destruct (tracker_step op w) as [[] w1] eqn:Hstep.
    assert (Step :
      (forall p, count_occ Nat.eq_dec (_pendingActions (this w1)) p
                 = outstanding p (past ++ [op]))
      /\ (forall p, (count_settles p (past ++ [op]) <= count_adds p (past ++ [op]))%nat)
      /\ log w1 = log w ++ [stateChanged_emit]).
    { destruct op as [q|q outcome]; simpl in Hstep.
      - unfold _addPendingAction in Hstep. run_M.
        inversion Hstep; subst; clear Hstep. simpl.
        split; [|split; [|reflexivity]].
        + intros p. rewrite count_occ_app, Hc. unfold outstanding.
          rewrite count_adds_app, count_settles_app.
          rewrite count_adds_one, count_settles_one.
          specialize (Hle p). simpl.
          destruct (Nat.eq_dec q p) as [E|E];
            destruct (Nat.eqb_spec q p); try congruence; simpl; lia.
        + intros p. rewrite count_adds_app, count_settles_app.
          rewrite count_adds_one, count_settles_one.
          specialize (Hle p). destruct (Nat.eqb q p); lia.
      - apply Nat.ltb_lt in Hop.
        assert (Hin : In q (_pendingActions (this w))).
        { apply (count_occ_In Nat.eq_dec). rewrite Hc. unfold outstanding. lia. }
        assert (Hrm : remove q w = (tt, w1)).
        { destruct outcome; exact Hstep. }
        unfold remove in Hrm. run_M.
        inversion Hrm; subst; clear Hrm Hstep. simpl.
        split; [|split; [|reflexivity]].
        + intros p. rewrite remove_count by exact Hin. rewrite Hc.
          unfold outstanding. rewrite count_adds_app, count_settles_app.
          rewrite count_adds_one, count_settles_one.
          rewrite (Nat.eqb_sym p q).
          destruct (Nat.eqb_spec q p); simpl; lia.
        + intros p. rewrite count_adds_app, count_settles_app.
          rewrite count_adds_one, count_settles_one.
          specialize (Hle p).
          destruct (Nat.eqb_spec q p); simpl; [subst; lia | lia]. }
    destruct Step as (Hc1 & Hle1 & Hlog1).
    destruct (IH (past ++ [op]) w1 Hc1 Hle1 Hwf) as (Hc2 & Hle2 & Hlog2).
    rewrite <- app_assoc in Hc2, Hle2. simpl in Hc2, Hle2.
    split; [exact Hc2 | split; [exact Hle2|]].
    rewrite Hlog2, Hlog1, <- app_assoc. reflexivity.
Qed.

(** C9.  Adding a pending action inserts its handle and signals the change
    at once; when the task settles, fulfilled or rejected alike, one
    occurrence of the handle is removed and the change signalled again;
    over any history in which each promise settles once,
    [hasPendingActions] holds exactly when some handle has been added and
    not yet settled, in particular from the addition of a handle up to its
    settlement. *)
Theorem pending_accounting :
  (forall pending w,
      let w' := snd (_addPendingAction pending w) in
      _pendingActions (this w') = _pendingActions (this w) ++ [pending]
      /\ log w' = log w ++ [stateChanged_emit]
      /\ hasPendingActions (this w') = true)
  /\
  (forall pending (outcome : settled unit) w,
      In pending (_pendingActions (this w)) ->
      let w' := snd (_addPendingAction_settled pending outcome w) in
      (forall q, count_occ Nat.eq_dec (_pendingActions (this w')) q
                 = (count_occ Nat.eq_dec (_pendingActions (this w)) q
                    - if Nat.eqb q pending then 1 else 0)%nat)
      /\ log w' = log w ++ [stateChanged_emit])
  /\
  (forall ops w,
      _pendingActions (this w) = [] -> well_formed ops = true ->
      let w' := snd (tracker_run ops w) in
      (forall p, count_occ Nat.eq_dec (_pendingActions (this w')) p
                 = outstanding p ops)
      /\ (hasPendingActions (this w') = true
          <-> exists p, (0 < outstanding p ops)%nat)
      /\ log w' = log w ++ repeat stateChanged_emit (length ops))
  /\
  (forall before between pending w,
      _pendingActions (this w) = [] ->
      well_formed (before ++ add_op pending :: between) = true ->
      (forall outcome, ~ In (settle_op pending outcome) between) ->
      hasPendingActions
        (this (snd (tracker_run (before ++ add_op pending :: between) w))) = true).
Proof.
  assert (Run : forall ops w,
      _pendingActions (this w) = [] -> well_formed ops = true ->
      let w' := snd (tracker_run ops w) in
      (forall p, count_occ Nat.eq_dec (_pendingActions (this w')) p
                 = outstanding p ops)
      /\ (forall p, (count_settles p ops <= count_adds p ops)%nat)
      /\ log w' = log w ++ repeat stateChanged_emit (length ops)).
  { intros ops w Hempty Hwf.
    apply (tracker_run_accounts ops [] w); auto.
    intros p. rewrite Hempty. reflexivity. }
  split; [|split; [|split]].
  - intros pending w. unfold _addPendingAction. run_M.
    split; [reflexivity | split; [reflexivity|]].
    unfold hasPendingActions. simpl. rewrite length_app. simpl.
    apply Z.ltb_lt. lia.
  - intros pending outcome w Hin w'.
    assert (E : w' = snd (remove pending w)) by (destruct outcome; reflexivity).
    rewrite E. unfold remove. run_M.
    split; [|reflexivity].
    intros q. apply remove_count. exact Hin.
  - intros ops w Hempty Hwf w'.
    destruct (Run ops w Hempty Hwf) as (Hc & _ & Hlog).
    split; [exact Hc | split; [|exact Hlog]].
    rewrite hasPendingActions_count.
    split; intros [p Hp]; exists p.
    + rewrite <- Hc. exact Hp.
    + fold w'. rewrite Hc. exact Hp.
  - intros before between pending w Hempty Hwf Hnone.
    destruct (Run _ w Hempty Hwf) as (Hc & _ & _).
    apply hasPendingActions_count. exists pending. rewrite Hc.
    apply well_formed_from_app in Hwf. destruct Hwf as [Hwf _].
    destruct (Run before w Hempty Hwf) as (_ & Hle & _).
    specialize (Hle pending).
    unfold outstanding.
    rewrite count_adds_app, count_settles_app.
    change (add_op pending :: between) with ([add_op pending] ++ between).
    rewrite count_adds_app, count_settles_app.
    rewrite (count_settles_absent pending between Hnone).
    rewrite count_adds_one, count_settles_one.
    rewrite Nat.eqb_refl. lia.
Qed.

Lemma pending_accounting_witness :
  hasPendingActions
    (this (snd (tracker_run [add_op 0%nat; add_op 1%nat; settle_op 1%nat (Rejected "x")]
                  Sample.idle))) = true
  /\ hasPendingActions
       (this (snd (tracker_run [add_op 0%nat; settle_op 0%nat (Fulfilled tt)]
                     Sample.idle))) = false.
Proof.
  split.
  - apply (proj2 (proj2 (proj2 pending_accounting))
             [] [add_op 1%nat; settle_op 1%nat (Rejected "x")] 0%nat Sample.idle
             eq_refl eq_refl).
    intros outcome [H|[H|[]]]; discriminate H.
  - reflexivity.
Defined.

(** ** Actions and the pass that follows them *)

Lemma emitted_by_log {A : Type} (c : M A) (w : World) (events : list event) :
  log (snd (c w)) = log w ++ events -> emitted_by c w = events.
Proof.
  unfold emitted_by. intros ->. apply skipn_length_app.
Qed.

(** The requests of a pass: the search, when the query is not null, then
    the installed query. *)
Lemma channels_log (env : Env) (refreshInstalled : bool) (w : World) :
  log (snd (queryInstalled env refreshInstalled (snd (performSearch env w))))
  = log w
    ++ match _query (this w) with
       | Some query =>
           [searchExtensions_call query (_page (this w)) (_pagination (this w))]
       | None => []
       end
    ++ [makeRequest_GET refreshInstalled].
Proof.
  unfold queryInstalled, fetchInstalled, performSearch. run_M.
  destruct (_query (this w)) as [query|]; simpl;
    settle_channels env refreshInstalled;
    repeat (rewrite <- app_assoc; simpl); reflexivity.
Qed.

(** The log of a pass. *)
Lemma update_log_exact (isJupyterOrg : string -> bool) (env : Env)
    (refreshInstalled : bool) (w : World) :
  log (snd (update isJupyterOrg env refreshInstalled w))
  = log w ++ pass_events isJupyterOrg env refreshInstalled (this w).
Proof.
  rewrite update_run. cbv zeta. unfold pass_events, publishes.
  rewrite pass_searchResult_model.
  destruct (searchResult_of isJupyterOrg env refreshInstalled (this w)); simpl;
    rewrite channels_log; repeat (rewrite <- app_assoc; simpl);
    rewrite ?app_nil_r; reflexivity.
Qed.

(** Every pass queries the installed extensions. *)
Lemma update_log (isJupyterOrg : string -> bool) (env : Env)
    (refreshInstalled : bool) (w : World) :
  exists events,
    log (snd (update isJupyterOrg env refreshInstalled w)) = log w ++ events
    /\ In (makeRequest_GET refreshInstalled) events.
Proof.
  exists (pass_events isJupyterOrg env refreshInstalled (this w)).
  split; [apply update_log_exact|].
  unfold pass_events. apply in_or_app. right. left. reflexivity.
Qed.

(** What [_performAction] does: the request, the tracking of the promise,
    the build check on a 2xx response, the server-connection slot; the
    published views stay, and no pass is started. *)
Lemma performAction_run (env : Env) (cmd : string) (entry : IEntry.t) (w : World) :
  let reply := action_reply env cmd (IEntry.name entry) in
  let w' := snd (_performAction env cmd entry w) in
  fst (_performAction env cmd entry w) = reply
  /\ (exists events,
         log w' = log w ++ makeRequest_POST cmd (IEntry.name entry) :: events
         /\ existsb is_makeRequest_GET events = false)
  /\ _installed (this w') = _installed (this w)
  /\ _searchResult (this w') = _searchResult (this w)
  /\ serverConnectionError (this w')
     = match reply with Fulfilled _ => None | Rejected reason => Some reason end.
Proof.
  unfold action_reply, _performAction, triggerBuildCheck,
    _addPendingAction_settled, _addPendingAction, remove.
  run_M.
  destruct (makeRequest_action env cmd (IEntry.name entry)) as [response|reason];
    simpl.
  - destruct (Private.handleError response) as [response'|reason]; simpl.
    + destruct (builder_isAvailable env && negb (promptBuild (this w))); simpl;
        destruct (Response.json response') as [data|reason]; simpl;
        (split; [reflexivity|]);
        (split; [eexists; split;
                 [repeat (rewrite <- app_assoc; simpl); reflexivity
                 | reflexivity]|]);
        auto.
    + split; [reflexivity|].
      split; [eexists; split;
              [repeat (rewrite <- app_assoc; simpl); reflexivity | reflexivity]|].
      auto.
  - split; [reflexivity|].
    split; [eexists; split;
            [repeat (rewrite <- app_assoc; simpl); reflexivity | reflexivity]|].
    auto.
Qed.

Lemma forallb_existsb_false {A : Type} (f g : A -> bool) (l : list A) :
  forallb f l = true -> (forall x, f x = true -> g x = false) ->
  existsb g l = false.
Proof.
  intros Hall Hfg. induction l as [|x l IH]; simpl in *; [reflexivity|].
  apply andb_true_iff in Hall. destruct Hall as [Hx Hl].
  rewrite (Hfg x Hx). auto.
Qed.

(** The gate sends no request to the server and leaves the model alone. *)
Lemma checkCompanionPackages_run
    (new_RegExp : string -> completion (string -> bool))
    (env : Env) (entry : IEntry.t) (w : World) :
  let w' := snd (checkCompanionPackages new_RegExp env entry w) in
  this w' = this w
  /\ exists events,
       log w' = log w ++ events
       /\ existsb is_makeRequest_GET events = false
       /\ existsb is_makeRequest_POST events = false.
Proof.
  destruct (checkCompanionPackages_effects new_RegExp env entry w)
    as (Hthis & events & Hlog & Hcalls).
  split; [exact Hthis|]. exists events. split; [exact Hlog|].
  split; apply (forallb_existsb_false _ _ events Hcalls);
    intros [] H; try discriminate H; reflexivity.
Qed.

Lemma ends_in_update_plain (isJupyterOrg : string -> bool) (env : Env) :
  ends_in_update isJupyterOrg env (fun _ => update isJupyterOrg env false).
Proof.
  intros data w. exists w, []. rewrite app_nil_r. auto.
Qed.

Lemma ends_in_update_install (isJupyterOrg : string -> bool) (env : Env)
    (entry : IEntry.t) :
  ends_in_update isJupyterOrg env (install_then isJupyterOrg env entry).
Proof.
  intros data w. unfold install_then. run_M.
  destruct (IActionReply.status data) as [[| | |]|]; simpl.
  - exists w, []. rewrite app_nil_r. auto.
  - eexists _, [_]. split; [|split]; [| |reflexivity]; reflexivity.
  - eexists _, [_]. split; [|split]; [| |reflexivity]; reflexivity.
  - eexists _, [_]. split; [|split]; [| |reflexivity]; reflexivity.
  - eexists _, [_]. split; [|split]; [| |reflexivity]; reflexivity.
Qed.

(** An action with a callback that ends in a pass: the pass runs when the
    action's promise is fulfilled, and only then. *)
Lemma chained_run (isJupyterOrg : string -> bool) (env : Env) (cmd : string)
    (entry : IEntry.t) (callback : IActionReply.t -> M unit) (w : World) :
  ends_in_update isJupyterOrg env callback ->
  let reply := action_reply env cmd (IEntry.name entry) in
  let w' := snd (chained env cmd entry callback w) in
  exists events,
    log w' = log w ++ makeRequest_POST cmd (IEntry.name entry) :: events
    /\ (forall data, reply = Fulfilled data ->
          In (makeRequest_GET false) events
          /\ exists w1, w' = snd (update isJupyterOrg env false w1))
    /\ (forall reason, reply = Rejected reason ->
          existsb is_makeRequest_GET events = false
          /\ _installed (this w') = _installed (this w)
          /\ _searchResult (this w') = _searchResult (this w)
          /\ serverConnectionError (this w') = Some reason).
Proof.
  intros Hcb reply w'. unfold w', chained, bind.
  destruct (performAction_run env cmd entry w)
    as (Hreply & (events & Hlog & Hget) & Hi & Hs & Herr).
  fold reply in Hreply, Herr.
  destruct (_performAction env cmd entry w) as [data w1]. simpl in *.
  subst data. destruct reply as [data|reason]; simpl.
  - destruct (Hcb data w1) as (w2 & reported & Hlog2 & Hget2 & ->).
    destruct (update_log isJupyterOrg env false w2) as (passed & Hlog3 & Hin).
    exists (events ++ reported ++ passed). split; [|split].
    + rewrite Hlog3, Hlog2, Hlog.
      repeat (rewrite <- app_assoc; simpl). reflexivity.
    + intros data' _. split.
      * apply in_or_app. right. apply in_or_app. right. exact Hin.
      * exists w2. reflexivity.
    + intros reason H. discriminate H.
  - exists events. split; [exact Hlog | split].
    + intros data H. discriminate H.
    + intros reason' H. inversion H. subst. auto.
Qed.

Lemma existsb_false_In {A : Type} (f : A -> bool) (l : list A) (x : A) :
  existsb f l = false -> In x l -> f x = false.
Proof.
  intros H Hin. destruct (f x) eqn:E; [|reflexivity].
  assert (existsb f l = true) by (apply existsb_exists; exists x; auto).
  congruence.
Qed.

(** Each action method either makes no action request at all (it threw, or
    the gate did not approve), or is an action chained with a callback that
    ends in a pass, started after the gate's own effects. *)
Lemma perform_cases (isJupyterOrg : string -> bool)
    (new_RegExp : string -> completion (string -> bool)) (env : Env)
    (a : Action) (entry : IEntry.t) (w : World) :
  let run := perform isJupyterOrg new_RegExp env a entry in
  existsb is_makeRequest_POST (emitted_by run w) = false
  \/ exists w0 before callback,
       this w0 = this w
       /\ log w0 = log w ++ before
       /\ existsb is_makeRequest_GET before = false
       /\ ends_in_update isJupyterOrg env callback
       /\ snd (run w) = snd (chained env (Action_toString a) entry callback w0).
Proof.
  assert (Direct : forall cmd callback (c : M (completion unit)),
    ends_in_update isJupyterOrg env callback ->
    c = (data <- _performAction env cmd entry ;;
         then_ data callback ;;; ret (Returned tt)) ->
    exists w0 before callback,
       this w0 = this w
       /\ log w0 = log w ++ before
       /\ existsb is_makeRequest_GET before = false
       /\ ends_in_update isJupyterOrg env callback
       /\ snd (c w) = snd (chained env cmd entry callback w0)).
  { intros cmd callback c Hcb ->.
    exists w, [], callback. rewrite app_nil_r.
    repeat (split; [auto; fail|]).
    unfold chained, bind.
    destruct (_performAction env cmd entry w) as [data w1].
    destruct (then_ data callback w1) as [[] w2]. reflexivity. }
  assert (Threw : forall (c : M (completion unit)) reason,
    c w = (Thrown reason, w) ->
    existsb is_makeRequest_POST (emitted_by c w) = false).
  { intros c reason H. rewrite (emitted_by_unchanged c w _ H). reflexivity. }
  cbv zeta. destruct a; simpl.
  - unfold install. destruct (IEntry.installed entry).
    + right. eapply Direct; [apply ends_in_update_install | reflexivity].
    + destruct (checkCompanionPackages_run new_RegExp env entry w)
        as (Hthis & before & Hlog & Hget & Hpost).
      unfold emitted_by, bind. cbv beta.
      destruct (checkCompanionPackages new_RegExp env entry w)
        as [shouldInstall w0].
      simpl in Hthis, Hlog.
      destruct shouldInstall as [[|]|reason]; simpl.
      * right. exists w0, before, (install_then isJupyterOrg env entry).
        repeat (split; [auto using ends_in_update_install; fail|]).
        unfold chained, bind.
        destruct (_performAction env "install" entry w0) as [data w1].
        destruct (then_ data _ w1) as [[] w2]. reflexivity.
      * left. rewrite Hlog, skipn_length_app. exact Hpost.
      * left. rewrite Hlog, skipn_length_app. exact Hpost.
  - unfold uninstall. destruct (IEntry.installed entry); simpl.
    + right. eapply Direct; [apply ends_in_update_plain | reflexivity].
    + left. eapply Threw. reflexivity.
  - unfold enable. destruct (IEntry.enabled entry); simpl.
    + left. eapply Threw. reflexivity.
    + right. eapply Direct; [apply ends_in_update_plain | reflexivity].
  - unfold disable. destruct (IEntry.enabled entry); simpl.
    + right. eapply Direct; [apply ends_in_update_plain | reflexivity].
    + left. eapply Threw. reflexivity.
Qed.

(** C1, counterexample.  The pass is not re-run when the action request
    fails: uninstalling an installed extension against a server that answers
    HTTP 500 ends with the request and the two signals of the tracker, and
    no installed query. *)
Lemma uninstall_server_error_no_pass :
  let run := uninstall Sample.isJupyterOrg Sample.env_server_down Sample.a in
  emitted_by run Sample.searching
  = [makeRequest_POST "uninstall" "a"; stateChanged_emit; stateChanged_emit]
  /\ action_reply Sample.env_server_down "uninstall" "a"
     = Rejected "Error: 500 (Internal Server Error)"
  /\ ~ reconciled_after "uninstall" "a" (emitted_by run Sample.searching).
Proof.
  cbv zeta.
  assert (E : emitted_by
                (uninstall Sample.isJupyterOrg Sample.env_server_down Sample.a)
                Sample.searching
              = [makeRequest_POST "uninstall" "a"; stateChanged_emit;
                 stateChanged_emit]) by reflexivity.
  split; [exact E | split; [reflexivity|]].
  rewrite E. intros (before & after & refresh & Heq & Hin).
  assert (Hall : In (makeRequest_GET refresh)
                    [makeRequest_POST "uninstall" "a"; stateChanged_emit;
                     stateChanged_emit]).
  { rewrite Heq. apply in_or_app. right. right. exact Hin. }
  simpl in Hall. destruct Hall as [H|[H|[H|[]]]]; discriminate H.
Qed.

(** C1 (amended).  For each of install, uninstall, enable and disable, once
    the action request has been made: if its promise is fulfilled (a 2xx
    response whose body parses, whatever status the reply reports), a
    reconciliation pass is run afterwards and the model ends as that pass
    leaves it; if the promise is rejected, the reason is put in the
    server-connection slot, the published views stay as they were, and the
    log shows no installed query at all. *)
Theorem action_then_update
    (isJupyterOrg : string -> bool) (new_RegExp : string -> completion (string -> bool))
    (env : Env) (a : Action) (entry : IEntry.t) (w : World) :
  let run := perform isJupyterOrg new_RegExp env a entry in
  let cmd := Action_toString a in
  let name := IEntry.name entry in
  In (makeRequest_POST cmd name) (emitted_by run w) ->
  (forall data,
      action_reply env cmd name = Fulfilled data ->
      reconciled_after cmd name (emitted_by run w)
      /\ exists w1, snd (run w) = snd (update isJupyterOrg env false w1))
  /\
  (forall reason,
      action_reply env cmd name = Rejected reason ->
      existsb is_makeRequest_GET (emitted_by run w) = false
      /\ _installed (this (snd (run w))) = _installed (this w)
      /\ _searchResult (this (snd (run w))) = _searchResult (this w)
      /\ serverConnectionError (this (snd (run w))) = Some reason).
Proof.
  intros run cmd name Hposted.
  destruct (perform_cases isJupyterOrg new_RegExp env a entry w)
    as [Hnone|(w0 & before & callback & Hthis & Hlog0 & Hget0 & Hcb & Hrun)].
  - apply (existsb_false_In _ _ _ Hnone) in Hposted. discriminate Hposted.
  - fold run in Hrun. fold cmd in Hrun.
    destruct (chained_run isJupyterOrg env cmd entry callback w0 Hcb)
      as (events & Hlog & Hok & Hfail).
    fold name in Hlog, Hok, Hfail.
    assert (Hem : emitted_by run w = before ++ makeRequest_POST cmd name :: events).
    { apply emitted_by_log. rewrite Hrun, Hlog, Hlog0, <- app_assoc. reflexivity. }
    rewrite Hem, Hrun. split.
    + intros data Hdata. destruct (Hok data Hdata) as [Hin Hpass]. split.
      * exists before, events, false. auto.
      * exact Hpass.
    + intros reason Hreason.
      destruct (Hfail reason Hreason) as (Hget & Hi & Hs & Herr).
      rewrite existsb_app. simpl. rewrite Hget0, Hget, Hi, Hs, Hthis. auto.
Qed.

Lemma action_then_update_witness :
  reconciled_after "uninstall" "a"
    (emitted_by (uninstall Sample.isJupyterOrg Sample.env Sample.a) Sample.searching)
  /\ _installed
       (this (snd (uninstall Sample.isJupyterOrg Sample.env_server_down Sample.a
                     Sample.searching)))
     = [].
Proof.
  split.
  - refine (proj1 (proj1 (action_then_update Sample.isJupyterOrg Sample.new_RegExp
              Sample.env uninstall_cmd Sample.a Sample.searching _)
              {| IActionReply.status := Some error;
                 IActionReply.message := Some "build failed"%string |} eq_refl)).
    left. reflexivity.
  - refine (proj1 (proj2 (proj2 (action_then_update Sample.isJupyterOrg
              Sample.new_RegExp Sample.env_server_down uninstall_cmd Sample.a
              Sample.searching _)
              "Error: 500 (Internal Server Error)"%string eq_refl))).
    left. reflexivity.
Defined.

(** * Further properties of the model *)

(** ** Lookup in translated dictionaries *)

(** X1.  Under any key other than "__proto__" a translated dictionary has,
    as own property, the entry built from the last record of the reply that
    carries the name (for the registry: the last one not marked deprecated),
    and none when no record carries it.  A record named "__proto__" creates
    no property: the entry built from the last such record becomes the
    prototype of the dictionary.  A lookup gives the own property, or else
    what the prototype chain gives. *)
Theorem translation_lookup_last_wins :
  (forall pkgs key,
      let last name :=
        option_map installed_entry
          (find (fun pkg => String.eqb (IInstalledEntry.name pkg) name) (rev pkgs)) in
      exists installedMap,
        translateInstalled (Fulfilled pkgs) = Fulfilled installedMap
        /\ own_property key (own installedMap)
           = (if String.eqb key "__proto__" then None else last key)
        /\ prototype installedMap = last "__proto__"
        /\ get key installedMap
           = match (if String.eqb key "__proto__" then None else last key) with
             | Some e => js_entry e
             | None => inherited key (last "__proto__")
             end)
  /\
  (forall res key,
      let last name :=
        option_map search_entry
          (find (fun pkg => String.eqb (ISearchResult.name pkg) name)
                (rev (maintained res))) in
      exists searchMap,
        translateSearchResult (Fulfilled res) = Fulfilled searchMap
        /\ own_property key (own searchMap)
           = (if String.eqb key "__proto__" then None else last key)
        /\ prototype searchMap = last "__proto__"
        /\ get key searchMap
           = match (if String.eqb key "__proto__" then None else last key) with
             | Some e => js_entry e
             | None => inherited key (last "__proto__")
             end).
Proof.
  split.
  - intros pkgs key last. eexists. split; [reflexivity|].
    assert (Hown : own_property key
                     (own (fold_left
                             (fun entries pkg =>
                                set (IInstalledEntry.name pkg) (installed_entry pkg)
                                  entries)
                             pkgs empty_object))
                   = (if String.eqb key "__proto__" then None else last key)).
    { rewrite (fold_set_own_property _ IInstalledEntry.name installed_entry).
      unfold last. destruct (String.eqb key "__proto__"); [reflexivity|].
      destruct (find _ (rev pkgs)); reflexivity. }
    assert (Hproto : prototype
                       (fold_left
                          (fun entries pkg =>
                             set (IInstalledEntry.name pkg) (installed_entry pkg)
                               entries)
                          pkgs empty_object)
                     = last "__proto__").
    { rewrite (fold_set_prototype _ IInstalledEntry.name installed_entry).
      unfold last. destruct (find _ (rev pkgs)); reflexivity. }
    split; [exact Hown|]. split; [exact Hproto|].
    unfold get. rewrite Hown, Hproto. reflexivity.
  - intros res key last. eexists.
    split; [apply translateSearchResult_maintained|].
    assert (Hown : own_property key
                     (own (fold_left
                             (fun entries pkg =>
                                set (ISearchResult.name pkg) (search_entry pkg)
                                  entries)
                             (maintained res) empty_object))
                   = (if String.eqb key "__proto__" then None else last key)).
    { rewrite (fold_set_own_property _ ISearchResult.name search_entry).
      unfold last. destruct (String.eqb key "__proto__"); [reflexivity|].
      destruct (find _ (rev (maintained res))); reflexivity. }
    assert (Hproto : prototype
                       (fold_left
                          (fun entries pkg =>
                             set (ISearchResult.name pkg) (search_entry pkg)
                               entries)
                          (maintained res) empty_object)
                     = last "__proto__").
    { rewrite (fold_set_prototype _ ISearchResult.name search_entry).
      unfold last. destruct (find _ (rev (maintained res))); reflexivity. }
    split; [exact Hown|]. split; [exact Hproto|].
    unfold get. rewrite Hown, Hproto. reflexivity.
Qed.

(** ** What a pass publishes *)

(** X2.  Within the installed view a name occurs once, and the view holds
    the entries of the installed map.  The search view that a pass publishes
    holds one element under each key of the search map, namely what the pass
    pushed for the key, and its entries have pairwise distinct names. *)
Theorem update_views_distinct_names
    (isJupyterOrg : string -> bool) (env : Env) (refreshInstalled : bool) (w : World) :
  let w' := snd (update isJupyterOrg env refreshInstalled w) in
  NoDup (map IEntry.name (_installed (this w')))
  /\ Permutation (_installed (this w'))
       (values (pass_installedMap env refreshInstalled w))
  /\ (forall searchResult,
        pass_searchResult isJupyterOrg env refreshInstalled w
        = Returned searchResult ->
        _searchResult (this w') = searchResult
        /\ NoDup (map IEntry.name (entries_of searchResult))
        /\ length searchResult = length (keys (pass_searchMap env w))
        /\ Permutation searchResult
             (merge (pass_searchMap env w)
                    (pass_installedMap env refreshInstalled w))).
Proof.
  cbv zeta. rewrite update_installed.
  assert (Ks := pass_searchMap_keyed env w).
  assert (Ki := pass_installedMap_keyed env refreshInstalled w).
  assert (Pi := sort_comparator_Permutation isJupyterOrg
                  (values (pass_installedMap env refreshInstalled w))).
  split; [|split].
  - apply (Permutation_NoDup
             (l := map IEntry.name
                     (values (pass_installedMap env refreshInstalled w)))).
    + apply Permutation_map, Permutation_sym. exact Pi.
    + rewrite values_names by exact Ki. apply keys_NoDup. exact Ki.
  - exact Pi.
  - intros searchResult Hview.
    assert (Hpub := update_searchResult isJupyterOrg env refreshInstalled w
                      searchResult Hview).
    unfold pass_searchResult in Hview.
    apply sort_completion_partition in Hview.
    assert (Ps : Permutation searchResult
                   (merge (pass_searchMap env w)
                          (pass_installedMap env refreshInstalled w))).
    { rewrite Hview. apply partition_Permutation. }
    split; [exact Hpub|]. split; [|split; [|exact Ps]].
    + apply (Permutation_NoDup
               (l := map IEntry.name
                       (entries_of (merge (pass_searchMap env w)
                                      (pass_installedMap env refreshInstalled w))))).
      * apply Permutation_map, entries_of_Permutation, Permutation_sym. exact Ps.
      * apply merge_entries_NoDup; assumption.
    + rewrite (Permutation_length Ps), merge_length.
      unfold keys. rewrite length_map, length_enumerate. reflexivity.
Qed.

Lemma update_views_distinct_names_witness :
  length
    (_searchResult
       (this (snd (update Sample.isJupyterOrg Sample.env_constructor false
                     Sample.searching))))
  = 2%nat.
Proof.
  destruct (proj2 (proj2 (update_views_distinct_names Sample.isJupyterOrg
                            Sample.env_constructor false Sample.searching))
              _ eq_refl) as (Hview & _ & Hlen & _).
  rewrite Hview, Hlen. reflexivity.
Defined.

(** X3.  An entry never shows in the search view that a pass publishes
    unless the registry's reply lists its name at least once without the
    keyword deprecated. *)
Theorem searchResult_never_deprecated
    (isJupyterOrg : string -> bool) (env : Env) (refreshInstalled : bool)
    (w : World) (query : string) (res : ISearchResult.t)
    (searchResult : list value) (e : IEntry.t) :
  _query (this w) = Some query ->
  searcher_searchExtensions env query (_page (this w)) (_pagination (this w))
  = Fulfilled res ->
  pass_searchResult isJupyterOrg env refreshInstalled w = Returned searchResult ->
  _searchResult (this (snd (update isJupyterOrg env refreshInstalled w)))
  = searchResult
  /\ (In (js_entry e) searchResult ->
      exists obj,
        In obj (ISearchResult.objects res)
        /\ ISearchResult.name (ISearchResult.package obj) = IEntry.name e
        /\ is_deprecated (ISearchResult.package obj) = false).
Proof.
  intros Hq Hs Hview.
  split; [exact (update_searchResult isJupyterOrg env refreshInstalled w _ Hview)|].
  intros He.
  unfold pass_searchResult in Hview. apply sort_completion_partition in Hview.
  assert (Ks := pass_searchMap_keyed env w).
  assert (Ki := pass_installedMap_keyed env refreshInstalled w).
  rewrite Hview in He.
  apply (Permutation_in _ (partition_Permutation _ _)) in He.
  unfold merge in He. apply in_map_iff in He.
  destruct He as ([k s] & Hpush & Hkv).
  destruct (In_own_keys _ (k, s) Ks Hkv) as [Hp Hn]. simpl in Hp, Hn.
  destruct (pushed_entry _ k s e Ki Hp Hn Hpush) as [E _].
  apply (proj1 (In_enumerate _ _)) in Hkv.
  apply (In_own_property _ _ _ (proj1 Ks)) in Hkv.
  assert (Ht := pass_searchMap_fulfilled env w query res Hq Hs).
  rewrite translateSearchResult_maintained in Ht. inversion Ht as [Hm]. clear Ht.
  rewrite <- Hm in Hkv.
  rewrite (fold_set_own_property _ ISearchResult.name search_entry) in Hkv.
  destruct (String.eqb_spec k "__proto__") as [P|_]; [contradiction|].
  destruct (find _ (rev (maintained res))) as [pkg|] eqn:Hfind; [|discriminate].
  apply find_some in Hfind. destruct Hfind as [Hpkg Hname].
  apply in_rev in Hpkg. apply maintained_In in Hpkg.
  destruct Hpkg as [(obj & Hobj & <-) Hdep].
  exists obj. split; [exact Hobj | split; [|exact Hdep]].
  rewrite E. apply String.eqb_eq. exact Hname.
Qed.

Lemma searchResult_never_deprecated_witness :
  exists obj,
    In obj [Sample.found "b" []; Sample.found "@jupyterlab/x" [];
            Sample.found "a" []; Sample.found "old" ["deprecated"%string]]
    /\ ISearchResult.name (ISearchResult.package obj) = "b"%string
    /\ is_deprecated (ISearchResult.package obj) = false.
Proof.
  apply (proj2 (searchResult_never_deprecated Sample.isJupyterOrg Sample.env false
                  Sample.searching "lab"%string _ _ Sample.b
                  eq_refl eq_refl eq_refl)).
  right. left. reflexivity.
Defined.

Lemma update_installedError (isJupyterOrg : string -> bool) (env : Env)
    (refreshInstalled : bool) (w : World) :
  let request := installed_request env refreshInstalled in
  let w' := snd (update isJupyterOrg env refreshInstalled w) in
  installedError (this w')
  = match request with Fulfilled _ => None | Rejected reason => Some reason end
  /\ serverConnectionError (this w')
     = match request with Fulfilled _ => None | Rejected reason => Some reason end.
Proof.
  cbv zeta. rewrite update_run. cbv zeta.
  assert (H : let w2 := snd (queryInstalled env refreshInstalled
                               (snd (performSearch env w))) in
              installedError (this w2)
              = match installed_request env refreshInstalled with
                | Fulfilled _ => None
                | Rejected reason => Some reason
                end
              /\ serverConnectionError (this w2)
                 = match installed_request env refreshInstalled with
                   | Fulfilled _ => None
                   | Rejected reason => Some reason
                   end).
  { unfold installed_request, queryInstalled, fetchInstalled. run_M.
    destruct (performSearch env w) as [searchMap w1]. simpl.
    destruct (makeRequest_extensions env refreshInstalled) as [response|reason];
      simpl; auto.
    destruct (Private.handleError response) as [response'|reason]; simpl; auto.
    destruct (Response.json response'); simpl; auto. }
  destruct (pass_searchResult isJupyterOrg env refreshInstalled w); exact H.
Qed.

(** X4.  The installed view and the two slots of the installed query are
    decided by the server's answer alone: two passes whose installed
    requests are answered alike publish the same installed view, whatever
    the query, the registry and the model before. *)
Theorem installed_view_ignores_search
    (isJupyterOrg : string -> bool) (env1 env2 : Env) (refreshInstalled : bool)
    (w1 w2 : World) :
  makeRequest_extensions env1 refreshInstalled
  = makeRequest_extensions env2 refreshInstalled ->
  let m1 := this (snd (update isJupyterOrg env1 refreshInstalled w1)) in
  let m2 := this (snd (update isJupyterOrg env2 refreshInstalled w2)) in
  _installed m1 = _installed m2
  /\ installedError m1 = installedError m2
  /\ serverConnectionError m1 = serverConnectionError m2.
Proof.
  intros H. cbv zeta.
  destruct (update_installedError isJupyterOrg env1 refreshInstalled w1) as [E1 S1].
  destruct (update_installedError isJupyterOrg env2 refreshInstalled w2) as [E2 S2].
  rewrite E1, E2, S1, S2, !update_installed, !pass_installedMap_request.
  unfold installedMap_of, installed_request. rewrite H. auto.
Qed.

Lemma installed_view_ignores_search_witness :
  _installed
    (this (snd (update Sample.isJupyterOrg Sample.env false Sample.idle)))
  = _installed
      (this (snd (update Sample.isJupyterOrg Sample.env_registry_down false
                    Sample.searching))).
Proof.
  apply (installed_view_ignores_search Sample.isJupyterOrg Sample.env
           Sample.env_registry_down false Sample.idle Sample.searching eq_refl).
Defined.

(** Against the literal [{}] a key is taken for an installed one exactly
    when it names a member of [Object.prototype]. *)
Lemma merge_nothing_installed (searchMap : dictionary) :
  (forall key, In key (keys searchMap) ->
               Object_prototype key js_Object_prototype = js_undefined) ->
  merge searchMap empty_object = map js_entry (values searchMap).
Proof.
  intros H. unfold merge, values. rewrite map_map.
  apply map_ext_in. intros [k e] Hin. unfold pushed, get, inherited. simpl.
  rewrite H; [reflexivity|].
  unfold keys. change k with (fst (k, e)). apply in_map. exact Hin.
Qed.

Lemma filter_map_entry (f : IEntry.t -> bool) (g : value -> bool)
    (l : list IEntry.t) :
  (forall e, g (js_entry e) = f e) ->
  filter g (map js_entry l) = map js_entry (filter f l).
Proof.
  intros H. induction l as [|e l IH]; simpl; [reflexivity|].
  rewrite H. destruct (f e); simpl; rewrite IH; reflexivity.
Qed.

(** X5.  When the installed query fails (no answer, a response that is not
    2xx, or a body that does not parse) the pass publishes an empty
    installed view, records the reason, and always publishes a search view;
    provided no key of the search map names a member of [Object.prototype],
    that view shows the search entries as the registry gave them, none
    replaced. *)
Theorem update_server_failure
    (isJupyterOrg : string -> bool) (env : Env) (refreshInstalled : bool)
    (w : World) (reason : string) :
  installed_request env refreshInstalled = Rejected reason ->
  let w' := snd (update isJupyterOrg env refreshInstalled w) in
  _installed (this w') = []
  /\ installedError (this w') = Some reason
  /\ pass_searchResult isJupyterOrg env refreshInstalled w
     = Returned (_searchResult (this w'))
  /\ ((forall key, In key (keys (pass_searchMap env w)) ->
                   Object_prototype key js_Object_prototype = js_undefined) ->
      _searchResult (this w')
      = map js_entry
          (sort (Private.comparator isJupyterOrg) (values (pass_searchMap env w)))).
Proof.
  intros H. cbv zeta.
  destruct (update_installedError isJupyterOrg env refreshInstalled w) as [E _].
  assert (Hmap : pass_installedMap env refreshInstalled w = empty_object).
  { rewrite pass_installedMap_request. unfold installedMap_of. rewrite H.
    reflexivity. }
  assert (Hsort : pass_searchResult isJupyterOrg env refreshInstalled w
                  = Returned
                      (filter (trusted_value isJupyterOrg env)
                         (merge (pass_searchMap env w) empty_object)
                       ++ filter (fun v => negb (trusted_value isJupyterOrg env v))
                            (merge (pass_searchMap env w) empty_object))).
  { unfold pass_searchResult. rewrite Hmap. apply sort_completion_named.
    apply merge_named; [apply pass_searchMap_keyed | reflexivity]. }
  rewrite E, update_installed, Hmap, H.
  rewrite (update_searchResult isJupyterOrg env refreshInstalled w _ Hsort).
  split; [reflexivity|]. split; [reflexivity|]. split; [exact Hsort|].
  intros Hplain.
  rewrite (merge_nothing_installed _ Hplain), sort_comparator.
  rewrite map_app.
  rewrite (filter_map_entry (trusted isJupyterOrg)) by reflexivity.
  rewrite (filter_map_entry (fun e => negb (trusted isJupyterOrg e)))
    by reflexivity.
  reflexivity.
Qed.

Lemma update_server_failure_witness :
  _searchResult
    (this (snd (update Sample.isJupyterOrg Sample.env_server_down false
                  Sample.searching)))
  = map js_entry
      [search_entry (ISearchResult.package (Sample.found "@jupyterlab/x" []));
       Sample.b;
       search_entry (ISearchResult.package (Sample.found "a" []))]
  /\ _installed
       (this (snd (update Sample.isJupyterOrg Sample.env_server_down false
                     Sample.searching))) = [].
Proof.
  destruct (update_server_failure Sample.isJupyterOrg Sample.env_server_down false
              Sample.searching "Error: 500 (Internal Server Error)"%string eq_refl)
    as (Hi & _ & _ & Hs).
  split; [|exact Hi].
  rewrite Hs; [reflexivity|].
  intros key [<-|[<-|[<-|[]]]]; reflexivity.
Defined.

Lemma merge_nothing_found (installedMap : dictionary) :
  merge empty_object installedMap = [].
Proof.
  reflexivity.
Qed.

(** X6.  When the search fails the pass publishes an empty search view with
    a total of 0 and records the reason, while the installed view is
    published from the server's answer as usual. *)
Theorem update_search_failure
    (isJupyterOrg : string -> bool) (env : Env) (refreshInstalled : bool)
    (w : World) (query reason : string) :
  _query (this w) = Some query ->
  searcher_searchExtensions env query (_page (this w)) (_pagination (this w))
  = Rejected reason ->
  let w' := snd (update isJupyterOrg env refreshInstalled w) in
  _searchResult (this w') = []
  /\ _totalEntries (this w') = 0
  /\ searchError (this w') = Some reason
  /\ _installed (this w')
     = sort (Private.comparator isJupyterOrg)
         (values (pass_installedMap env refreshInstalled w)).
Proof.
  intros Hq Hs. cbv zeta.
  assert (Hview : pass_searchResult isJupyterOrg env refreshInstalled w
                  = Returned []).
  { unfold pass_searchResult.
    rewrite (pass_searchMap_unavailable env w)
      by (right; exists query, reason; auto).
    reflexivity. }
  rewrite update_installed.
  rewrite (update_searchResult isJupyterOrg env refreshInstalled w _ Hview).
  split; [reflexivity|]. split; [|split; [|reflexivity]].
  - rewrite update_run. cbv zeta. rewrite Hview.
    unfold performSearch, queryInstalled, fetchInstalled. run_M.
    rewrite Hq. simpl. rewrite Hs. simpl.
    settle_channels env refreshInstalled; reflexivity.
  - rewrite update_run. cbv zeta. rewrite Hview.
    unfold performSearch, queryInstalled, fetchInstalled. run_M.
    rewrite Hq. simpl. rewrite Hs. simpl.
    settle_channels env refreshInstalled; reflexivity.
Qed.

Lemma update_search_failure_witness :
  _searchResult
    (this (snd (update Sample.isJupyterOrg Sample.env_registry_down false
                  Sample.searching))) = []
  /\ map IEntry.name
       (_installed
          (this (snd (update Sample.isJupyterOrg Sample.env_registry_down false
                        Sample.searching))))
     = ["@jupyterlab/y"; "a"]%string.
Proof.
  destruct (update_search_failure Sample.isJupyterOrg Sample.env_registry_down
              false Sample.searching "lab"%string
              "TypeError: Failed to fetch"%string eq_refl eq_refl)
    as (Hs & _ & _ & Hi).
  split; [exact Hs | rewrite Hi; reflexivity].
Defined.

(** A pass leaves the fields it does not own as they are. *)
Lemma channels_frame (env : Env) (refreshInstalled : bool) (w : World) :
  let w2 := snd (queryInstalled env refreshInstalled (snd (performSearch env w))) in
  _query (this w2) = _query (this w)
  /\ _page (this w2) = _page (this w)
  /\ _pagination (this w2) = _pagination (this w)
  /\ promptBuild (this w2) = promptBuild (this w)
  /\ initialized (this w2) = initialized (this w)
  /\ _pendingActions (this w2) = _pendingActions (this w)
  /\ allocated w2 = allocated w.
Proof.
  unfold performSearch, queryInstalled, fetchInstalled. run_M.
  destruct (_query (this w)) as [query|] eqn:Hq; simpl;
    settle_channels env refreshInstalled; rewrite ?Hq; repeat split; reflexivity.
Qed.

(** X7.  A pass leaves alone what it does not own: the query, the page and
    the page size, the build prompt, the initialisation flag, the pending
    actions and the promises handed out. *)
Theorem update_frame
    (isJupyterOrg : string -> bool) (env : Env) (refreshInstalled : bool) (w : World) :
  let w' := snd (update isJupyterOrg env refreshInstalled w) in
  _query (this w') = _query (this w)
  /\ _page (this w') = _page (this w)
  /\ _pagination (this w') = _pagination (this w)
  /\ promptBuild (this w') = promptBuild (this w)
  /\ initialized (this w') = initialized (this w)
  /\ _pendingActions (this w') = _pendingActions (this w)
  /\ allocated w' = allocated w.
Proof.
  cbv zeta. rewrite update_run. cbv zeta.
  destruct (pass_searchResult isJupyterOrg env refreshInstalled w);
    exact (channels_frame env refreshInstalled w).
Qed.

(** The model after the two channels have settled. *)
Lemma channels_model (env : Env) (refreshInstalled : bool) (w : World) :
  let failure (request : settled (list IInstalledEntry.t)) :=
    match request with
    | Fulfilled _ => None
    | Rejected reason => Some reason
    end in
  let search :=
    match _query (this w) with
    | Some query =>
        Some (searcher_searchExtensions env query (_page (this w))
                (_pagination (this w)))
    | None => None
    end in
  this (snd (queryInstalled env refreshInstalled (snd (performSearch env w))))
  = {| _installed := _installed (this w);
       _searchResult :=
         match _query (this w) with
         | Some _ => _searchResult (this w)
         | None => []
         end;
       _query := _query (this w);
       _page := _page (this w);
       _pagination := _pagination (this w);
       _totalEntries :=
         match search with
         | Some (Fulfilled res) => ISearchResult.total res
         | _ => 0
         end;
       installedError := failure (installed_request env refreshInstalled);
       searchError :=
         match search with
         | Some (Rejected reason) => Some reason
         | _ => None
         end;
       serverConnectionError := failure (installed_request env refreshInstalled);
       initialized := initialized (this w);
       promptBuild := promptBuild (this w);
       _pendingActions := _pendingActions (this w) |}.
Proof.
  destruct w as [[installed searchResult [query|] page pagination total
                    installedErr searchErr connectionErr init prompt pending]
                   events count];
    unfold installed_request, performSearch, queryInstalled, fetchInstalled;
    run_M; settle_channels env refreshInstalled; reflexivity.
Qed.

Lemma update_publishes (isJupyterOrg : string -> bool) (env : Env)
    (refreshInstalled : bool) (w : World) :
  this (snd (update isJupyterOrg env refreshInstalled w))
  = published isJupyterOrg env refreshInstalled (this w).
Proof.
  rewrite update_run. cbv zeta.
  rewrite pass_searchResult_model, pass_installedMap_request.
  unfold published.
  destruct (searchResult_of isJupyterOrg env refreshInstalled (this w));
    cbn [this snd]; rewrite channels_model; reflexivity.
Qed.

(** X8.  A pass is idempotent: with the collaborators answering as before,
    a second pass leaves every field of the model as the first one did. *)
Theorem update_idempotent
    (isJupyterOrg : string -> bool) (env : Env) (refreshInstalled : bool) (w : World) :
  this (snd (update isJupyterOrg env refreshInstalled
               (snd (update isJupyterOrg env refreshInstalled w))))
  = this (snd (update isJupyterOrg env refreshInstalled w)).
Proof.
  rewrite (update_publishes isJupyterOrg env refreshInstalled
             (snd (update isJupyterOrg env refreshInstalled w))).
  rewrite update_publishes.
  generalize (this w). intros m.
  assert (Hq : _query (published isJupyterOrg env refreshInstalled m) = _query m)
    by reflexivity.
  assert (Hp : _page (published isJupyterOrg env refreshInstalled m) = _page m)
    by reflexivity.
  assert (Hn : _pagination (published isJupyterOrg env refreshInstalled m)
               = _pagination m) by reflexivity.
  assert (Hi : initialized (published isJupyterOrg env refreshInstalled m)
               = initialized m) by reflexivity.
  assert (Hb : promptBuild (published isJupyterOrg env refreshInstalled m)
               = promptBuild m) by reflexivity.
  assert (Ha : _pendingActions (published isJupyterOrg env refreshInstalled m)
               = _pendingActions m) by reflexivity.
  assert (Hv : searchResult_of isJupyterOrg env refreshInstalled
                 (published isJupyterOrg env refreshInstalled m)
               = searchResult_of isJupyterOrg env refreshInstalled m).
  { unfold searchResult_of, searchMap_of. rewrite Hq, Hp, Hn. reflexivity. }
  assert (Hs : _searchResult (published isJupyterOrg env refreshInstalled m)
               = match searchResult_of isJupyterOrg env refreshInstalled m with
                 | Returned searchResult => searchResult
                 | Thrown _ =>
                     match _query m with
                     | Some _ => _searchResult m
                     | None => []
                     end
                 end) by reflexivity.
  unfold published at 1. rewrite Hv, Hq, Hp, Hn, Hi, Hb, Ha, Hs.
  unfold published.
  destruct (searchResult_of isJupyterOrg env refreshInstalled m);
    [reflexivity|].
  destruct (_query m); reflexivity.
Qed.

(** X9.  The effects of a pass, in order: the search request when the query
    is not null, the installed query carrying the refresh flag, and, at the
    very end, one change signal when the search view could be sorted, and
    none when the comparator threw. *)
Theorem update_events
    (isJupyterOrg : string -> bool) (env : Env) (refreshInstalled : bool) (w : World) :
  emitted_by (update isJupyterOrg env refreshInstalled) w
  = match _query (this w) with
    | Some query =>
        [searchExtensions_call query (_page (this w)) (_pagination (this w))]
    | None => []
    end
    ++ [makeRequest_GET refreshInstalled]
    ++ match pass_searchResult isJupyterOrg env refreshInstalled w with
       | Returned _ => [stateChanged_emit]
       | Thrown _ => []
       end.
Proof.
  apply emitted_by_log. rewrite update_log_exact.
  unfold pass_events, publishes. rewrite pass_searchResult_model.
  destruct (searchResult_of isJupyterOrg env refreshInstalled (this w));
    reflexivity.
Qed.

(** With [Object.prototype] in the place of the installed map's prototype
    (no record of the server is named "__proto__") the search view can
    always be sorted. *)
Lemma pass_searchResult_returned (isJupyterOrg : string -> bool) (env : Env)
    (refreshInstalled : bool) (w : World) :
  prototype (pass_installedMap env refreshInstalled w) = None ->
  exists searchResult,
    pass_searchResult isJupyterOrg env refreshInstalled w = Returned searchResult.
Proof.
  intros H. eexists. unfold pass_searchResult. apply sort_completion_named.
  apply merge_named; [apply pass_searchMap_keyed | exact H].
Qed.

(** X10.  After a successful search the total is the number the registry
    reports, deprecated packages included, while the search view that the
    pass publishes holds at most one element per package that is not
    deprecated, and exactly one when their names are distinct and none is
    "__proto__". *)
Theorem update_search_totals
    (isJupyterOrg : string -> bool) (env : Env) (refreshInstalled : bool)
    (w : World) (query : string) (res : ISearchResult.t) :
  _query (this w) = Some query ->
  searcher_searchExtensions env query (_page (this w)) (_pagination (this w))
  = Fulfilled res ->
  let w' := snd (update isJupyterOrg env refreshInstalled w) in
  _totalEntries (this w') = ISearchResult.total res
  /\ searchError (this w') = None
  /\ (forall searchResult,
        pass_searchResult isJupyterOrg env refreshInstalled w
        = Returned searchResult ->
        _searchResult (this w') = searchResult
        /\ (length searchResult <= length (maintained res))%nat
        /\ (NoDup (map ISearchResult.name (maintained res)) ->
            ~ In "__proto__" (map ISearchResult.name (maintained res)) ->
            length searchResult = length (maintained res))).
Proof.
  intros Hq Hs. cbv zeta.
  assert (Ht := pass_searchMap_fulfilled env w query res Hq Hs).
  rewrite translateSearchResult_maintained in Ht. inversion Ht as [Hm]. clear Ht.
  rewrite update_publishes. unfold published. simpl.
  rewrite Hq, Hs.
  split; [reflexivity|]. split; [reflexivity|].
  intros searchResult Hview.
  rewrite <- pass_searchResult_model, Hview.
  split; [reflexivity|].
  unfold pass_searchResult in Hview. apply sort_completion_partition in Hview.
  assert (Hlen : length searchResult = length (own (pass_searchMap env w))).
  { rewrite Hview.
    rewrite (Permutation_length (partition_Permutation _ _)).
    apply merge_length. }
  rewrite Hlen, <- Hm. split.
  - apply (fold_set_length _ ISearchResult.name search_entry (maintained res)
             empty_object).
  - intros Hnd Hp.
    rewrite (fold_set_distinct _ ISearchResult.name search_entry)
      by assumption.
    simpl. apply length_map.
Qed.

Lemma update_search_totals_witness :
  _totalEntries
    (this (snd (update Sample.isJupyterOrg Sample.env false Sample.searching))) = 4
  /\ length
       (_searchResult
          (this (snd (update Sample.isJupyterOrg Sample.env false Sample.searching))))
     = 3%nat.
Proof.
  destruct (update_search_totals Sample.isJupyterOrg Sample.env false
              Sample.searching "lab"%string _ eq_refl eq_refl)
    as (Ht & _ & Hl).
  split; [exact Ht|].
  destruct (Hl _ eq_refl) as (Hview & _ & Hlen).
  rewrite Hview, Hlen; [reflexivity| |].
  - repeat constructor; simpl; intuition discriminate.
  - simpl. intuition discriminate.
Defined.

(** A package of the registry named "__proto__" creates no key of the
    search map: the search view then holds fewer elements than the reply has
    packages that are not deprecated, although their names are distinct. *)
Lemma update_search_proto_no_key :
  let objects := [Sample.found "__proto__" []; Sample.found "b" []] in
  let env := Sample.answering objects [] Sample.widgets in
  _searchResult (this (snd (update Sample.isJupyterOrg env false Sample.searching)))
  = [js_entry Sample.b]
  /\ length (maintained {| ISearchResult.objects := objects;
                           ISearchResult.total := 2 |}) = 2%nat
  /\ prototype (pass_searchMap env Sample.searching)
     = Some (search_entry (ISearchResult.package (Sample.found "__proto__" []))).
Proof.
  cbv zeta. split; [reflexivity|]. split; reflexivity.
Qed.

(** ** The comparator and the kernel matcher *)

(** X11.  The comparator is a consistent comparison: it is antisymmetric,
    transitive, returns 0 exactly for two entries of the same trust class
    (names break no tie) and a negative number exactly for a trusted entry
    against another one. *)
Theorem comparator_weak_order (isJupyterOrg : string -> bool) :
  let cmp := Private.comparator isJupyterOrg in
  (forall a b, cmp b a = - cmp a b)
  /\ (forall a b c, cmp a b <= 0 -> cmp b c <= 0 -> cmp a c <= 0)
  /\ (forall a b, cmp a b = 0
                  <-> isJupyterOrg (IEntry.name a) = isJupyterOrg (IEntry.name b))
  /\ (forall a b, cmp a b < 0
                  <-> isJupyterOrg (IEntry.name a) = true
                      /\ isJupyterOrg (IEntry.name b) = false).
Proof.
  cbv zeta. split; [|split; [|split]].
  - intros a b. rewrite !comparator_class. unfold trusted.
    destruct (isJupyterOrg (IEntry.name a)), (isJupyterOrg (IEntry.name b));
      reflexivity.
  - intros a b c. rewrite !comparator_class. unfold trusted.
    destruct (isJupyterOrg (IEntry.name a)), (isJupyterOrg (IEntry.name b)),
      (isJupyterOrg (IEntry.name c)); simpl; lia.
  - intros a b. rewrite comparator_class. unfold trusted.
    destruct (isJupyterOrg (IEntry.name a)), (isJupyterOrg (IEntry.name b));
      simpl; split; intros H; try reflexivity; try discriminate H.
  - intros a b. rewrite comparator_class. unfold trusted.
    destruct (isJupyterOrg (IEntry.name a)), (isJupyterOrg (IEntry.name b));
      simpl; split; intros H; try lia; try (destruct H; discriminate); auto.
Qed.


(** X13.  Whenever the kernel companions are computed, every declared
    kernel rule yields one, in the order of the declaration, also when none
    of the available kernels matches it; so with at least one rule declared
    the gate asks, and returns the answer. *)
Theorem checkCompanionPackages_rule_always_presented
    (new_RegExp : string -> completion (string -> bool)) (env : Env)
    (entry : IEntry.t) (w : World)
    (data : Companions.IPackageData) (jupyterlab : Companions.jupyterlab_t)
    (discovery : Companions.discovery_t)
    (rule : Companions.IKernelInstallInfo)
    (rules : list Companions.IKernelInstallInfo)
    (kernelCompanions : list Companions.KernelCompanion) :
  searcher_fetchPackageData env (IEntry.name entry) (IEntry.latest_version entry)
  = Fulfilled (Some data) ->
  Companions.jupyterlab data = Some jupyterlab ->
  Companions.discovery jupyterlab = Some discovery ->
  Companions.kernel discovery = Some (rule :: rules) ->
  kernelCompanions_of new_RegExp env discovery = Returned kernelCompanions ->
  map Companions.kernelInfo kernelCompanions = rule :: rules
  /\ (serviceManager_specs env = None ->
      Forall (fun companion => Companions.kernels companion = []) kernelCompanions)
  /\ fst (checkCompanionPackages new_RegExp env entry w)
     = presentCompanions env kernelCompanions (Companions.server discovery)
  /\ emitted_by (checkCompanionPackages new_RegExp env entry) w
     = [fetchPackageData_call (IEntry.name entry) (IEntry.latest_version entry);
        presentCompanions_call kernelCompanions (Companions.server discovery)].
Proof.
  intros Hfetch Hj Hd Hk Hcomputed.
  assert (Hmap : map Companions.kernelInfo kernelCompanions = rule :: rules).
  { unfold kernelCompanions_of in Hcomputed. rewrite Hk in Hcomputed.
    apply (match_kernels_rules new_RegExp env). exact Hcomputed. }
  split; [exact Hmap | split].
  - intros Hspecs. unfold kernelCompanions_of in Hcomputed.
    rewrite Hk, (match_kernels_no_specs new_RegExp env _ Hspecs) in Hcomputed.
    inversion Hcomputed. apply Forall_forall. intros companion Hin.
    change (In companion
              (map (fun kernelInfo =>
                      {| Companions.kernelInfo := kernelInfo;
                         Companions.kernels := [] |})
                   (rule :: rules))) in Hin.
    apply in_map_iff in Hin. destruct Hin as (info & <- & _). reflexivity.
  - unfold emitted_by, checkCompanionPackages. run_M.
    rewrite Hfetch, Hj, Hd, Hcomputed.
    destruct kernelCompanions as [|kc kcs]; [discriminate Hmap|].
    assert (Hlen : (Z.of_nat (length (kc :: kcs)) <? 1) = false)
      by (apply Z.ltb_ge; simpl length; lia).
    rewrite Hlen. simpl. rewrite <- app_assoc, skipn_length_app. auto.
Qed.

Lemma checkCompanionPackages_rule_always_presented_witness :
  fst (checkCompanionPackages Sample.new_RegExp Sample.env Sample.b Sample.idle)
  = Fulfilled false.
Proof.
  apply (checkCompanionPackages_rule_always_presented Sample.new_RegExp Sample.env
           Sample.b Sample.idle Sample.widgets _ _ _ [] _ eq_refl eq_refl eq_refl
           eq_refl eq_refl).
Defined.

(** ** Updates of translated entries *)

(** X14.  [entryHasUpdate] throws only for an installed entry with a latest
    version whose versions [semver.lt] refuses; in particular an entry taken
    from the registry's reply never has an update and never makes it
    throw. *)
Theorem entryHasUpdate_search_entries
    (semver_lt : string -> string -> option bool) :
  (forall entry reason,
      ListModelStatics.entryHasUpdate semver_lt entry = Thrown reason ->
      IEntry.installed entry = true
      /\ IEntry.latest_version entry <> ""%string
      /\ semver_lt (IEntry.installed_version entry) (IEntry.latest_version entry)
         = None)
  /\
  (forall res searchMap entry,
      translateSearchResult (Fulfilled res) = Fulfilled searchMap ->
      In entry (values searchMap) ->
      ListModelStatics.entryHasUpdate semver_lt entry = Returned false).
Proof.
  split.
  - intros entry reason. unfold ListModelStatics.entryHasUpdate, truthy.
    destruct (IEntry.installed entry); simpl; [|discriminate].
    destruct (String.eqb_spec (IEntry.latest_version entry) "") as [E|E]; simpl;
      [discriminate|].
    destruct (semver_lt _ _); [discriminate|]. auto.
  - intros res searchMap entry Hres Hin.
    destruct (translateSearchResult_values res searchMap entry Hres Hin)
      as (obj & _ & ->).
    reflexivity.
Qed.

Lemma entryHasUpdate_search_entries_witness :
  ListModelStatics.entryHasUpdate Sample.semver_lt Sample.b = Returned false.
Proof.
  apply (proj2 (entryHasUpdate_search_entries Sample.semver_lt)
           {| ISearchResult.objects := [Sample.found "b" []];
              ISearchResult.total := 1 |}
           {| own := [("b"%string, Sample.b)]; prototype := None |}
           Sample.b eq_refl).
  left. reflexivity.
Defined.

(** ** The tracker at its edges *)

Lemma indexOf_absent (p : Promise) (l : list Promise) :
  ~ In p l -> indexOf Nat.eqb p l = -1.
Proof.
  induction l as [|y l IH]; simpl; intros H; [reflexivity|].
  destruct (Nat.eqb_spec y p) as [E|E]; [exfalso; auto|].
  rewrite IH by auto. reflexivity.
Qed.

Lemma splice1_last {A : Type} (l : list A) :
  splice1 (-1) l = removelast l.
Proof.
  destruct l as [|y l] using rev_ind; [reflexivity|].
  unfold splice1. rewrite length_app, removelast_last. simpl length.
  assert (E : (if -1 <? 0
               then Z.max (Z.of_nat (length l + 1) + -1) 0
               else Z.min (-1) (Z.of_nat (length l + 1)))
              = Z.of_nat (length l)).
  { destruct (Z.ltb_spec (-1) 0); lia. }
  rewrite E, Nat2Z.id, firstn_length_app, skipn_past. apply app_nil_r.
Qed.

Lemma remove_fresh (p : Promise) (l : list Promise) :
  ~ In p l -> splice1 (indexOf Nat.eqb p (l ++ [p])) (l ++ [p]) = l.
Proof.
  intros H. rewrite indexOf_first by exact H. rewrite splice1_at.
  apply app_nil_r.
Qed.

(** X15.  Tracking a task that is not tracked yet and letting it settle,
    fulfilled or rejected, brings the model back to where it was, with two
    change signals in between. *)
Theorem pending_round_trip
    (pending : Promise) (outcome : settled unit) (w : World) :
  ~ In pending (_pendingActions (this w)) ->
  let w' := snd ((_addPendingAction pending ;;;
                  _addPendingAction_settled pending outcome) w) in
  this w' = this w
  /\ log w' = log w ++ [stateChanged_emit; stateChanged_emit].
Proof.
  intros H. cbv zeta.
  assert (E : forall w0, _addPendingAction_settled pending outcome w0
                         = remove pending w0) by (destruct outcome; reflexivity).
  unfold bind, _addPendingAction. run_M. rewrite E. unfold remove. run_M.
  rewrite remove_fresh by exact H.
  split; [|rewrite <- app_assoc; reflexivity].
  destruct w as [m events count]. destruct m. reflexivity.
Qed.

Lemma pending_round_trip_witness :
  this (snd ((_addPendingAction 7%nat ;;;
              _addPendingAction_settled 7%nat (Rejected "x" : settled unit))
               Sample.searching))
  = this Sample.searching.
Proof.
  apply (pending_round_trip 7%nat (Rejected "x") Sample.searching).
  intros [].
Defined.

(** X16.  The reaction [remove], run for a promise that is not among the
    pending actions, drops the last pending action instead ([indexOf] gives
    -1 and [splice(-1, 1)] cuts the last element), and signals a change. *)
Theorem remove_untracked_drops_last (pending : Promise) (w : World) :
  ~ In pending (_pendingActions (this w)) ->
  let w' := snd (remove pending w) in
  _pendingActions (this w') = removelast (_pendingActions (this w))
  /\ log w' = log w ++ [stateChanged_emit].
Proof.
  intros H. unfold remove. run_M.
  rewrite indexOf_absent by exact H. rewrite splice1_last. auto.
Qed.

Lemma remove_untracked_drops_last_witness :
  _pendingActions
    (this (snd (remove 5%nat (snd (tracker_run [add_op 1%nat; add_op 2%nat]
                                     Sample.idle)))))
  = [1%nat].
Proof.
  apply (remove_untracked_drops_last 5%nat
           (snd (tracker_run [add_op 1%nat; add_op 2%nat] Sample.idle))).
  simpl. intros [H|[H|[]]]; discriminate H.
Defined.


(** ** The log of an action *)

(** The events of a pass depend on the model through the query, the page
    and the page size only. *)
Lemma pass_events_query (isJupyterOrg : string -> bool) (env : Env)
    (refreshInstalled : bool) (m1 m2 : ListModel) :
  _query m1 = _query m2 -> _page m1 = _page m2 -> _pagination m1 = _pagination m2 ->
  pass_events isJupyterOrg env refreshInstalled m1
  = pass_events isJupyterOrg env refreshInstalled m2.
Proof.
  intros Hq Hp Hn.
  unfold pass_events, publishes, searchResult_of, searchMap_of.
  rewrite Hq, Hp, Hn. reflexivity.
Qed.

Lemma performAction_log (env : Env) (cmd : string) (entry : IEntry.t) (w : World) :
  let w' := snd (_performAction env cmd entry w) in
  log w' = log w ++ action_events env cmd (IEntry.name entry) (promptBuild (this w))
  /\ _query (this w') = _query (this w)
  /\ _page (this w') = _page (this w)
  /\ _pagination (this w') = _pagination (this w).
Proof.
  unfold action_events, response_ok, _performAction, triggerBuildCheck,
    _addPendingAction_settled, _addPendingAction, remove, Private.handleError.
  run_M.
  destruct (makeRequest_action env cmd (IEntry.name entry)) as [response|reason];
    simpl.
  - destruct (Response.ok response); simpl.
    + destruct (builder_isAvailable env && negb (promptBuild (this w))); simpl;
        destruct (Response.json response); simpl;
        repeat (rewrite <- app_assoc; simpl); auto.
    + repeat (rewrite <- app_assoc; simpl); auto.
  - repeat (rewrite <- app_assoc; simpl); auto.
Qed.

Lemma performAction_reply (env : Env) (cmd : string) (entry : IEntry.t) (w : World) :
  fst (_performAction env cmd entry w) = action_reply env cmd (IEntry.name entry).
Proof.
  apply performAction_run.
Qed.

(** The log of an action chained with a callback that runs a pass. *)
Lemma chained_update_log (isJupyterOrg : string -> bool) (env : Env)
    (cmd : string) (entry : IEntry.t) (w : World) :
  log (snd (chained env cmd entry (fun _ => update isJupyterOrg env false) w))
  = log w
    ++ action_events env cmd (IEntry.name entry) (promptBuild (this w))
    ++ match action_reply env cmd (IEntry.name entry) with
       | Fulfilled _ => pass_events isJupyterOrg env false (this w)
       | Rejected _ => []
       end.
Proof.
  unfold chained, bind.
  destruct (performAction_log env cmd entry w) as (Hlog & Hq & Hp & Hn).
  assert (Hr := performAction_reply env cmd entry w).
  destruct (_performAction env cmd entry w) as [data w1]. simpl in *.
  subst data. destruct (action_reply env cmd (IEntry.name entry)) as [data|reason];
    simpl.
  - rewrite update_log_exact, Hlog.
    rewrite (pass_events_query isJupyterOrg env false (this w1) (this w) Hq Hp Hn).
    rewrite <- app_assoc. reflexivity.
  - rewrite app_nil_r. exact Hlog.
Qed.

Lemma chained_install_log (isJupyterOrg : string -> bool) (env : Env)
    (entry : IEntry.t) (w : World) :
  log (snd (chained env "install" entry (install_then isJupyterOrg env entry) w))
  = log w
    ++ action_events env "install" (IEntry.name entry) (promptBuild (this w))
    ++ match action_reply env "install" (IEntry.name entry) with
       | Fulfilled data => report_events entry data ++ pass_events isJupyterOrg env false (this w)
       | Rejected _ => []
       end.
Proof.
  unfold chained, bind.
  destruct (performAction_log env "install" entry w) as (Hlog & Hq & Hp & Hn).
  assert (Hr := performAction_reply env "install" entry w).
  destruct (_performAction env "install" entry w) as [data w1]. simpl in *.
  subst data.
  destruct (action_reply env "install" (IEntry.name entry)) as [data|reason];
    simpl.
  - unfold install_then, report_events, bind.
    destruct (IActionReply.status data) as [[| | |]|]; unfold emit, ret;
      cbn [fst snd]; rewrite update_log_exact; cbn [log this];
      rewrite (pass_events_query isJupyterOrg env false _ (this w) Hq Hp Hn);
      rewrite Hlog; unfold action_events;
      repeat (rewrite <- app_assoc; simpl); reflexivity.
  - rewrite app_nil_r. exact Hlog.
Qed.

Lemma snd_returned {A : Type} (c : M A) (w : World) :
  snd ((c ;;; ret (Returned tt)) w) = snd (c w).
Proof.
  unfold bind, ret. destruct (c w). reflexivity.
Qed.

(** X17.  The effects of [uninstall] on an installed entry, of [enable] on
    a disabled entry and of [disable] on an enabled one, up to the end of the
    pass they chain: the request naming the command and the extension, the
    two signals of the tracker around the start of an optional build check,
    and, only when the reply arrives, one pass.  The methods start the build
    check and do not wait for it: its own reaction (the prompt, and the
    signal that ends its tracking) runs whenever the status arrives, and is
    not among these effects. *)
Theorem simple_actions_log
    (isJupyterOrg : string -> bool) (env : Env) (entry : IEntry.t) (w : World) :
  let expected cmd :=
    action_events env cmd (IEntry.name entry) (promptBuild (this w))
    ++ match action_reply env cmd (IEntry.name entry) with
       | Fulfilled _ => pass_events isJupyterOrg env false (this w)
       | Rejected _ => []
       end in
  (IEntry.installed entry = true ->
   emitted_by (uninstall isJupyterOrg env entry) w = expected "uninstall"%string)
  /\ (IEntry.enabled entry = false ->
      emitted_by (enable isJupyterOrg env entry) w = expected "enable"%string)
  /\ (IEntry.enabled entry = true ->
      emitted_by (disable isJupyterOrg env entry) w = expected "disable"%string).
Proof.
  cbv zeta.
  assert (Shape : forall cmd,
    emitted_by
      (data <- _performAction env cmd entry ;;
       then_ data (fun _ => update isJupyterOrg env false) ;;; ret (Returned tt)) w
    = action_events env cmd (IEntry.name entry) (promptBuild (this w))
      ++ match action_reply env cmd (IEntry.name entry) with
         | Fulfilled _ => pass_events isJupyterOrg env false (this w)
         | Rejected _ => []
         end).
  { intros cmd. apply emitted_by_log.
    rewrite <- (chained_update_log isJupyterOrg env cmd entry w).
    unfold chained, bind.
    destruct (_performAction env cmd entry w) as [data w1].
    destruct (then_ data _ w1) as [[] w2]. reflexivity. }
  split; [|split]; intros H.
  - unfold uninstall. rewrite H. apply Shape.
  - unfold enable. rewrite H. apply Shape.
  - unfold disable. rewrite H. apply Shape.
Qed.

Lemma simple_actions_log_witness :
  emitted_by (uninstall Sample.isJupyterOrg Sample.env Sample.a) Sample.searching
  = [makeRequest_POST "uninstall" "a"; stateChanged_emit; getStatus_call;
     stateChanged_emit; stateChanged_emit;
     searchExtensions_call "lab" 0 250; makeRequest_GET false; stateChanged_emit].
Proof.
  rewrite (proj1 (simple_actions_log Sample.isJupyterOrg Sample.env Sample.a
                    Sample.searching) eq_refl).
  reflexivity.
Defined.

(** The gate fetches the metadata and, at most, presents the companions;
    the model is left as it was. *)
Lemma checkCompanionPackages_log
    (new_RegExp : string -> completion (string -> bool))
    (env : Env) (entry : IEntry.t) (w : World) :
  let w' := snd (checkCompanionPackages new_RegExp env entry w) in
  this w' = this w
  /\ exists events,
       log w' = log w ++ events
       /\ forallb is_gate_call events = true.
Proof.
  exact (checkCompanionPackages_effects new_RegExp env entry w).
Qed.

(** The log of any action method: nothing when it throws; the calls of the
    gate when a fresh install is not approved; otherwise the calls of the
    gate (none for the other methods and for an upgrade), then the action
    and what follows its reply. *)
Lemma perform_log (isJupyterOrg : string -> bool)
    (new_RegExp : string -> completion (string -> bool)) (env : Env)
    (a : Action) (entry : IEntry.t) (w : World) :
  let run := perform isJupyterOrg new_RegExp env a entry in
  let cmd := Action_toString a in
  exists gate,
    forallb is_gate_call gate = true
    /\ (emitted_by run w = gate
        \/ emitted_by run w
           = gate
             ++ action_events env cmd (IEntry.name entry) (promptBuild (this w))
             ++ reply_events isJupyterOrg env a entry (this w)
                  (action_reply env cmd (IEntry.name entry))).
Proof.
  assert (Simple : forall cmd (c : M (completion unit)),
    c = (data <- _performAction env cmd entry ;;
         then_ data (fun _ => update isJupyterOrg env false) ;;;
         ret (Returned tt)) ->
    emitted_by c w
    = action_events env cmd (IEntry.name entry) (promptBuild (this w))
      ++ match action_reply env cmd (IEntry.name entry) with
         | Fulfilled _ => pass_events isJupyterOrg env false (this w)
         | Rejected _ => []
         end).
  { intros cmd c ->. apply emitted_by_log.
    rewrite <- (chained_update_log isJupyterOrg env cmd entry w).
    unfold chained, bind.
    destruct (_performAction env cmd entry w) as [data w1].
    destruct (then_ data _ w1) as [[] w2]. reflexivity. }
  cbv zeta. destruct a; simpl.
  - unfold install. destruct (IEntry.installed entry).
    + exists []. split; [reflexivity|]. right. apply emitted_by_log.
      assert (E : log (snd ((data <- _performAction env "install" entry ;;
                             then_ data (install_then isJupyterOrg env entry) ;;;
                             ret (Returned tt)) w))
                  = log w
                    ++ action_events env "install" (IEntry.name entry)
                         (promptBuild (this w))
                    ++ match action_reply env "install" (IEntry.name entry) with
                       | Fulfilled data =>
                           report_events entry data ++ pass_events isJupyterOrg env false (this w)
                       | Rejected _ => []
                       end).
      { rewrite <- (chained_install_log isJupyterOrg env entry w).
        unfold chained, bind.
        destruct (_performAction env "install" entry w) as [data w1].
        destruct (then_ data _ w1) as [[] w2]. reflexivity. }
      exact E.
    + destruct (checkCompanionPackages_log new_RegExp env entry w)
        as (Hthis & gate & Hlog & Hgate).
      exists gate. split; [exact Hgate|].
      unfold emitted_by, bind. cbv beta.
      destruct (checkCompanionPackages new_RegExp env entry w)
        as [shouldInstall w0].
      simpl in Hthis, Hlog.
      destruct shouldInstall as [[|]|reason]; simpl.
      * right.
        assert (E : log (snd (let (_, w') :=
                                let (a, w') := _performAction env "install" entry w0 in
                                then_ a (install_then isJupyterOrg env entry) w' in
                              ret (Returned tt) w'))
                    = log w0
                      ++ action_events env "install" (IEntry.name entry)
                           (promptBuild (this w0))
                      ++ match action_reply env "install" (IEntry.name entry) with
                         | Fulfilled data =>
                             report_events entry data
                             ++ pass_events isJupyterOrg env false (this w0)
                         | Rejected _ => []
                         end).
        { rewrite <- (chained_install_log isJupyterOrg env entry w0).
          unfold chained, bind.
          destruct (_performAction env "install" entry w0) as [data w1].
          destruct (then_ data _ w1) as [[] w2]. reflexivity. }
        rewrite E, Hlog, Hthis, <- app_assoc, skipn_length_app. reflexivity.
      * left. rewrite Hlog. apply skipn_length_app.
      * left. rewrite Hlog. apply skipn_length_app.
  - unfold uninstall. destruct (IEntry.installed entry); simpl.
    + exists []. split; [reflexivity|]. right. exact (Simple _ _ eq_refl).
    + exists []. split; [reflexivity|]. left.
      eapply emitted_by_unchanged. reflexivity.
  - unfold enable. destruct (IEntry.enabled entry); simpl.
    + exists []. split; [reflexivity|]. left.
      eapply emitted_by_unchanged. reflexivity.
    + exists []. split; [reflexivity|]. right. exact (Simple _ _ eq_refl).
  - unfold disable. destruct (IEntry.enabled entry); simpl.
    + exists []. split; [reflexivity|]. right. exact (Simple _ _ eq_refl).
    + exists []. split; [reflexivity|]. left.
      eapply emitted_by_unchanged. reflexivity.
Qed.

Lemma filter_none {X : Type} (f g : X -> bool) (l : list X) :
  forallb f l = true -> (forall x, f x = true -> g x = false) -> filter g l = [].
Proof.
  intros Hall Hfg. induction l as [|x l IH]; simpl in *; [reflexivity|].
  apply andb_true_iff in Hall. destruct Hall as [Hx Hl].
  rewrite (Hfg x Hx). auto.
Qed.

Lemma action_events_requests (env : Env) (cmd name : string) (prompt : bool) :
  filter is_makeRequest_POST (action_events env cmd name prompt)
  = [makeRequest_POST cmd name]
  /\ filter is_makeRequest_GET (action_events env cmd name prompt) = []
  /\ filter is_reportInstallError_call (action_events env cmd name prompt) = []
  /\ existsb is_gate_call (action_events env cmd name prompt) = false.
Proof.
  unfold action_events.
  destruct (response_ok env cmd name && (builder_isAvailable env && negb prompt));
    simpl; auto.
Qed.

Lemma reply_events_requests (isJupyterOrg : string -> bool) (env : Env)
    (a : Action) (entry : IEntry.t) (m : ListModel)
    (reply : settled IActionReply.t) :
  filter is_makeRequest_POST (reply_events isJupyterOrg env a entry m reply) = []
  /\ filter is_makeRequest_GET (reply_events isJupyterOrg env a entry m reply)
     = match reply with
       | Fulfilled _ => [makeRequest_GET false]
       | Rejected _ => []
       end
  /\ filter is_reportInstallError_call
       (reply_events isJupyterOrg env a entry m reply)
     = match a, reply with
       | install_cmd, Fulfilled data => report_events entry data
       | _, _ => []
       end
  /\ existsb is_gate_call (reply_events isJupyterOrg env a entry m reply) = false.
Proof.
  unfold reply_events, report_events, pass_events.
  destruct reply as [data|reason]; [|simpl; destruct a; auto].
  destruct (publishes isJupyterOrg env false m);
    destruct a; simpl; destruct (_query m); simpl; auto;
    destruct (IActionReply.status data) as [[| | |]|]; simpl; auto.
Qed.

(** X18.  One call of an action method sends at most one action request,
    naming the method's own command and the entry, and runs at most one
    pass, without the refresh flag. *)
Theorem perform_single_request
    (isJupyterOrg : string -> bool) (new_RegExp : string -> completion (string -> bool))
    (env : Env) (a : Action) (entry : IEntry.t) (w : World) :
  let events := emitted_by (perform isJupyterOrg new_RegExp env a entry) w in
  (filter is_makeRequest_POST events = []
   \/ filter is_makeRequest_POST events
      = [makeRequest_POST (Action_toString a) (IEntry.name entry)])
  /\ (filter is_makeRequest_GET events = []
      \/ filter is_makeRequest_GET events = [makeRequest_GET false]).
Proof.
  cbv zeta.
  destruct (perform_log isJupyterOrg new_RegExp env a entry w)
    as (gate & Hgate & [E|E]); rewrite E.
  - rewrite (filter_none is_gate_call is_makeRequest_POST gate Hgate)
      by (intros [] H; try discriminate H; reflexivity).
    rewrite (filter_none is_gate_call is_makeRequest_GET gate Hgate)
      by (intros [] H; try discriminate H; reflexivity).
    auto.
  - rewrite !filter_app.
    rewrite (filter_none is_gate_call is_makeRequest_POST gate Hgate)
      by (intros [] H; try discriminate H; reflexivity).
    rewrite (filter_none is_gate_call is_makeRequest_GET gate Hgate)
      by (intros [] H; try discriminate H; reflexivity).
    destruct (action_events_requests env (Action_toString a) (IEntry.name entry)
                (promptBuild (this w))) as (P1 & G1 & _ & _).
    destruct (reply_events_requests isJupyterOrg env a entry (this w)
                (action_reply env (Action_toString a) (IEntry.name entry)))
      as (P2 & G2 & _ & _).
    rewrite P1, P2, G1, G2. simpl.
    split; [right; reflexivity|].
    destruct (action_reply env _ _); auto.
Qed.

(** X19.  Only [install] reports: the other methods never call the error
    report, and [install], once its request has been made, reports exactly
    a reply whose status is not ok, with the entry's name and the reply's
    message, and nothing when the request fails. *)
Theorem install_reports_failed_reply
    (isJupyterOrg : string -> bool) (new_RegExp : string -> completion (string -> bool))
    (env : Env) (entry : IEntry.t) (w : World) :
  (forall a, a <> install_cmd ->
     filter is_reportInstallError_call
       (emitted_by (perform isJupyterOrg new_RegExp env a entry) w) = [])
  /\
  (In (makeRequest_POST "install" (IEntry.name entry))
      (emitted_by (install isJupyterOrg new_RegExp env entry) w) ->
   filter is_reportInstallError_call
     (emitted_by (install isJupyterOrg new_RegExp env entry) w)
   = match action_reply env "install" (IEntry.name entry) with
     | Fulfilled data => report_events entry data
     | Rejected _ => []
     end).
Proof.
  assert (Gate : forall gate, forallb is_gate_call gate = true ->
                   filter is_reportInstallError_call gate = []
                   /\ filter is_makeRequest_POST gate = []).
  { intros gate Hgate. split;
      apply (filter_none is_gate_call _ gate Hgate);
      intros [] H; try discriminate H; reflexivity. }
  split.
  - intros a Ha.
    destruct (perform_log isJupyterOrg new_RegExp env a entry w)
      as (gate & Hgate & [E|E]); rewrite E.
    + apply Gate. exact Hgate.
    + rewrite !filter_app. rewrite (proj1 (Gate gate Hgate)).
      destruct (action_events_requests env (Action_toString a) (IEntry.name entry)
                  (promptBuild (this w))) as (_ & _ & R1 & _).
      destruct (reply_events_requests isJupyterOrg env a entry (this w)
                  (action_reply env (Action_toString a) (IEntry.name entry)))
        as (_ & _ & R2 & _).
      rewrite R1, R2. destruct a; [congruence| | |]; reflexivity.
  - intros Hposted.
    destruct (perform_log isJupyterOrg new_RegExp env install_cmd entry w)
      as (gate & Hgate & [E|E]);
      change (perform isJupyterOrg new_RegExp env install_cmd entry)
        with (install isJupyterOrg new_RegExp env entry) in E;
      change (Action_toString install_cmd) with "install"%string in E;
      rewrite E in *.
    + exfalso.
      assert (H : In (makeRequest_POST "install" (IEntry.name entry))
                     (filter is_makeRequest_POST gate)).
      { apply filter_In. split; [exact Hposted | reflexivity]. }
      rewrite (proj2 (Gate gate Hgate)) in H. destruct H.
    + rewrite !filter_app. rewrite (proj1 (Gate gate Hgate)).
      destruct (action_events_requests env "install" (IEntry.name entry)
                  (promptBuild (this w))) as (_ & _ & R1 & _).
      destruct (reply_events_requests isJupyterOrg env install_cmd entry (this w)
                  (action_reply env "install" (IEntry.name entry)))
        as (_ & _ & R2 & _).
      rewrite R1, R2. reflexivity.
Qed.

Lemma install_reports_failed_reply_witness :
  filter is_reportInstallError_call
    (emitted_by (install Sample.isJupyterOrg Sample.new_RegExp Sample.env Sample.a)
       Sample.searching)
  = [reportInstallError_call "a" (Some "build failed"%string)]
  /\ filter is_reportInstallError_call
       (emitted_by (uninstall Sample.isJupyterOrg Sample.env Sample.a)
          Sample.searching) = [].
Proof.
  split.
  - rewrite (proj2 (install_reports_failed_reply Sample.isJupyterOrg
                      Sample.new_RegExp Sample.env Sample.a Sample.searching)).
    + reflexivity.
    + vm_compute. left. reflexivity.
  - apply (proj1 (install_reports_failed_reply Sample.isJupyterOrg
                    Sample.new_RegExp Sample.env Sample.a Sample.searching)
             uninstall_cmd).
    discriminate.
Defined.

(** X20.  Installing an entry that is installed already is an upgrade: the
    companion gate is not consulted (no metadata is fetched, nothing is
    presented) and the action request is the first effect. *)
Theorem install_upgrade_bypasses_gate
    (isJupyterOrg : string -> bool) (new_RegExp : string -> completion (string -> bool))
    (env : Env) (entry : IEntry.t) (w : World) :
  IEntry.installed entry = true ->
  let events := emitted_by (install isJupyterOrg new_RegExp env entry) w in
  events
  = action_events env "install" (IEntry.name entry) (promptBuild (this w))
    ++ reply_events isJupyterOrg env install_cmd entry (this w)
         (action_reply env "install" (IEntry.name entry))
  /\ hd_error events = Some (makeRequest_POST "install" (IEntry.name entry))
  /\ existsb is_gate_call events = false.
Proof.
  intros H. cbv zeta.
  assert (E : emitted_by (install isJupyterOrg new_RegExp env entry) w
              = action_events env "install" (IEntry.name entry)
                  (promptBuild (this w))
                ++ reply_events isJupyterOrg env install_cmd entry (this w)
                     (action_reply env "install" (IEntry.name entry))).
  { unfold install. rewrite H. apply emitted_by_log.
    assert (E : log (snd ((data <- _performAction env "install" entry ;;
                           then_ data (install_then isJupyterOrg env entry) ;;;
                           ret (Returned tt)) w))
                = log w
                  ++ action_events env "install" (IEntry.name entry)
                       (promptBuild (this w))
                  ++ match action_reply env "install" (IEntry.name entry) with
                     | Fulfilled data =>
                         report_events entry data ++ pass_events isJupyterOrg env false (this w)
                     | Rejected _ => []
                     end).
    { rewrite <- (chained_install_log isJupyterOrg env entry w).
      unfold chained, bind.
      destruct (_performAction env "install" entry w) as [data w1].
      destruct (then_ data _ w1) as [[] w2]. reflexivity. }
    exact E. }
  rewrite E. split; [reflexivity | split; [reflexivity|]].
  rewrite existsb_app.
  rewrite (proj2 (proj2 (proj2 (action_events_requests env "install"
                                  (IEntry.name entry) (promptBuild (this w)))))).
  rewrite (proj2 (proj2 (proj2 (reply_events_requests isJupyterOrg env install_cmd entry (this w)
             (action_reply env "install" (IEntry.name entry)))))).
  reflexivity.
Qed.

Lemma install_upgrade_bypasses_gate_witness :
  existsb is_gate_call
    (emitted_by (install Sample.isJupyterOrg Sample.new_RegExp Sample.env Sample.a)
       Sample.searching) = false.
Proof.
  apply (install_upgrade_bypasses_gate Sample.isJupyterOrg Sample.new_RegExp
           Sample.env Sample.a Sample.searching eq_refl).
Defined.

(** X21.  A fresh install that the gate does not approve (the user
    declines, or the metadata cannot be fetched) changes nothing in the
    model and sends nothing to the server: its effects are those of the
    gate. *)
Theorem install_not_approved
    (isJupyterOrg : string -> bool) (new_RegExp : string -> completion (string -> bool))
    (env : Env) (entry : IEntry.t) (w : World) :
  IEntry.installed entry = false ->
  fst (checkCompanionPackages new_RegExp env entry w) <> Fulfilled true ->
  let run := install isJupyterOrg new_RegExp env entry in
  run w = (Returned tt, snd (checkCompanionPackages new_RegExp env entry w))
  /\ this (snd (run w)) = this w
  /\ filter is_makeRequest_POST (emitted_by run w) = []
  /\ filter is_makeRequest_GET (emitted_by run w) = [].
Proof.
  intros Hi Hgate. cbv zeta.
  destruct (checkCompanionPackages_log new_RegExp env entry w)
    as (Hthis & gate & Hlog & Hcalls).
  assert (E : install isJupyterOrg new_RegExp env entry w
              = (Returned tt, snd (checkCompanionPackages new_RegExp env entry w))).
  { unfold install, bind. rewrite Hi.
    destruct (checkCompanionPackages new_RegExp env entry w)
      as [[[|]|reason] w0]; simpl in *; [congruence | reflexivity | reflexivity]. }
  split; [exact E|].
  assert (Hem : emitted_by (install isJupyterOrg new_RegExp env entry) w = gate).
  { apply emitted_by_log. rewrite E. exact Hlog. }
  rewrite E, Hem. simpl.
  split; [exact Hthis|].
  split; apply (filter_none is_gate_call _ gate Hcalls);
    intros [] H; try discriminate H; reflexivity.
Qed.

Lemma install_not_approved_witness :
  this (snd (install Sample.isJupyterOrg Sample.new_RegExp Sample.env Sample.b
               Sample.searching))
  = this Sample.searching.
Proof.
  apply (install_not_approved Sample.isJupyterOrg Sample.new_RegExp Sample.env
           Sample.b Sample.searching eq_refl).
  discriminate.
Defined.


(** ** Tracking of actions and build checks *)

Lemma handles_fresh (w : World) :
  handles_allocated w -> ~ In (allocated w) (_pendingActions (this w)).
Proof.
  unfold handles_allocated. rewrite Forall_forall. intros H Hin.
  specialize (H _ Hin). lia.
Qed.

Lemma remove_first_of (p : Promise) (l r : list Promise) :
  ~ In p l -> splice1 (indexOf Nat.eqb p (l ++ p :: r)) (l ++ p :: r) = l ++ r.
Proof.
  intros H. rewrite indexOf_first by exact H. apply splice1_at.
Qed.

(** X22.  An action is tracked from its request to the settlement of its
    promise and no longer; on a 2xx response, and only then, a build check
    is started (when the builder is available and no prompt is up), before
    the body is parsed, and is still tracked when the action's own
    reactions have run.  The views and the prompt are not touched. *)
Theorem performAction_tracking
    (env : Env) (cmd : string) (entry : IEntry.t) (w : World) :
  handles_allocated w ->
  let checked :=
    response_ok env cmd (IEntry.name entry)
    && (builder_isAvailable env && negb (promptBuild (this w))) in
  let w' := snd (_performAction env cmd entry w) in
  _pendingActions (this w')
  = _pendingActions (this w) ++ (if checked then [S (allocated w)] else [])
  /\ filter is_getStatus_call (emitted_by (_performAction env cmd entry) w)
     = (if checked then [getStatus_call] else [])
  /\ handles_allocated w'
  /\ promptBuild (this w') = promptBuild (this w)
  /\ _installed (this w') = _installed (this w)
  /\ _searchResult (this w') = _searchResult (this w).
Proof.
  intros Hw. cbv zeta.
  assert (Hfresh := handles_fresh w Hw).
  assert (Hstatus :
    filter is_getStatus_call (emitted_by (_performAction env cmd entry) w)
    = (if response_ok env cmd (IEntry.name entry)
          && (builder_isAvailable env && negb (promptBuild (this w)))
       then [getStatus_call] else [])).
  { rewrite (emitted_by_log _ w _ (proj1 (performAction_log env cmd entry w))).
    unfold action_events.
    destruct (response_ok env cmd (IEntry.name entry)
              && (builder_isAvailable env && negb (promptBuild (this w))));
      reflexivity. }
  split; [|split; [exact Hstatus|]]; clear Hstatus;
    unfold response_ok, _performAction, triggerBuildCheck,
      _addPendingAction_settled, _addPendingAction, remove, Private.handleError,
      handles_allocated in *;
    run_M;
    (destruct (makeRequest_action env cmd (IEntry.name entry))
       as [response|reason]; simpl;
     [destruct (Response.ok response); simpl;
      [destruct (builder_isAvailable env && negb (promptBuild (this w))); simpl;
       destruct (Response.json response); simpl|]|]);
    rewrite <- ?app_assoc; simpl;
    rewrite ?(remove_first_of (allocated w) (_pendingActions (this w))
                (@cons Promise (S (allocated w)) (@nil Promise)) Hfresh);
    rewrite ?(remove_fresh (allocated w) (_pendingActions (this w)) Hfresh);
    rewrite ?app_nil_r; try reflexivity;
    (split; [|auto]);
    rewrite ?Forall_app; repeat split;
    try (eapply Forall_impl; [|exact Hw]; simpl; intros; lia);
    repeat constructor.
Qed.

Lemma performAction_tracking_witness :
  _pendingActions
    (this (snd (_performAction Sample.env "enable" Sample.b Sample.idle)))
  = [1%nat]
  /\ _pendingActions
       (this (snd (_performAction Sample.env_server_down "enable" Sample.b
                     Sample.idle)))
     = [].
Proof.
  split.
  - apply (performAction_tracking Sample.env "enable" Sample.b Sample.idle).
    constructor.
  - apply (performAction_tracking Sample.env_server_down "enable" Sample.b
             Sample.idle).
    constructor.
Defined.

(** ** The build prompt *)

(** X23.  A build check does nothing at all when the builder is not
    available or a build prompt is already up.  Otherwise it asks for the
    status and, tracked meanwhile, raises the prompt when a build is needed,
    joins the build when one is running, and does nothing else; once it is
    over the pending actions are as before. *)
Theorem buildCheck_outcomes (env : Env) (w : World) :
  (builder_isAvailable env = false \/ promptBuild (this w) = true ->
   buildCheck env w = (tt, w))
  /\
  (builder_isAvailable env = true -> promptBuild (this w) = false ->
   handles_allocated w ->
   let w' := snd (buildCheck env w) in
   promptBuild (this w') = build_status env "needed"
   /\ _pendingActions (this w') = _pendingActions (this w)
   /\ emitted_by (buildCheck env) w
      = [getStatus_call; stateChanged_emit]
        ++ (if build_status env "building" then [doBuild_call]
            else if build_status env "needed" then [stateChanged_emit]
            else [])
        ++ [stateChanged_emit]).
Proof.
  split.
  - intros H. unfold buildCheck, triggerBuildCheck. run_M.
    destruct H as [H|H]; rewrite H; simpl; rewrite ?andb_false_r; reflexivity.
  - intros Ha Hp Hw. cbv zeta.
    assert (Hfresh := handles_fresh w Hw).
    unfold emitted_by, build_status, buildCheck, triggerBuildCheck,
      triggerBuildCheck_settled, _addPendingAction_settled, _addPendingAction,
      remove.
    run_M. rewrite Ha, Hp. simpl.
    destruct (builder_getStatus env) as [status|reason]; simpl.
    + destruct (String.eqb_spec status "building") as [E|E]; simpl.
      * subst status. simpl.
        destruct (doBuild env); simpl; rewrite Hp; simpl;
          rewrite remove_fresh by exact Hfresh;
          repeat (rewrite <- app_assoc; simpl); rewrite skipn_length_app; auto.
      * destruct (String.eqb_spec status "needed") as [E'|E']; simpl.
        -- rewrite Hp. simpl. rewrite remove_fresh by exact Hfresh.
           repeat (rewrite <- app_assoc; simpl). rewrite skipn_length_app. auto.
        -- rewrite Hp. simpl. rewrite remove_fresh by exact Hfresh.
           repeat (rewrite <- app_assoc; simpl). rewrite skipn_length_app. auto.
    + rewrite Hp. simpl. rewrite remove_fresh by exact Hfresh.
      repeat (rewrite <- app_assoc; simpl). rewrite skipn_length_app. auto.
Qed.

Lemma buildCheck_outcomes_witness :
  promptBuild (this (snd (buildCheck Sample.env Sample.idle))) = true
  /\ buildCheck Sample.env (snd (buildCheck Sample.env Sample.idle))
     = (tt, snd (buildCheck Sample.env Sample.idle)).
Proof.
  split.
  - apply (proj2 (buildCheck_outcomes Sample.env Sample.idle) eq_refl eq_refl).
    constructor.
  - apply (proj1 (buildCheck_outcomes Sample.env
                    (snd (buildCheck Sample.env Sample.idle)))).
    right. reflexivity.
Defined.

(** X24.  [performBuild] and [ignoreBuildRecommendation] both take the
    build prompt down, signalling only if it was up; the first starts
    exactly one build and tracks it until it settles, the second starts
    none and is idempotent. *)
Theorem build_prompt_cleared (env : Env) (w : World) :
  let cleared :=
    if promptBuild (this w) then [stateChanged_emit] else [] in
  (let w' := snd (performBuild w) in
   promptBuild (this w') = false
   /\ fst (performBuild w) = allocated w
   /\ _pendingActions (this w') = _pendingActions (this w) ++ [allocated w]
   /\ emitted_by performBuild w = cleared ++ [doBuild_call; stateChanged_emit]
   /\ (handles_allocated w ->
       _pendingActions (this (snd (performBuild_settled env (allocated w) w')))
       = _pendingActions (this w)))
  /\
  (let w' := snd (ignoreBuildRecommendation w) in
   promptBuild (this w') = false
   /\ _pendingActions (this w') = _pendingActions (this w)
   /\ emitted_by ignoreBuildRecommendation w = cleared
   /\ ignoreBuildRecommendation w' = (tt, w')).
Proof.
  cbv zeta. split.
  - unfold emitted_by, performBuild, performBuild_settled,
      _addPendingAction_settled, _addPendingAction, remove.
    run_M.
    destruct (promptBuild (this w)) eqn:Hp; simpl;
      repeat (rewrite <- app_assoc; simpl); rewrite skipn_length_app;
      (split; [auto|]); (split; [reflexivity|]); (split; [reflexivity|]);
      (split; [reflexivity|]);
      intros Hw; assert (Hfresh := handles_fresh w Hw);
      destruct (doBuild env); simpl; apply remove_fresh; exact Hfresh.
  - unfold emitted_by, ignoreBuildRecommendation. run_M.
    destruct (promptBuild (this w)) eqn:Hp; simpl.
    + rewrite skipn_length_app. auto.
    + rewrite Hp. rewrite <- (app_nil_r (log w)) at 2.
      rewrite skipn_length_app. auto.
Qed.

Lemma build_prompt_cleared_witness :
  _pendingActions
    (this (snd (performBuild_settled Sample.env 0%nat
                  (snd (performBuild Sample.idle))))) = [].
Proof.
  apply (proj1 (build_prompt_cleared Sample.env Sample.idle)).
  constructor.
Defined.

(** ** Responses that are not 2xx *)

(** X25.  A response that is not 2xx is turned into the failure
    "<status> (<statusText>)" before its body is looked at: the installed
    query is rejected with it and stores it in the installed and the
    server-connection slot; an action is rejected with it, stores it in the
    server-connection slot and starts no build check. *)
Theorem response_not_ok
    (env : Env) (w : World) :
  (forall refreshInstalled response,
      makeRequest_extensions env refreshInstalled = Fulfilled response ->
      Response.ok response = false ->
      let reason :=
        Error (number_toString (Response.status response) ++ " ("
               ++ Response.statusText response ++ ")")%string in
      let w' := snd (queryInstalled env refreshInstalled w) in
      fst (fetchInstalled env refreshInstalled w) = Rejected reason
      /\ fst (queryInstalled env refreshInstalled w) = empty_object
      /\ installedError (this w') = Some reason
      /\ serverConnectionError (this w') = Some reason)
  /\
  (forall cmd entry response,
      makeRequest_action env cmd (IEntry.name entry) = Fulfilled response ->
      Response.ok response = false ->
      let reason :=
        Error (number_toString (Response.status response) ++ " ("
               ++ Response.statusText response ++ ")")%string in
      let w' := snd (_performAction env cmd entry w) in
      fst (_performAction env cmd entry w) = Rejected reason
      /\ serverConnectionError (this w') = Some reason
      /\ emitted_by (_performAction env cmd entry) w
         = [makeRequest_POST cmd (IEntry.name entry); stateChanged_emit;
            stateChanged_emit]).
Proof.
  split.
  - intros refreshInstalled response Hr Hok. cbv zeta.
    unfold queryInstalled, fetchInstalled, Private.handleError. run_M.
    rewrite Hr, Hok. simpl. auto.
  - intros cmd entry response Hr Hok. cbv zeta.
    unfold emitted_by, _performAction, Private.handleError,
      _addPendingAction_settled, _addPendingAction, remove.
    run_M. rewrite Hr, Hok. simpl.
    repeat (rewrite <- app_assoc; simpl). rewrite skipn_length_app. auto.
Qed.

Lemma response_not_ok_witness :
  fst (fetchInstalled Sample.env_server_down true Sample.idle)
  = Rejected "Error: 500 (Internal Server Error)"
  /\ fst (_performAction Sample.env_server_down "disable" Sample.a Sample.idle)
     = Rejected "Error: 500 (Internal Server Error)".
Proof.
  split.
  - apply (proj1 (response_not_ok Sample.env_server_down Sample.idle) true
             (Response.mk false 500 "Internal Server Error"
                (Rejected "SyntaxError: Unexpected token")) eq_refl eq_refl).
  - apply (proj2 (response_not_ok Sample.env_server_down Sample.idle)
             "disable"%string Sample.a
             (Response.mk false 500 "Internal Server Error"
                (Rejected "SyntaxError: Unexpected token")) eq_refl eq_refl).
Defined.

(** ** Initialisation, refresh and the setters *)

(** X26.  [initialize] ends with the model marked as initialised whatever
    the registry and the server answer and however its pass ends; the other
    fields are as the pass leaves them, and a change signal follows the
    effects of the pass. *)
Theorem initialize_always_initialized
    (isJupyterOrg : string -> bool) (env : Env) (w : World) :
  let pass := snd (update isJupyterOrg env false w) in
  let w' := snd (initialize isJupyterOrg env w) in
  initialized (this w') = true
  /\ this w' = set_initialized true (this pass)
  /\ emitted_by (initialize isJupyterOrg env) w
     = pass_events isJupyterOrg env false (this w) ++ [stateChanged_emit].
Proof.
  cbv zeta. unfold emitted_by, initialize, bind.
  assert (Hlog := update_log_exact isJupyterOrg env false w).
  destruct (update isJupyterOrg env false w) as [[] w1]. simpl in *.
  unfold modify, emit. simpl. rewrite Hlog, <- app_assoc, skipn_length_app. auto.
Qed.

Ltac project_fields :=
  cbv beta iota;
  cbn [fst snd this log allocated _installed _searchResult _query _page
       _pagination _totalEntries installedError searchError
       serverConnectionError initialized promptBuild _pendingActions
       set__installed set__searchResult set__query set__page set__pagination
       set__totalEntries set_installedError set_searchError
       set_serverConnectionError set_promptBuild set__pendingActions
       set_initialized].

(** The start of a pass sends the requests; a null query empties the search
    state at once. *)
Lemma update_started_run (env : Env) (refreshInstalled : bool) (w : World) :
  let started := update_started env refreshInstalled w in
  fst started
  = match _query (this w) with
    | Some query =>
        Some (searcher_searchExtensions env query (_page (this w))
                (_pagination (this w)))
    | None => None
    end
  /\ log (snd started)
     = log w
       ++ match _query (this w) with
          | Some query =>
              [searchExtensions_call query (_page (this w)) (_pagination (this w))]
          | None => []
          end
       ++ [makeRequest_GET refreshInstalled]
  /\ allocated (snd started) = allocated w
  /\ _pendingActions (this (snd started)) = _pendingActions (this w)
  /\ _query (this (snd started)) = _query (this w).
Proof.
  unfold update_started. run_M.
  destruct (_query (this w)) as [query|] eqn:Hq; simpl;
    repeat (rewrite <- app_assoc; simpl); rewrite ?Hq; auto.
Qed.

(** The reactions of a pass do not look at the pending actions, the log or
    the promises handed out: run with one more pending action, they end in
    the same model but for that action. *)
Lemma update_settled_tracked (isJupyterOrg : string -> bool) (env : Env)
    (refreshInstalled : bool) (search : option (settled ISearchResult.t))
    (m : ListModel) (events1 events2 : list event) (count1 count2 : nat)
    (pending : list Promise) :
  let w1 := {| this := m; log := events1; allocated := count1 |} in
  let w2 := {| this := set__pendingActions pending m; log := events2;
               allocated := count2 |} in
  let r1 := update_settled isJupyterOrg env refreshInstalled search w1 in
  let r2 := update_settled isJupyterOrg env refreshInstalled search w2 in
  fst r2 = fst r1
  /\ this (snd r2) = set__pendingActions pending (this (snd r1))
  /\ allocated (snd r2) = count2
  /\ exists events, log (snd r1) = events1 ++ events
                    /\ log (snd r2) = events2 ++ events.
Proof.
  unfold update_settled, bind, ret, modify, emit. project_fields.
  destruct search as [[res|reason]|]; project_fields;
    settle_channels env refreshInstalled; project_fields;
    try match goal with
        | |- context [sort_completion ?c ?l] => destruct (sort_completion c l)
        end;
    project_fields;
    (split; [reflexivity|]); (split; [reflexivity|]); (split; [reflexivity|]);
    first [ exists [stateChanged_emit]; split; reflexivity
          | exists []; rewrite !app_nil_r; split; reflexivity ].
Qed.

(** A pass is its synchronous start followed by the reactions to the two
    answers. *)
Lemma update_split (isJupyterOrg : string -> bool) (env : Env)
    (refreshInstalled : bool) (w : World) :
  update isJupyterOrg env refreshInstalled w
  = (search <- update_started env refreshInstalled ;;
     update_settled isJupyterOrg env refreshInstalled search ;;;
     ret tt) w.
Proof.
  unfold update, update_started, update_settled, performSearch, queryInstalled,
    fetchInstalled, bind, ret, read, modify, emit.
  cbv beta iota. cbn [fst snd this log allocated].
  destruct (_query (this w)) as [query|];
    cbv beta iota; cbn [fst snd this log allocated];
    settle_channels env refreshInstalled;
    try match goal with
        | |- context [sort_completion ?c ?l] => destruct (sort_completion c l)
        end;
    reflexivity.
Qed.

Lemma set__pendingActions_same (m : ListModel) (pending extra : list Promise) :
  _pendingActions m = pending ->
  set__pendingActions pending (set__pendingActions extra m) = m.
Proof.
  intros <-. destruct m. reflexivity.
Qed.

(** X27.  [refreshInstalled] runs a pass whose installed query carries the
    refresh flag; the pass is tracked as a pending action from the moment
    its requests are out until it has ended, published or not, so the model
    is busy in between, and it ends with every field as [update(true)]
    leaves it. *)
Theorem refreshInstalled_tracked_pass
    (isJupyterOrg : string -> bool) (env : Env) (w : World) :
  handles_allocated w ->
  let started := snd (refreshInstalled_started env w) in
  let w' := snd (refreshInstalled isJupyterOrg env w) in
  hasPendingActions (this started) = true
  /\ emitted_by (refreshInstalled_started env) w
     = match _query (this w) with
       | Some query =>
           [searchExtensions_call query (_page (this w)) (_pagination (this w))]
       | None => []
       end
       ++ [makeRequest_GET true; stateChanged_emit]
  /\ this w' = this (snd (update isJupyterOrg env true w))
  /\ emitted_by (refreshInstalled isJupyterOrg env) w
     = emitted_by (refreshInstalled_started env) w
       ++ (if publishes isJupyterOrg env true (this w) then [stateChanged_emit]
           else [])
       ++ [stateChanged_emit].
Proof.
  intros Hw. cbv zeta.
  assert (Hfresh := handles_fresh w Hw).
  destruct (update_started_run env true w)
    as (Hsearch & Hlog0 & Hcount0 & Hpend0 & Hq0).
  assert (Hpass := update_split isJupyterOrg env true w).
  assert (Hframe := update_frame isJupyterOrg env true w).
  assert (Hpasslog := update_log_exact isJupyterOrg env true w).
  unfold bind in Hpass.
  unfold emitted_by, refreshInstalled, refreshInstalled_started, bind.
  destruct (update_started env true w) as [search w0].
  cbn [fst snd] in *.
  unfold new_Promise, _addPendingAction, bind, read, modify, emit, ret.
  cbn [fst snd this log allocated].
  rewrite Hcount0, Hpend0.
  destruct w0 as [m0 events0 count0]. cbn [this log allocated] in *.
  destruct (update_settled_tracked isJupyterOrg env true search m0
              events0 (events0 ++ [stateChanged_emit]) count0 (S (allocated w))
              (_pendingActions (this w)
               ++ @cons Promise (allocated w) (@nil Promise)))
    as (Hfst & Hthis & Hcount & events & Hl1 & Hl2).
  cbv zeta in Hfst, Hthis, Hcount, Hl1, Hl2.
  destruct (update_settled isJupyterOrg env true search
              {| this := m0; log := events0; allocated := count0 |})
    as [outcome1 w1].
  unfold ret in Hpass. rewrite Hpass in Hframe, Hpasslog.
  cbn [fst snd] in *.
  match goal with
  | |- context [update_settled isJupyterOrg env true search ?w2] =>
      set (settled2 := update_settled isJupyterOrg env true search w2) in *
  end.
  clearbody settled2. destruct settled2 as [outcome2 w2'].
  cbn [fst snd] in *.
  assert (Hrm : forall w3, _addPendingAction_settled (allocated w) outcome2 w3
                           = remove (allocated w) w3)
    by (intros w3; destruct outcome2; reflexivity).
  rewrite Hrm. unfold remove, bind, read, modify, emit.
  cbn [fst snd this log allocated].
  rewrite Hthis, Hl2. project_fields.
  rewrite (remove_fresh (allocated w) (_pendingActions (this w)) Hfresh).
  rewrite Hlog0.
  assert (Events : events
                   = if publishes isJupyterOrg env true (this w)
                     then [stateChanged_emit] else []).
  { rewrite Hl1, Hlog0 in Hpasslog. unfold pass_events in Hpasslog.
    repeat rewrite <- app_assoc in Hpasslog.
    apply app_inv_head in Hpasslog. apply app_inv_head in Hpasslog.
    simpl in Hpasslog. inversion Hpasslog. reflexivity. }
  split; [|split; [|split]].
  - unfold hasPendingActions. project_fields. rewrite length_app. cbn [length].
    apply Z.ltb_lt. lia.
  - repeat (rewrite <- app_assoc; cbn [app]). rewrite skipn_length_app.
    reflexivity.
  - rewrite Hpass. cbn [snd]. apply set__pendingActions_same.
    exact (proj1 (proj2 (proj2 (proj2 (proj2 (proj2 Hframe)))))).
  - rewrite Events.
    repeat (rewrite <- app_assoc; cbn [app]). rewrite !skipn_length_app.
    repeat (rewrite <- app_assoc; cbn [app]). reflexivity.
Qed.

Lemma refreshInstalled_tracked_pass_witness :
  emitted_by (refreshInstalled Sample.isJupyterOrg Sample.env) Sample.searching
  = [searchExtensions_call "lab" 0 250; makeRequest_GET true; stateChanged_emit;
     stateChanged_emit; stateChanged_emit].
Proof.
  rewrite (proj2 (proj2 (proj2 (refreshInstalled_tracked_pass Sample.isJupyterOrg
             Sample.env Sample.searching (Forall_nil _))))).
  reflexivity.
Defined.

(** X28.  Each setter stores its value and starts a pass at once, also when
    the value is the one already held; the search of that pass is made with
    the new value. *)
Theorem setters_trigger_pass
    (isJupyterOrg : string -> bool) (env : Env) (w : World) :
  (forall value,
      _query (this (snd (set_query isJupyterOrg env value w))) = value
      /\ emitted_by (set_query isJupyterOrg env value) w
         = pass_events isJupyterOrg env false (set__query value (this w)))
  /\ (forall value,
        _page (this (snd (set_page isJupyterOrg env value w))) = value
        /\ emitted_by (set_page isJupyterOrg env value) w
           = pass_events isJupyterOrg env false (set__page value (this w)))
  /\ (forall value,
        _pagination (this (snd (set_pagination isJupyterOrg env value w))) = value
        /\ emitted_by (set_pagination isJupyterOrg env value) w
           = pass_events isJupyterOrg env false (set__pagination value (this w))).
Proof.
  assert (Pass : forall w0,
            log w0 = log w ->
            skipn (length (log w)) (log (snd (update isJupyterOrg env false w0)))
            = pass_events isJupyterOrg env false (this w0)).
  { intros w0 H. rewrite update_log_exact, H. apply skipn_length_app. }
  split; [|split]; intros value.
  - unfold emitted_by, set_query, bind, modify. simpl. split.
    + destruct (update_frame isJupyterOrg env false
                  {| this := set__query value (this w); log := log w;
                     allocated := allocated w |}) as (Hq & _).
      exact Hq.
    + apply (Pass {| this := set__query value (this w); log := log w;
                     allocated := allocated w |}). reflexivity.
  - unfold emitted_by, set_page, bind, modify. simpl. split.
    + destruct (update_frame isJupyterOrg env false
                  {| this := set__page value (this w); log := log w;
                     allocated := allocated w |}) as (_ & Hp & _).
      exact Hp.
    + apply (Pass {| this := set__page value (this w); log := log w;
                     allocated := allocated w |}). reflexivity.
  - unfold emitted_by, set_pagination, bind, modify. simpl. split.
    + destruct (update_frame isJupyterOrg env false
                  {| this := set__pagination value (this w); log := log w;
                     allocated := allocated w |}) as (_ & _ & Hn & _).
      exact Hn.
    + apply (Pass {| this := set__pagination value (this w); log := log w;
                     allocated := allocated w |}). reflexivity.
Qed.

(** ** Names the installed map inherits, and views that cannot be sorted *)

(** The entry that a view shows under the name of a key of the search map
    is what the pass pushed for that key. *)
Lemma merge_entry_at (searchMap installedMap : dictionary) (key : string)
    (s e : IEntry.t) :
  keyed_by_name searchMap -> keyed_by_name installedMap ->
  own_property key (own searchMap) = Some s ->
  In (js_entry e) (merge searchMap installedMap) -> IEntry.name e = key ->
  pushed installedMap (key, s) = js_entry e.
Proof.
  intros Ks Ki Hs He Hname. unfold merge in He. apply in_map_iff in He.
  destruct He as ([k s'] & Hpush & Hkv).
  destruct (In_own_keys searchMap (k, s') Ks Hkv) as [Hp Hn]. simpl in Hp, Hn.
  destruct (pushed_entry installedMap k s' e Ki Hp Hn Hpush) as [E _].
  assert (Ek : k = key) by congruence.
  apply (proj1 (In_enumerate _ _)) in Hkv.
  apply (In_own_property _ _ _ (proj1 Ks)) in Hkv.
  rewrite Ek in Hkv, Hpush. rewrite Hkv in Hs. inversion Hs as [Es].
  rewrite <- Es. exact Hpush.
Qed.

Lemma merge_pushed (searchMap installedMap : dictionary) (key : string)
    (s : IEntry.t) :
  own_property key (own searchMap) = Some s ->
  In (pushed installedMap (key, s)) (merge searchMap installedMap).
Proof.
  intros Hs. unfold merge. apply in_map. apply In_enumerate.
  apply own_property_In. exact Hs.
Qed.

(** X29.  In the search view that a pass publishes, a name that is an own
    key of both maps is shown by the installed map's entry, identical in
    every field, and by no other entry; a name that is a key of the search
    map and under which a lookup in the installed map gives [undefined] is
    shown by the search-derived entry, and by no other entry; and a key of
    the search map that the installed map does not own but inherits is
    shown by the inherited value, and the search-derived entry is not
    shown. *)
Theorem update_searchResult_dedup
    (isJupyterOrg : string -> bool) (env : Env) (refreshInstalled : bool)
    (w : World) (searchResult : list value) :
  pass_searchResult isJupyterOrg env refreshInstalled w = Returned searchResult ->
  let searchMap := pass_searchMap env w in
  let installedMap := pass_installedMap env refreshInstalled w in
  _searchResult (this (snd (update isJupyterOrg env refreshInstalled w)))
  = searchResult
  /\ (forall key s i,
        own_property key (own searchMap) = Some s ->
        own_property key (own installedMap) = Some i ->
        In (js_entry i) searchResult
        /\ forall e, In (js_entry e) searchResult -> IEntry.name e = key -> e = i)
  /\ (forall key s,
        own_property key (own searchMap) = Some s ->
        get key installedMap = js_undefined ->
        In (js_entry s) searchResult
        /\ forall e, In (js_entry e) searchResult -> IEntry.name e = key -> e = s)
  /\ (forall key s,
        own_property key (own searchMap) = Some s ->
        own_property key (own installedMap) = None ->
        get key installedMap <> js_undefined ->
        In (get key installedMap) searchResult
        /\ ~ In (js_entry s) searchResult).
Proof.
  intros Hview searchMap installedMap.
  assert (Hpub := update_searchResult isJupyterOrg env refreshInstalled w
                    searchResult Hview).
  unfold pass_searchResult in Hview. apply sort_completion_partition in Hview.
  fold searchMap installedMap in Hview.
  assert (Ks : keyed_by_name searchMap) by apply pass_searchMap_keyed.
  assert (Ki : keyed_by_name installedMap) by apply pass_installedMap_keyed.
  assert (View : forall v, In v searchResult
                           <-> In v (merge searchMap installedMap)).
  { intros v. rewrite Hview. split; apply Permutation_in;
      [|apply Permutation_sym]; apply partition_Permutation. }
  split; [exact Hpub|]. split; [|split].
  - intros key s i Hs Hi.
    assert (Hpush : pushed installedMap (key, s) = js_entry i).
    { unfold pushed, get. simpl. rewrite Hi. reflexivity. }
    split.
    + apply View. rewrite <- Hpush. apply merge_pushed. exact Hs.
    + intros e He Hname. apply View in He.
      assert (H := merge_entry_at searchMap installedMap key s e Ks Ki Hs He Hname).
      congruence.
  - intros key s Hs Hi.
    assert (Hpush : pushed installedMap (key, s) = js_entry s).
    { unfold pushed. simpl. rewrite Hi. reflexivity. }
    split.
    + apply View. rewrite <- Hpush. apply merge_pushed. exact Hs.
    + intros e He Hname. apply View in He.
      assert (H := merge_entry_at searchMap installedMap key s e Ks Ki Hs He Hname).
      congruence.
  - intros key s Hs Hi Hinh.
    assert (Hpush : pushed installedMap (key, s) = get key installedMap).
    { unfold pushed. simpl.
      destruct (get key installedMap); try reflexivity. congruence. }
    split.
    + apply View. rewrite <- Hpush. apply merge_pushed. exact Hs.
    + intros He. apply View in He.
      assert (Hname : IEntry.name s = key).
      { apply (proj1 (proj2 Ks)). apply own_property_In. exact Hs. }
      assert (H := merge_entry_at searchMap installedMap key s s Ks Ki Hs He Hname).
      assert (Hp : key <> "__proto__").
      { intros E. apply (proj2 (proj2 Ks)). rewrite <- E.
        change key with (fst (key, s)). apply in_map.
        apply own_property_In. exact Hs. }
      destruct (pushed_entry installedMap key s s Ki Hp Hname H)
        as [_ [Hown|[Hundefined _]]]; congruence.
Qed.

Lemma update_searchResult_dedup_witness :
  In (js_entry Sample.a)
     (_searchResult
        (this (snd (update Sample.isJupyterOrg Sample.env false Sample.searching))))
  /\ In (js_entry Sample.b)
        (_searchResult
           (this (snd (update Sample.isJupyterOrg Sample.env false Sample.searching)))).
Proof.
  destruct (update_searchResult_dedup Sample.isJupyterOrg Sample.env false
              Sample.searching _ eq_refl) as (Hview & Hboth & Hsearch & _).
  rewrite Hview. split.
  - apply (Hboth "a"%string
             (search_entry (ISearchResult.package (Sample.found "a" [])))
             Sample.a eq_refl eq_refl).
  - apply (Hsearch "b"%string Sample.b eq_refl eq_refl).
Defined.

(** X30.  When the comparator throws while the search view is sorted, the
    pass ends after it has assigned the installed view: the search view
    stays as it was and no change is signalled.  This happens only when the
    query is not null and a record of the server is named "__proto__", so
    that the installed map has an entry in the place of [Object.prototype]
    and a lookup can give a value without a name. *)
Theorem update_unsortable
    (isJupyterOrg : string -> bool) (env : Env) (refreshInstalled : bool)
    (w : World) (reason : string) :
  pass_searchResult isJupyterOrg env refreshInstalled w = Thrown reason ->
  let w' := snd (update isJupyterOrg env refreshInstalled w) in
  _installed (this w')
  = sort (Private.comparator isJupyterOrg)
      (values (pass_installedMap env refreshInstalled w))
  /\ _searchResult (this w') = _searchResult (this w)
  /\ (exists query,
        _query (this w) = Some query
        /\ emitted_by (update isJupyterOrg env refreshInstalled) w
           = [searchExtensions_call query (_page (this w)) (_pagination (this w));
              makeRequest_GET refreshInstalled])
  /\ (exists pkgs pkg,
        installed_request env refreshInstalled = Fulfilled pkgs
        /\ In pkg pkgs /\ IInstalledEntry.name pkg = "__proto__"%string).
Proof.
  intros Hthrown. cbv zeta.
  assert (Hquery : exists query, _query (this w) = Some query).
  { destruct (_query (this w)) as [query|] eqn:Hq; [exists query; reflexivity|].
    exfalso. unfold pass_searchResult in Hthrown.
    rewrite (pass_searchMap_unavailable env w (or_introl Hq)) in Hthrown.
    discriminate Hthrown. }
  destruct Hquery as [query Hq].
  split; [apply update_installed|]. split; [|split].
  - rewrite update_publishes. unfold published.
    rewrite <- pass_searchResult_model, Hthrown, Hq. reflexivity.
  - exists query. split; [exact Hq|].
    rewrite update_events, Hthrown, Hq. reflexivity.
  - destruct (prototype (pass_installedMap env refreshInstalled w)) as [p|] eqn:Hp.
    + rewrite pass_installedMap_request in Hp. unfold installedMap_of in Hp.
      destruct (installed_request env refreshInstalled) as [pkgs|r];
        [|discriminate Hp].
      simpl in Hp.
      rewrite (fold_set_prototype _ IInstalledEntry.name installed_entry) in Hp.
      destruct (find _ (rev pkgs)) as [pkg|] eqn:Hfind; [|discriminate Hp].
      apply find_some in Hfind. destruct Hfind as [Hin Hname].
      exists pkgs, pkg. split; [reflexivity|]. split.
      * apply in_rev. exact Hin.
      * apply String.eqb_eq. exact Hname.
    + exfalso.
      destruct (pass_searchResult_returned isJupyterOrg env refreshInstalled w Hp)
        as [view Hview].
      congruence.
Qed.

Lemma update_unsortable_witness :
  pass_searchResult Sample.isJupyterOrg Sample.env_proto false Sample.searching
  = Thrown "TypeError"
  /\ merge (pass_searchMap Sample.env_proto Sample.searching)
           (pass_installedMap Sample.env_proto false Sample.searching)
     = [js_null; js_entry Sample.b]
  /\ emitted_by (update Sample.isJupyterOrg Sample.env_proto false) Sample.searching
     = [searchExtensions_call "lab" 0 250; makeRequest_GET false].
Proof.
  split; [reflexivity|]. split; [reflexivity|].
  destruct (update_unsortable Sample.isJupyterOrg Sample.env_proto false
              Sample.searching _ eq_refl)
    as (_ & _ & (query & Hq & Hevents) & _).
  rewrite Hevents. inversion Hq. reflexivity.
Defined.
